(** * EnergyMonitor: consumption derivation and merge reconciliation

    A shallow embedding of the calculation helpers and of the data-store
    mutators of [src/App.jsx] ([getPreviousReading], [calcConsumption],
    [addRecord], [updateRecord], [deleteRecord], [importData],
    [prepareMonthly], [prepareAnnualData]), of the parts of [InputForm],
    [DataTable], [ChartsView] and [App] that call them, together with
    the properties of the specification that concern them.

    The React state cell [records] is threaded explicitly: every mutator
    takes the current record list and returns the list it hands to
    [setRecords] and [persist].

    Measurements are JavaScript numbers, that is IEEE 754 doubles, and
    the texts of the form are read by [Number] as the language reads
    them: decimals, exponents, radix prefixes, blanks.  Years and months
    come from the two selects of the form and are integers. *)

From Stdlib Require Import ZArith List String Ascii Bool Lia Floats.
From Stdlib Require Import Permutation Sorted DecimalString DecimalPos DecimalZ.
Import ListNotations.
Local Open Scope string_scope.
Local Open Scope list_scope.
Local Open Scope Z_scope.

(* ================================================================== *)
(** * The fragment of JavaScript the program relies on *)
(* ================================================================== *)

Module JS.

(** Numbers are IEEE 754 doubles, the kernel's binary64 floats: [NaN],
    the two infinities and the two zeros included, every operation
    rounded to nearest, ties to even. *)
Definition num : Set := float.

Bind Scope float_scope with num.

Definition NaN : num := nan.

(** The double nearest to the integer [z]; every integer below 2^53 in
    absolute value is a double. *)
Definition Fin (z : Z) : num :=
  SF2Prim (binary_normalize prec emax z 0 false).

(** The values that reach the store's functions: form fields hold
    [undefined] (missing property), [null] (override switched off), a
    number (form prefilled from a record) or the text of an input. *)
Inductive value : Type :=
| Undefined : value
| Null : value
| Num : num -> value
| Str : string -> value.

(** [a + b] and [a - b] on numbers. *)
Definition add (a b : num) : num := PrimFloat.add a b.

Definition sub (a b : num) : num := PrimFloat.sub a b.

(** [Math.max(a, b)]: [NaN] as soon as one argument is [NaN]; [+0]
    counts as larger than [-0]. *)
Definition Math_max (a b : num) : num :=
  if is_nan a || is_nan b then NaN
  else if PrimFloat.ltb a b then b
  else if PrimFloat.ltb b a then a
  else if Leibniz.eqb a neg_zero then b
  else a.

(** A number in a condition: [NaN], [+0] and [-0] are falsy. *)
Definition falsy (x : num) : bool := is_nan x || PrimFloat.eqb x zero.

(** [x || 0] on a number. *)
Definition or_zero (x : num) : num := if falsy x then zero else x.

(** ** [Number(text)]

    Texts are strings of code units below 256.  White space (the six
    ASCII blanks and the no-break space) is trimmed; the empty text is
    [0]; then, as [StringToNumber] has it, the text is a binary, octal
    or hexadecimal integer ([0b], [0o], [0x], no sign), or an optionally
    signed [Infinity], or an optionally signed decimal numeral with
    optional fraction and exponent; anything else is [NaN].  The value
    of a numeral is rounded to the nearest double. *)

Definition is_white (c : ascii) : bool :=
  match nat_of_ascii c with
  | 9%nat | 10%nat | 11%nat | 12%nat | 13%nat | 32%nat | 160%nat => true
  | _ => false
  end.

Fixpoint trim_left (s : string) : string :=
  match s with
  | String c s' => if is_white c then trim_left s' else s
  | EmptyString => EmptyString
  end.

Fixpoint trim_right (s : string) : string :=
  match s with
  | EmptyString => EmptyString
  | String c s' =>
      match trim_right s' with
      | EmptyString => if is_white c then EmptyString else String c EmptyString
      | t => String c t
      end
  end.

Definition digit_of (c : ascii) : option Z :=
  let n := Z.of_nat (nat_of_ascii c) in
  if (48 <=? n) && (n <=? 57) then Some (n - 48) else None.

Definition hex_digit_of (c : ascii) : option Z :=
  let n := Z.of_nat (nat_of_ascii c) in
  if (48 <=? n) && (n <=? 57) then Some (n - 48)
  else if (65 <=? n) && (n <=? 70) then Some (n - 55)
  else if (97 <=? n) && (n <=? 102) then Some (n - 87)
  else None.

(** A run of decimal digits at the head of [s]: its value on top of
    [acc], the number of digits read on top of [n], and the rest. *)
Fixpoint read_digits (s : string) (acc n : Z) : Z * Z * string :=
  match s with
  | String c s' =>
      match digit_of c with
      | Some d => read_digits s' (10 * acc + d) (n + 1)
      | None => (acc, n, s)
      end
  | EmptyString => (acc, n, s)
  end.

(** The digits of an integer in another radix, up to the end of the
    text. *)
Fixpoint radix_digits (radix : Z) (s : string) (acc : Z) : option Z :=
  match s with
  | EmptyString => Some acc
  | String c s' =>
      match hex_digit_of c with
      | Some d =>
          if d <? radix then radix_digits radix s' (radix * acc + d) else None
      | None => None
      end
  end.

Definition radix_of (c : ascii) : option Z :=
  match c with
  | "x"%char | "X"%char => Some 16
  | "o"%char | "O"%char => Some 8
  | "b"%char | "B"%char => Some 2
  | _ => None
  end.

(** [0x1F], [0o17], [0b101]: at least one digit after the prefix. *)
Definition radix_literal (s : string) : option Z :=
  match s with
  | String "0" (String c (String d r)) =>
      match radix_of c with
      | Some radix => radix_digits radix (String d r) 0
      | None => None
      end
  | _ => None
  end.

(** What follows the [e] of a decimal numeral: an optional sign and at
    least one digit, up to the end of the text. *)
Definition exponent_part (s : string) : option Z :=
  let '(neg, t) :=
    match s with
    | String "+" t => (false, t)
    | String "-" t => (true, t)
    | _ => (false, s)
    end in
  let '(v, n, rest) := read_digits t 0 0 in
  match rest with
  | EmptyString => if 0 <? n then Some (if neg then - v else v) else None
  | _ => None
  end.

(** An unsigned decimal numeral as [(m, e)], standing for [m * 10^e]:
    digits, an optional point and more digits (at least one digit in
    all), an optional exponent. *)
Definition decimal_literal (s : string) : option (Z * Z) :=
  let '(ip, ni, r1) := read_digits s 0 0 in
  let '(m, nf, r2) :=
    match r1 with
    | String "." t => read_digits t ip 0
    | _ => (ip, 0, r1)
    end in
  if 0 <? ni + nf then
    match r2 with
    | EmptyString => Some (m, - nf)
    | String c t =>
        match c with
        | "e"%char | "E"%char =>
            match exponent_part t with
            | Some e => Some (m, e - nf)
            | None => None
            end
        | _ => None
        end
    end
  else None.

(** The double nearest to [p / q], for [0 <= p] and [0 < q]. *)
Definition ratio (p q : Z) : num :=
  match p with
  | Z0 => zero
  | _ =>
      SF2Prim
        (let '(mz, ez, lz) := SFdiv_core_binary prec emax p 0 q 0 in
         binary_round_aux prec emax false mz ez lz)
  end.

(** The double nearest to [m * 10^e], for [0 <= m]. *)
Definition of_decimal (m e : Z) : num :=
  if 0 <=? e then Fin (m * 10 ^ e) else ratio m (10 ^ (- e)).

Definition unsigned_literal (s : string) : num :=
  if String.eqb s "Infinity" then infinity
  else match decimal_literal s with
       | Some (m, e) => of_decimal m e
       | None => NaN
       end.

Definition StringToNumber (s : string) : num :=
  match trim_right (trim_left s) with
  | EmptyString => zero
  | t =>
      match radix_literal t with
      | Some n => Fin n
      | None =>
          match t with
          | String "+" r => unsigned_literal r
          | String "-" r => PrimFloat.opp (unsigned_literal r)
          | _ => unsigned_literal t
          end
      end
  end.

(** [Number(v)]. *)
Definition Number (v : value) : num :=
  match v with
  | Undefined => NaN
  | Null => zero
  | Num n => n
  | Str s => StringToNumber s
  end.

(** [v == null] (loose): true of [null] and [undefined] only. *)
Definition is_nullish (v : value) : bool :=
  match v with
  | Undefined | Null => true
  | _ => false
  end.

(** [a === b].  [NaN] is not equal to itself, and the two zeros are
    equal. *)
Definition strict_eq (a b : value) : bool :=
  match a, b with
  | Undefined, Undefined => true
  | Null, Null => true
  | Num x, Num y => PrimFloat.eqb x y
  | Str s, Str t => String.eqb s t
  | _, _ => false
  end.

(** [a ?? b]. *)
Definition coalesce (a b : value) : value :=
  if is_nullish a then b else a.

(** [String(n)] for an integer, as the years are. *)
Definition ToString (z : Z) : string :=
  NilZero.string_of_int (Z.to_int z).

(** [arr.sort(cmp)]: the sort is stable and an element [a] goes after
    [b] exactly when [cmp(a, b) > 0].  For a consistent comparator every
    stable sort returns the same array, here computed by insertion. *)
Section Sort.
Context {A : Type} (cmp : A -> A -> Z).

Fixpoint insert (x : A) (l : list A) : list A :=
  match l with
  | [] => [x]
  | y :: l' => if cmp x y <=? 0 then x :: l else y :: insert x l'
  end.

Fixpoint sort (l : list A) : list A :=
  match l with
  | [] => []
  | x :: l' => insert x (sort l')
  end.
End Sort.

(** The comparator of [arr.sort()] without argument: elements are
    compared as strings, by code unit. *)
Definition default_compare (a b : Z) : Z :=
  if String.ltb (ToString a) (ToString b) then -1
  else if String.ltb (ToString b) (ToString a) then 1
  else 0.

(** [[...new Set(l)]]: duplicates dropped, first occurrences kept in
    order. *)
Fixpoint Set_of (seen : list Z) (l : list Z) : list Z :=
  match l with
  | [] => []
  | y :: l' =>
      if existsb (Z.eqb y) seen then Set_of seen l'
      else y :: Set_of (y :: seen) l'
  end.

(** [arr.slice(-2)]. *)
Definition slice_last2 {A : Type} (l : list A) : list A :=
  skipn (List.length l - 2)%nat l.

(** [arr[arr.length - 1]]. *)
Definition last_elem {A : Type} (l : list A) : option A :=
  nth_error l (List.length l - 1)%nat.

End JS.

Import JS.

(* ================================================================== *)
(** * Data model *)
(* ================================================================== *)

(** One record per period.  [year] and [month] are the integers chosen
    in the form's two selects ([Fin] gives them as doubles, [ToString]
    as texts); the six measurement fields are doubles (the mutators
    store [Number(x) || 0], [Number(override)] or the result of
    [calcConsumption]). *)
Record record : Type := mkRecord {
  id : string;
  year : Z;
  month : Z;
  householdState : num;
  householdConsumption : num;
  carState : num;
  carConsumption : num;
  bojlerConsumption : num;
  totalConsumption : num
}.

(** The form data handed to [addRecord] and [updateRecord] (see [BLANK]
    in the source): the state and bojler fields carry the text of their
    input, the overrides are [null] unless a value was typed. *)
Module Fd.
Record t : Type := make {
  year : Z;
  month : Z;
  householdState : value;
  householdConsumptionOverride : value;
  carState : value;
  carConsumptionOverride : value;
  bojlerConsumption : value
}.
End Fd.

(** [r[k]] for a property name known only at run time. *)
Definition prop (r : record) (k : string) : value :=
  if String.eqb k "id" then Str (id r)
  else if String.eqb k "year" then Num (Fin (year r))
  else if String.eqb k "month" then Num (Fin (month r))
  else if String.eqb k "householdState" then Num (householdState r)
  else if String.eqb k "householdConsumption" then Num (householdConsumption r)
  else if String.eqb k "carState" then Num (carState r)
  else if String.eqb k "carConsumption" then Num (carConsumption r)
  else if String.eqb k "bojlerConsumption" then Num (bojlerConsumption r)
  else if String.eqb k "totalConsumption" then Num (totalConsumption r)
  else Undefined.

(** Month names, as sequences of UTF-16 code units (Leden, Unor, Brezen,
    Duben, Kveten, Cerven, Cervenec, Srpen, Zari, Rijen, Listopad,
    Prosinec, with their diacritics). *)
Definition MONTHS_CZ : list (list N) := [
  [76; 101; 100; 101; 110];
  [218; 110; 111; 114];
  [66; 345; 101; 122; 101; 110];
  [68; 117; 98; 101; 110];
  [75; 118; 283; 116; 101; 110];
  [268; 101; 114; 118; 101; 110];
  [268; 101; 114; 118; 101; 110; 101; 99];
  [83; 114; 112; 101; 110];
  [90; 225; 345; 237];
  [344; 237; 106; 101; 110];
  [76; 105; 115; 116; 111; 112; 97; 100];
  [80; 114; 111; 115; 105; 110; 101; 99]
]%N.

Definition YEARS : list Z := [2023; 2024; 2025; 2026; 2027; 2028; 2029; 2030].

(* ================================================================== *)
(** * Calculation helpers *)
(* ================================================================== *)

(** The comparator [(a, b) => a.year !== b.year ? a.year - b.year
    : a.month - b.month]. *)
Definition by_period (a b : record) : Z :=
  if negb (year a =? year b) then year a - year b else month a - month b.

(** [r.year < year || (r.year === year && r.month < month)]. *)
Definition before (y m : Z) (r : record) : bool :=
  (year r <? y) || ((year r =? y) && (month r <? m)).

(** [r.id !== excludeId]. *)
Definition not_excluded (excludeId : value) (r : record) : bool :=
  negb (strict_eq (Str (id r)) excludeId).

Definition getPreviousReading (records : list record) (y m : Z)
    (stateField : string) (excludeId : value) : value :=
  let sorted := sort by_period (filter (not_excluded excludeId) records) in
  let prev := filter (before y m) sorted in
  match last_elem prev with
  | Some r => prop r stateField
  | None => Null
  end.

Definition calcConsumption (currentState prevState : value) : num :=
  if is_nullish prevState || is_nullish currentState
     || strict_eq currentState (Str "")
  then Fin 0
  else Math_max (Fin 0) (sub (Number currentState) (Number prevState)).

(* ================================================================== *)
(** * The data store *)
(* ================================================================== *)

(** [override != null ? Number(override) : calcConsumption(state, prev)],
    the expression every mutator uses for both consumption fields. *)
Definition consumption (override state prev : value) : num :=
  if negb (is_nullish override) then Number override
  else calcConsumption state prev.

(** [records.find(r => r.year === year && r.month === month)]. *)
Definition find_period (y m : Z) (records : list record) : option record :=
  find (fun r => (year r =? y) && (month r =? m)) records.

(** [records.find(r => r.id === i)]. *)
Definition find_id (i : string) (records : list record) : option record :=
  find (fun r => String.eqb (id r) i) records.

(** What [addRecord] returns: [{ record, merged: true }] on the merge
    path, the new record itself on the insert path. *)
Inductive outcome : Type :=
| Merged : option record -> outcome
| Inserted : record -> outcome.

(** [res?.merged], as [handleSave] reads it. *)
Definition merged (o : outcome) : bool :=
  match o with
  | Merged _ => true
  | Inserted _ => false
  end.

Definition outcome_record (o : outcome) : option record :=
  match o with
  | Merged r => r
  | Inserted r => Some r
  end.

(** [addRecord(fd)].  [newId] is the value [genId()] returns; the first
    component of the result is the list passed to [setRecords] and
    [persist].  The form keeps numbers in [fd.year] and [fd.month], so
    [Number(fd.year)] and [Number(fd.month)] are those numbers. *)
Definition addRecord (records : list record) (fd : Fd.t) (newId : string)
    : list record * outcome :=
  let y := Fd.year fd in
  let m := Fd.month fd in
  match find_period y m records with
  | Some existing =>
      let hState :=
        if negb (strict_eq (Fd.householdState fd) (Str ""))
        then Fd.householdState fd else Num (householdState existing) in
      let cState :=
        if negb (strict_eq (Fd.carState fd) (Str ""))
        then Fd.carState fd else Num (carState existing) in
      let bojler :=
        if negb (strict_eq (Fd.bojlerConsumption fd) (Str ""))
        then Fd.bojlerConsumption fd else Num (bojlerConsumption existing) in
      let prevH :=
        getPreviousReading records y m "householdState" (Str (id existing)) in
      let prevC :=
        getPreviousReading records y m "carState" (Str (id existing)) in
      let hC := consumption (Fd.householdConsumptionOverride fd) hState prevH in
      let cC := consumption (Fd.carConsumptionOverride fd) cState prevC in
      let updated :=
        map (fun r =>
               if negb (String.eqb (id r) (id existing)) then r
               else {| id := id r; year := year r; month := month r;
                       householdState := or_zero (Number hState);
                       householdConsumption := hC;
                       carState := or_zero (Number cState);
                       carConsumption := cC;
                       bojlerConsumption := or_zero (Number bojler);
                       totalConsumption := add hC cC |})
            records in
      (updated, Merged (find_id (id existing) updated))
  | None =>
      let prevH := getPreviousReading records y m "householdState" Null in
      let prevC := getPreviousReading records y m "carState" Null in
      let hC := consumption (Fd.householdConsumptionOverride fd)
                            (Fd.householdState fd) prevH in
      let cC := consumption (Fd.carConsumptionOverride fd)
                            (Fd.carState fd) prevC in
      let rec :=
        {| id := newId; year := y; month := m;
           householdState := or_zero (Number (Fd.householdState fd));
           householdConsumption := hC;
           carState := or_zero (Number (Fd.carState fd));
           carConsumption := cC;
           bojlerConsumption := or_zero (Number (Fd.bojlerConsumption fd));
           totalConsumption := add hC cC |} in
      (records ++ [rec], Inserted rec)
  end.

(** [updateRecord(id, fd)]; returns the list passed to [setRecords]. *)
Definition updateRecord (records : list record) (i : string) (fd : Fd.t)
    : list record :=
  let prevH :=
    getPreviousReading records (Fd.year fd) (Fd.month fd) "householdState" (Str i) in
  let prevC :=
    getPreviousReading records (Fd.year fd) (Fd.month fd) "carState" (Str i) in
  let hC := consumption (Fd.householdConsumptionOverride fd)
                        (Fd.householdState fd) prevH in
  let cC := consumption (Fd.carConsumptionOverride fd)
                        (Fd.carState fd) prevC in
  map (fun r =>
         if negb (String.eqb (id r) i) then r
         else {| id := id r; year := Fd.year fd; month := Fd.month fd;
                 householdState := or_zero (Number (Fd.householdState fd));
                 householdConsumption := hC;
                 carState := or_zero (Number (Fd.carState fd));
                 carConsumption := cC;
                 bojlerConsumption := or_zero (Number (Fd.bojlerConsumption fd));
                 totalConsumption := add hC cC |})
      records.

(** [deleteRecord(id)]. *)
Definition deleteRecord (records : list record) (i : string) : list record :=
  filter (fun r => negb (String.eqb (id r) i)) records.

(** [importData(data)]: the document becomes the record set as it is. *)
Definition importData (records : list record) (data : list record)
    : list record :=
  data.

(* ================================================================== *)
(** * Chart data *)
(* ================================================================== *)

(** A row of [prepareMonthly]: the [month] label and, for every year of
    the comparison, the property [String(y)]. *)
Record row : Type := mkRow {
  row_month : list N;
  row_cells : list (string * value)
}.

(** [[...new Set(records.map(r => r.year))].sort().slice(-2)]. *)
Definition comparison_years (records : list record) : list Z :=
  slice_last2 (sort default_compare (Set_of [] (map year records))).

(** The callback [(name, i) => { ... return row; }] of [MONTHS_CZ.map]. *)
Definition month_row (records : list record) (field : string)
    (years : list Z) (name : list N) (i : nat) : row :=
  {| row_month := firstn 3 name;
     row_cells :=
       map (fun y =>
              let f := find_period y (Z.of_nat i + 1) records in
              (ToString y,
               match f with
               | Some f => coalesce (prop f field) (Num (Fin 0))
               | None => Undefined
               end))
           years |}.

Definition prepareMonthly (records : list record) (field : string)
    : list row :=
  let years := comparison_years records in
  map (fun '(i, name) => month_row records field years name i)
      (combine (seq 0 (List.length MONTHS_CZ)) MONTHS_CZ).

(* ================================================================== *)
(** * The object literals of the mutators, named *)
(* ================================================================== *)

(** The callback [r => r.id !== i ? r : g(r)] that [addRecord] and
    [updateRecord] map over the records. *)
Definition unless_id (i : string) (g : record -> record) (r : record)
    : record :=
  if negb (String.eqb (id r) i) then r else g r.

(** The value [addRecord] keeps for a merge-optional field:
    [incoming !== "" ? incoming : current]. *)
Definition provided_or (incoming : value) (current : num) : value :=
  if negb (strict_eq incoming (Str "")) then incoming else Num current.

(** [{ ...r, householdState: ..., totalConsumption: hC + cC }] of the
    merge path of [addRecord], for the record [existing] found for the
    period of [fd]. *)
Definition merge_literal (records : list record) (fd : Fd.t)
    (existing r : record) : record :=
  let hState := provided_or (Fd.householdState fd) (householdState existing) in
  let cState := provided_or (Fd.carState fd) (carState existing) in
  let bojler :=
    provided_or (Fd.bojlerConsumption fd) (bojlerConsumption existing) in
  let prevH :=
    getPreviousReading records (Fd.year fd) (Fd.month fd)
                       "householdState" (Str (id existing)) in
  let prevC :=
    getPreviousReading records (Fd.year fd) (Fd.month fd)
                       "carState" (Str (id existing)) in
  let hC := consumption (Fd.householdConsumptionOverride fd) hState prevH in
  let cC := consumption (Fd.carConsumptionOverride fd) cState prevC in
  {| id := id r; year := year r; month := month r;
     householdState := or_zero (Number hState);
     householdConsumption := hC;
     carState := or_zero (Number cState);
     carConsumption := cC;
     bojlerConsumption := or_zero (Number bojler);
     totalConsumption := add hC cC |}.

(** The record literal of the insert path of [addRecord]. *)
Definition insert_literal (records : list record) (fd : Fd.t)
    (newId : string) : record :=
  let prevH :=
    getPreviousReading records (Fd.year fd) (Fd.month fd)
                       "householdState" Null in
  let prevC :=
    getPreviousReading records (Fd.year fd) (Fd.month fd) "carState" Null in
  let hC := consumption (Fd.householdConsumptionOverride fd)
                        (Fd.householdState fd) prevH in
  let cC := consumption (Fd.carConsumptionOverride fd)
                        (Fd.carState fd) prevC in
  {| id := newId; year := Fd.year fd; month := Fd.month fd;
     householdState := or_zero (Number (Fd.householdState fd));
     householdConsumption := hC;
     carState := or_zero (Number (Fd.carState fd));
     carConsumption := cC;
     bojlerConsumption := or_zero (Number (Fd.bojlerConsumption fd));
     totalConsumption := add hC cC |}.

(** The object literal of [updateRecord]. *)
Definition update_literal (records : list record) (i : string) (fd : Fd.t)
    (r : record) : record :=
  let prevH :=
    getPreviousReading records (Fd.year fd) (Fd.month fd)
                       "householdState" (Str i) in
  let prevC :=
    getPreviousReading records (Fd.year fd) (Fd.month fd)
                       "carState" (Str i) in
  let hC := consumption (Fd.householdConsumptionOverride fd)
                        (Fd.householdState fd) prevH in
  let cC := consumption (Fd.carConsumptionOverride fd)
                        (Fd.carState fd) prevC in
  {| id := id r; year := Fd.year fd; month := Fd.month fd;
     householdState := or_zero (Number (Fd.householdState fd));
     householdConsumption := hC;
     carState := or_zero (Number (Fd.carState fd));
     carConsumption := cC;
     bojlerConsumption := or_zero (Number (Fd.bojlerConsumption fd));
     totalConsumption := add hC cC |}.

(* ================================================================== *)
(** * Vocabulary of the specification *)
(* ================================================================== *)

(** The period of [r] lies strictly before [(y, m)]. *)
Definition strictly_before (y m : Z) (r : record) : Prop :=
  year r < y \/ (year r = y /\ month r < m).

(** Chronological order on records: by year, then by month. *)
Definition period_le (a b : record) : Prop :=
  year a < year b \/ (year a = year b /\ month a <= month b).

(** The periods of a record set, in list order. *)
Definition periods (records : list record) : list (Z * Z) :=
  map (fun r => (year r, month r)) records.

(** The invariant on the total of a record. *)
Definition total_ok (r : record) : Prop :=
  totalConsumption r = add (householdConsumption r) (carConsumption r).

(** Input that is not a number: the empty text, or anything [Number]
    maps to [NaN]. *)
Definition invalid_number (v : value) : Prop :=
  v = Str "" \/ Number v = NaN.

(** A number that is not below zero ([NaN] is not such a number). *)
Definition not_negative (x : num) : Prop := PrimFloat.leb zero x = true.

(** The cumulative readings of a record are non-negative numbers. *)
Definition readings_ok (r : record) : Prop :=
  not_negative (householdState r) /\ not_negative (carState r).

(** A number other than [NaN] and the infinities. *)
Definition finite (x : num) : Prop := is_finite x = true.

(** An integer that is a double together with its neighbours, as
    [Number.isSafeInteger] has it. *)
Definition safe_integer (z : Z) : Prop := - 2 ^ 53 < z < 2 ^ 53.

(** A year written with four digits, as all of [YEARS] are. *)
Definition four_digit (y : Z) : Prop := 1000 <= y <= 9999.

(** The decimal digit [d] as a character, and the four characters of a
    four-digit number. *)
Definition digit_char (d : Z) : ascii := ascii_of_N (Z.to_N (48 + d)).

Definition four_chars (z : Z) : string :=
  String (digit_char (z / 1000))
    (String (digit_char (z / 100 mod 10))
       (String (digit_char (z / 10 mod 10))
          (String (digit_char (z mod 10)) ""))).

(** The cell of the row for month [m] under year [y]: [undefined] when
    no record has that period. *)
Definition cell_of (records : list record) (field : string) (y m : Z)
    : value :=
  match find_period y m records with
  | Some f => coalesce (prop f field) (Num (Fin 0))
  | None => Undefined
  end.

(** A run of submissions, each with the id [genId()] would hand out. *)
Definition submit_all (subs : list (Fd.t * string)) (records : list record)
    : list record :=
  fold_left (fun recs s => fst (addRecord recs (fst s) (snd s))) subs records.

(* ================================================================== *)
(** * Sample data: the scenarios of the specification *)
(* ================================================================== *)

Definition jan : record :=
  mkRecord "a" 2024 1 (Fin 100) (Fin 0) (Fin 0) (Fin 0) (Fin 0) (Fin 0).

Definition feb : record :=
  mkRecord "b" 2024 2 (Fin 150) (Fin 50) (Fin 0) (Fin 0) (Fin 40) (Fin 50).

(** A form with only the household state filled in. *)
Definition household_only (y m : Z) (state : string) : Fd.t :=
  Fd.make y m (Str state) Null (Str "") Null (Str "").

(** Scenario D: an override next to a state. *)
Definition with_override : Fd.t :=
  Fd.make 2024 3 (Str "999") (Str "25") (Str "") Null (Str "").

(** A form whose household state is not numeric. *)
Definition garbled_state : Fd.t :=
  Fd.make 2024 2 (Str "abc") Null (Str "") Null (Str "").

(** A document whose total disagrees with its two consumptions. *)
Definition odd_total : record :=
  mkRecord "z" 2024 1 (Fin 100) (Fin 1) (Fin 0) (Fin 2) (Fin 0) (Fin 99).

(** January with a household reading below zero. *)
Definition below_zero : record :=
  mkRecord "a" 2024 1 (Fin (-5)) (Fin 0) (Fin 0) (Fin 0) (Fin 0) (Fin 0).

(** A form with only the bojler consumption filled in. *)
Definition bojler_only (y m : Z) (kWh : string) : Fd.t :=
  Fd.make y m (Str "") Null (Str "") Null (Str kWh).

(** Records of 2023 and 2024, one of them with a consumption of zero. *)
Definition two_years : list record :=
  [ mkRecord "p" 2023 5 (Fin 70) (Fin 0) (Fin 0) (Fin 0) (Fin 0) (Fin 0);
    jan; feb ].

(** Records whose years are not all written with four digits. *)
Definition mixed_widths : list record :=
  [ mkRecord "x" 999 1 (Fin 1) (Fin 0) (Fin 0) (Fin 0) (Fin 0) (Fin 0);
    mkRecord "y" 1000 1 (Fin 2) (Fin 1) (Fin 0) (Fin 0) (Fin 0) (Fin 1);
    jan ].

(** March, February and January of 2024, stored in that order, with
    consumptions [0.1], [0.2] and [0.3]. *)
Definition backwards : list record :=
  [ mkRecord "m" 2024 3 (Fin 3) (Number (Str "0.1")) (Fin 0) (Fin 0) (Fin 0)
             (Number (Str "0.1"));
    mkRecord "f" 2024 2 (Fin 2) (Number (Str "0.2")) (Fin 0) (Fin 0) (Fin 0)
             (Number (Str "0.2"));
    mkRecord "j" 2024 1 (Fin 1) (Number (Str "0.3")) (Fin 0) (Fin 0) (Fin 0)
             (Number (Str "0.3")) ].

(** Two rows whose totals are the sums of their consumptions:
    [0.1 + 0.1] and [0.2 + 0.3]. *)
Definition tenths : list record :=
  [ mkRecord "j" 2024 1 (Fin 1) (Number (Str "0.1")) (Fin 1)
             (Number (Str "0.1")) (Fin 0)
             (add (Number (Str "0.1")) (Number (Str "0.1")));
    mkRecord "f" 2024 2 (Fin 2) (Number (Str "0.2")) (Fin 2)
             (Number (Str "0.3")) (Fin 0)
             (add (Number (Str "0.2")) (Number (Str "0.3"))) ].

(** A form moving a record to February 2024. *)
Definition to_february : Fd.t :=
  Fd.make 2024 2 (Str "100") Null (Str "") Null (Str "").

(* ================================================================== *)
(** * The views and the form around the store *)
(* ================================================================== *)

(** A value in a condition: [undefined], [null], [NaN], [0] and the
    empty text are falsy. *)
Definition truthy (v : value) : bool :=
  match v with
  | Undefined | Null => false
  | Num x => negb (falsy x)
  | Str s => negb (String.eqb s "")
  end.

(** What [sort] reads off a comparator's result: its sign, [NaN]
    counting as [0]. *)
Definition comparator_result (v : num) : Z :=
  if PrimFloat.ltb zero v then 1
  else if PrimFloat.ltb v zero then -1
  else 0.

(** [sortAsc]: a sorted copy, ascending by year then month. *)
Definition sortAsc (recs : list record) : list record :=
  sort by_period recs.

(** [arr.reduce((s, r) => s + (r[field] || 0), 0)], the sums of
    [DataTable]. *)
Definition sum_or_zero (field : record -> num) (l : list record) : num :=
  fold_left (fun s r => add s (or_zero (field r))) l (Fin 0).

Module DataTable.

(** [[...new Set(records.map(r => r.year))].sort((a, b) => a - b)]. *)
Definition allYears (records : list record) : list Z :=
  sort (fun a b => a - b) (Set_of [] (map year records)).

(** The rows of the table; [activeYear] is [null] ([None]) for all
    years. *)
Definition filtered (records : list record) (activeYear : option Z)
    : list record :=
  match activeYear with
  | None => sortAsc records
  | Some y => sortAsc (filter (fun r => year r =? y) records)
  end.

Definition totH (filtered : list record) : num :=
  sum_or_zero householdConsumption filtered.

Definition totC (filtered : list record) : num :=
  sum_or_zero carConsumption filtered.

Definition totB (filtered : list record) : num :=
  sum_or_zero bojlerConsumption filtered.

Definition totT (filtered : list record) : num :=
  sum_or_zero totalConsumption filtered.

End DataTable.

(** The entries of [prepareAnnualData]. *)
Module Annual.
Record t : Type := make {
  year : string;
  household : num;
  car : num;
  bojler : num
}.
End Annual.

(** The object [map] of [prepareAnnualData], as its properties in
    insertion order; the key [k] stands for the property name
    [String(k)] (distinct numbers have distinct names). *)
Definition annual_map : Type := list (Z * Annual.t).

(** One round of the [forEach] of [prepareAnnualData]: the entry of the
    record's year is created when [map[r.year]] is missing, then the
    three sums grow by [r.householdConsumption || 0] and so on. *)
Definition annual_step (m : annual_map) (r : record) : annual_map :=
  let k := year r in
  let m1 :=
    if existsb (fun e => fst e =? k) m then m
    else m ++ [(k, {| Annual.year := ToString k; Annual.household := Fin 0;
                      Annual.car := Fin 0; Annual.bojler := Fin 0 |})] in
  map (fun e =>
         if fst e =? k
         then (fst e,
               {| Annual.year := Annual.year (snd e);
                  Annual.household :=
                    add (Annual.household (snd e))
                        (or_zero (householdConsumption r));
                  Annual.car :=
                    add (Annual.car (snd e)) (or_zero (carConsumption r));
                  Annual.bojler :=
                    add (Annual.bojler (snd e))
                        (or_zero (bojlerConsumption r)) |})
         else e)
      m1.

(** A property name [String(k)] is an array index when
    [0 <= k < 2^32 - 1]. *)
Definition is_array_index (k : Z) : bool :=
  (0 <=? k) && (k <=? 4294967294).

(** [Object.values(map)]: the array indices in ascending order, then
    the other properties in insertion order. *)
Definition Object_values {A : Type} (m : list (Z * A)) : list A :=
  map snd
    (sort (fun a b => fst a - fst b)
          (filter (fun e => is_array_index (fst e)) m)
     ++ filter (fun e => negb (is_array_index (fst e))) m).

(** The comparator [(a, b) => Number(a.year) - Number(b.year)]. *)
Definition by_year_text (a b : Annual.t) : Z :=
  comparator_result
    (sub (Number (Str (Annual.year a))) (Number (Str (Annual.year b)))).

Definition prepareAnnualData (records : list record) : list Annual.t :=
  let m := fold_left annual_step records [] in
  sort by_year_text (Object_values m).

Module ChartsView.

(** [[...new Set(records.map(r => r.year))].sort().slice(-2).map(String)],
    the data keys of the lines. *)
Definition years2 (records : list record) : list string :=
  map ToString (comparison_years records).

End ChartsView.

(** The state of [App]: the store's records and the record being
    edited, if any. *)
Module App.
Record state : Type := make {
  records : list record;
  editRecord : option record
}.

(** [handleSave(fd)] of [App]: the second component is [res.merged]
    as the form reads it ([{}] after an update). *)
Definition handleSave (st : state) (fd : Fd.t) (newId : string)
    : state * bool :=
  match editRecord st with
  | Some e =>
      ({| records := updateRecord (records st) (id e) fd;
          editRecord := None |}, false)
  | None =>
      let r := addRecord (records st) fd newId in
      ({| records := fst r; editRecord := None |}, merged (snd r))
  end.
End App.

Module InputForm.

(** What the save button shows afterwards. *)
Inductive saved : Type :=
| SavedMerged : saved
| SavedPlain : saved.

(** [editRecord?.id] handed to [getPreviousReading]: without a record
    being edited the argument is [undefined] and the default [null]
    applies. *)
Definition excluded (editRecord : option record) : value :=
  match editRecord with
  | Some e => Str (id e)
  | None => Null
  end.

(** The form filled from the record to edit. *)
Definition edit_form (r : record) : Fd.t :=
  {| Fd.year := year r; Fd.month := month r;
     Fd.householdState := Num (householdState r);
     Fd.householdConsumptionOverride := Null;
     Fd.carState := Num (carState r);
     Fd.carConsumptionOverride := Null;
     Fd.bojlerConsumption := Num (bojlerConsumption r) |}.

(** The preview computed by the second effect. *)
Record preview_t : Type := mkPreview {
  prevH : value;
  prevC : value;
  household : num;
  car : num
}.

Definition preview (records : list record) (form : Fd.t)
    (editRecord : option record) : preview_t :=
  let pH := getPreviousReading records (Fd.year form) (Fd.month form)
                               "householdState" (excluded editRecord) in
  let pC := getPreviousReading records (Fd.year form) (Fd.month form)
                               "carState" (excluded editRecord) in
  {| prevH := pH; prevC := pC;
     household := consumption (Fd.householdConsumptionOverride form)
                              (Fd.householdState form) pH;
     car := consumption (Fd.carConsumptionOverride form)
                        (Fd.carState form) pC |}.

(** [!editRecord && records.some(r => r.year === form.year
    && r.month === form.month)]. *)
Definition isMerge (records : list record) (form : Fd.t)
    (editRecord : option record) : bool :=
  match editRecord with
  | Some _ => false
  | None =>
      existsb (fun r => (year r =? Fd.year form) && (month r =? Fd.month form))
              records
  end.

(** [handleSave] of the form: nothing happens when the three inputs
    are all falsy; otherwise [onSave(form)] runs and [saved] is set. *)
Definition handleSave (st : App.state) (form : Fd.t) (newId : string)
    : App.state * option saved :=
  if negb (truthy (Fd.householdState form))
     && negb (truthy (Fd.carState form))
     && negb (truthy (Fd.bojlerConsumption form))
  then (st, None)
  else
    let res := App.handleSave st form newId in
    (fst res, Some (if snd res then SavedMerged else SavedPlain)).

End InputForm.

(** Strictly earlier period. *)
Definition period_lt (a b : record) : Prop :=
  year a < year b \/ (year a = year b /\ month a < month b).

(** The period of a form. *)
Definition form_period (fd : Fd.t) : Z * Z := (Fd.year fd, Fd.month fd).

(** An override that is switched off. *)
Definition no_override (v : value) : Prop := v = Null \/ v = Undefined.

(** The record [r] as a save of its own values writes it: states and
    bojler through [x || 0], both consumptions derived afresh from the
    states and the readings before its period. *)
Definition rederived (records : list record) (r : record) : record :=
  let hC :=
    calcConsumption (Num (householdState r))
      (getPreviousReading records (year r) (month r)
                          "householdState" (Str (id r))) in
  let cC :=
    calcConsumption (Num (carState r))
      (getPreviousReading records (year r) (month r)
                          "carState" (Str (id r))) in
  {| id := id r; year := year r; month := month r;
     householdState := or_zero (householdState r);
     householdConsumption := hC;
     carState := or_zero (carState r); carConsumption := cC;
     bojlerConsumption := or_zero (bojlerConsumption r);
     totalConsumption := add hC cC |}.

(** The three inputs of the form that the save button looks at. *)
Definition some_input (form : Fd.t) : bool :=
  truthy (Fd.householdState form) || truthy (Fd.carState form)
  || truthy (Fd.bojlerConsumption form).

(** A record holding only a consumption entered by hand. *)
Definition consumption_only : record :=
  mkRecord "c" 2024 1 (Fin 0) (Fin 30) (Fin 0) (Fin 0) (Fin 0) (Fin 30).

(** A form in which only an override is filled in. *)
Definition override_only : Fd.t :=
  Fd.make 2024 3 (Str "") (Str "25") (Str "") Null (Str "").

(** February stored with a manual consumption of 25. *)
Definition feb_overridden : record :=
  mkRecord "b" 2024 2 (Fin 150) (Fin 25) (Fin 0) (Fin 0) (Fin 40) (Fin 25).

Definition Zsum (l : list Z) : Z := fold_right Z.add 0 l.

(** The field [f] of every row is a whole number not below zero, the
    number [g] of the row, and these numbers add up to less than
    2^53. *)
Definition whole_by (g : record -> Z) (f : record -> num)
    (rows : list record) : Prop :=
  (forall r, In r rows -> f r = Fin (g r) /\ 0 <= g r)
  /\ Zsum (map g rows) < 2 ^ 53.

(** The records of year [y], in storage order. *)
Definition of_year (y : Z) (records : list record) : list record :=
  filter (fun r => year r =? y) records.

(** The entry of the annual chart for year [y]: the three sums run
    over the records of that year in storage order. *)
Definition annual_of (records : list record) (y : Z) : Annual.t :=
  {| Annual.year := ToString y;
     Annual.household := sum_or_zero householdConsumption (of_year y records);
     Annual.car := sum_or_zero carConsumption (of_year y records);
     Annual.bojler := sum_or_zero bojlerConsumption (of_year y records) |}.

(** Every entry of the annual chart shows the sums that the table
    shows when the entry's year is selected. *)
Definition views_agree (records : list record) : Prop :=
  forall a, In a (prepareAnnualData records) ->
    exists y,
      In y (DataTable.allYears records)
      /\ Annual.year a = ToString y
      /\ Annual.household a
         = DataTable.totH (DataTable.filtered records (Some y))
      /\ Annual.car a
         = DataTable.totC (DataTable.filtered records (Some y))
      /\ Annual.bojler a
         = DataTable.totB (DataTable.filtered records (Some y)).

(** Household consumption 0 in January, 50 in February. *)
Definition household_kWh (r : record) : Z :=
  if String.eqb (id r) "b" then 50 else 0.

(** Chronological order on periods. *)
Definition earlier (p q : Z * Z) : Prop :=
  fst p < fst q \/ (fst p = fst q /\ snd p < snd q).

(** The form [fd] enters the household reading [s], a number above
    zero, without override. *)
Definition enters_reading (fd : Fd.t) (s : num) : Prop :=
  Number (Fd.householdState fd) = s
  /\ PrimFloat.ltb zero s = true
  /\ Fd.householdState fd <> Str ""
  /\ Fd.householdState fd <> Null
  /\ Fd.householdState fd <> Undefined
  /\ no_override (Fd.householdConsumptionOverride fd).

(** The consumptions of a run of readings: [0] for the first, then
    [Math.max(0, reading - previous reading)]. *)
Fixpoint differences (prev : option num) (l : list num) : list num :=
  match l with
  | [] => []
  | s :: l' =>
      match prev with
      | None => Fin 0
      | Some p => Math_max (Fin 0) (sub s p)
      end :: differences (Some s) l'
  end.

(** The same on whole numbers. *)
Fixpoint steps (prev : option Z) (l : list Z) : list Z :=
  match l with
  | [] => []
  | z :: l' =>
      match prev with
      | None => 0
      | Some p => Z.max 0 (z - p)
      end :: steps (Some z) l'
  end.

(** What the calculator's clamp means for a stored consumption [c]
    derived from [state] against the previous reading [prev]: [c] is
    not below zero, and it is [0] when the reading is not above the
    previous one. *)
Definition clamped (c : num) (state prev : value) : Prop :=
  PrimFloat.ltb c zero = false
  /\ forall p, prev = Num p ->
                finite (Number state) -> finite p ->
                PrimFloat.leb (Number state) p = true -> c = Fin 0.

(** The submission of scenario C as the specification writes it: an
    object with the period and the household state, and no other
    property. *)
Definition household_literal : Fd.t :=
  Fd.make 2024 2 (Num (Fin 180)) Undefined Undefined Undefined Undefined.

(** A form with states and override in decimal notation. *)
Definition decimal_form : Fd.t :=
  Fd.make 2024 3 (Str "150.5") (Str "25.5") (Str "2e2") Null (Str "0.75").

(** Three months entered one after the other. *)
Definition three_months : list (Fd.t * string) :=
  [ (household_only 2024 1 "100.5", "a");
    (household_only 2024 2 "150", "b");
    (household_only 2024 3 "180.25", "c") ].

(* ================================================================== *)
(** * Vocabulary for doubles *)
(* ================================================================== *)

(** The mantissa of a finite number brought to the exponent [ez], with
    its sign. *)
Definition aligned (s : bool) (m : positive) (e ez : Z) : Z :=
  cond_Zopp s (Z.pos (fst (shl_align m e ez))).

(** How a number that is not [NaN] compares with zero. *)
Inductive sign_of : spec_float -> comparison -> Prop :=
| sign_zero : forall s, sign_of (S754_zero s) Eq
| sign_neg_fin : forall m e, sign_of (S754_finite true m e) Lt
| sign_neg_inf : sign_of (S754_infinity true) Lt
| sign_pos_fin : forall m e, sign_of (S754_finite false m e) Gt
| sign_pos_inf : sign_of (S754_infinity false) Gt.

(** The representation of the double nearest to the integer [z]. *)
Definition whole_spec (z : Z) : spec_float :=
  binary_normalize prec emax z 0 false.

(** Zeros and finite numbers in canonical form. *)
Definition finite_spec (x : spec_float) : Prop :=
  match x with
  | S754_zero _ => True
  | S754_finite _ m e => bounded prec emax m e = true
  | _ => False
  end.

(* ================================================================== *)
(** * Facts about doubles *)
(* ================================================================== *)

(** ** Mantissas and their number of digits *)
Lemma digits2_size (p : positive) : digits2_pos p = Pos.size p.
Proof. induction p; simpl; congruence. Qed.

Lemma size_bounds (p : positive) :
  2 ^ (Z.pos (Pos.size p) - 1) <= Z.pos p < 2 ^ Z.pos (Pos.size p).
Proof.
  pose proof (Pos.size_gt p) as H1. pose proof (Pos.size_le p) as H2.
  apply Pos2Z.pos_lt_pos in H1. apply Pos2Z.pos_le_pos in H2.
  rewrite Pos2Z.inj_pow in H1, H2.
  replace (2 ^ Z.pos (Pos.size p)) with (2 * 2 ^ (Z.pos (Pos.size p) - 1)) in *.
  - lia.
  - rewrite <- Z.pow_succ_r by lia. f_equal. lia.
Qed.

Lemma iter_xO (m d : positive) : Z.pos (Pos.iter xO m d) = Z.pos m * 2 ^ Z.pos d.
Proof.
  induction d using Pos.peano_ind.
  - simpl. lia.
  - rewrite Pos.iter_succ, Pos2Z.inj_xO, IHd, Pos2Z.inj_succ, Z.pow_succ_r by lia. lia.
Qed.

(** ** Shifting a mantissa to the right *)
Lemma shr_1_m (mrs : shr_record) :
  0 <= shr_m mrs -> shr_m (shr_1 mrs) = Z.div2 (shr_m mrs).
Proof.
  destruct mrs as [m r s]. simpl. intros H.
  destruct m as [|p|p]; [reflexivity| |lia].
  destruct p; reflexivity.
Qed.

Lemma iter_shr_m (p : positive) : forall mrs,
  0 <= shr_m mrs ->
  shr_m (iter_pos shr_1 p mrs) = Z.shiftr (shr_m mrs) (Z.pos p).
Proof.
  induction p as [p IH|p IH|]; intros mrs H; simpl iter_pos.
  - assert (H1 : 0 <= shr_m (shr_1 mrs))
      by (rewrite shr_1_m by assumption; apply Z.div2_nonneg; assumption).
    assert (H2 : 0 <= shr_m (iter_pos shr_1 p (shr_1 mrs)))
      by (rewrite IH by assumption; apply Z.shiftr_nonneg; assumption).
    rewrite IH, IH, shr_1_m by assumption.
    rewrite Z.div2_spec, !Z.shiftr_shiftr by lia. f_equal. lia.
  - assert (H2 : 0 <= shr_m (iter_pos shr_1 p mrs))
      by (rewrite IH by assumption; apply Z.shiftr_nonneg; assumption).
    rewrite IH, IH by assumption.
    rewrite Z.shiftr_shiftr by lia. f_equal. lia.
  - rewrite shr_1_m by assumption. apply Z.div2_spec.
Qed.

Lemma shr_record_of_loc_m (m : Z) (l : location) : shr_m (shr_record_of_loc m l) = m.
Proof. destruct l as [|[]]; reflexivity. Qed.

Lemma Zdigits2_pos (p : positive) : Zdigits2 (Z.pos p) = Z.pos (Pos.size p).
Proof. simpl. now rewrite digits2_size. Qed.

Lemma shr_fexp_pos (m e : Z) (l : location) :
  0 < m -> SpecFloat.emin prec emax <= e ->
  0 < shr_m (fst (shr_fexp prec emax m e l))
  /\ e <= snd (shr_fexp prec emax m e l).
Proof.
  intros Hm He. unfold shr_fexp, shr.
  destruct m as [|p|p]; try lia.
  rewrite Zdigits2_pos.
  set (n := fexp prec emax (Z.pos (Pos.size p) + e) - e).
  assert (Hn : n <= Z.pos (Pos.size p) - 1).
  { unfold n, fexp, SpecFloat.emin, prec, emax in *. lia. }
  destruct n as [|q|q] eqn:En; simpl fst; simpl snd;
    rewrite ?shr_record_of_loc_m; try lia.
  rewrite iter_shr_m by (rewrite shr_record_of_loc_m; lia).
  rewrite shr_record_of_loc_m. split; [|lia].
  rewrite Z.shiftr_div_pow2 by lia.
  apply Z.div_str_pos. split; [lia|].
  pose proof (size_bounds p) as [Hb _].
  eapply Z.le_trans; [|exact Hb].
  apply Z.pow_le_mono_r; lia.
Qed.

Lemma round_nearest_even_ge (m : Z) (l : location) : m <= round_nearest_even m l.
Proof. destruct l as [|[]]; simpl; try lia. destruct (Z.even m); lia. Qed.

(** Rounding a positive mantissa at an exponent that is not below the
    least one gives a non-zero number of the same sign, or the infinity
    of that sign. *)
Lemma binary_round_aux_sign (s : bool) (m e : Z) (l : location) :
  0 < m -> SpecFloat.emin prec emax <= e ->
  (exists m' e', binary_round_aux prec emax s m e l = S754_finite s m' e')
  \/ binary_round_aux prec emax s m e l = S754_infinity s.
Proof.
  intros Hm He. unfold binary_round_aux.
  pose proof (shr_fexp_pos m e l Hm He) as [H1 H2].
  destruct (shr_fexp prec emax m e l) as [mrs' e'].
  simpl in H1, H2.
  pose proof (round_nearest_even_ge (shr_m mrs') (loc_of_shr_record mrs')) as H3.
  pose proof (shr_fexp_pos (round_nearest_even (shr_m mrs') (loc_of_shr_record mrs'))
                e' loc_Exact ltac:(lia) ltac:(lia)) as [H4 H5].
  destruct (shr_fexp prec emax _ e' loc_Exact) as [mrs'' e''].
  simpl in H4, H5.
  destruct (shr_m mrs'') as [|q|q]; try lia.
  destruct (e'' <=? emax - prec); eauto.
Qed.

Lemma binary_round_sign (s : bool) (m : positive) (e : Z) :
  SpecFloat.emin prec emax <= e ->
  (exists m' e', binary_round prec emax s m e = S754_finite s m' e')
  \/ binary_round prec emax s m e = S754_infinity s.
Proof.
  intros He. unfold binary_round.
  destruct (shl_align m e (fexp prec emax (Z.pos (digits2_pos m) + e))) as [mz ez] eqn:E.
  apply binary_round_aux_sign; [lia|].
  unfold shl_align in E.
  destruct (fexp prec emax (Z.pos (digits2_pos m) + e) - e) eqn:D;
    injection E as <- <-; try lia.
  unfold fexp, SpecFloat.emin, prec, emax in *. lia.
Qed.

(** ** Comparison and subtraction of finite numbers *)
Lemma shl_align_value (m : positive) (e ez : Z) :
  ez <= e -> Z.pos (fst (shl_align m e ez)) = Z.pos m * 2 ^ (e - ez).
Proof.
  intros H. unfold shl_align.
  destruct (ez - e) as [|d|d] eqn:D; simpl fst.
  - replace (e - ez) with 0 by lia. lia.
  - lia.
  - rewrite iter_xO. f_equal. f_equal. lia.
Qed.

Lemma bounded_facts (m : positive) (e : Z) :
  bounded prec emax m e = true ->
  SpecFloat.emin prec emax <= e
  /\ Z.pos (Pos.size m) <= prec
  /\ (SpecFloat.emin prec emax < e -> Z.pos (Pos.size m) = prec).
Proof.
  unfold bounded, canonical_mantissa. rewrite andb_true_iff, Z.eqb_eq, Z.leb_le.
  rewrite digits2_size. unfold fexp, SpecFloat.emin, prec, emax. lia.
Qed.

Lemma aligned_lt (m1 m2 : positive) (e1 e2 : Z) :
  bounded prec emax m1 e1 = true -> bounded prec emax m2 e2 = true ->
  e1 < e2 ->
  Z.pos (fst (shl_align m1 e1 e1)) < Z.pos (fst (shl_align m2 e2 e1)).
Proof.
  intros B1 B2 H.
  apply bounded_facts in B1, B2.
  rewrite !shl_align_value by lia.
  rewrite Z.sub_diag, Z.mul_1_r.
  destruct (size_bounds m1) as [_ U1]. destruct (size_bounds m2) as [L2 _].
  destruct B1 as (E1 & S1 & _), B2 as (E2 & S2 & F2).
  rewrite F2 in L2 by lia.
  assert (P1 : 2 ^ Z.pos (Pos.size m1) <= 2 ^ prec) by (apply Z.pow_le_mono_r; lia).
  assert (P2 : 2 ^ 1 <= 2 ^ (e2 - e1)) by (apply Z.pow_le_mono_r; lia).
  change (2 ^ 1) with 2 in P2.
  assert (P3 : 2 ^ prec = 2 ^ (prec - 1) * 2)
    by (unfold prec; reflexivity).
  nia.
Qed.

Lemma compare_magnitudes (m1 m2 : positive) (e1 e2 : Z) :
  bounded prec emax m1 e1 = true -> bounded prec emax m2 e2 = true ->
  match e1 ?= e2 with
  | Lt => Lt
  | Gt => Gt
  | Eq => Pos.compare_cont Eq m1 m2
  end
  = (Z.pos (fst (shl_align m1 e1 (Z.min e1 e2)))
     ?= Z.pos (fst (shl_align m2 e2 (Z.min e1 e2)))).
Proof.
  intros B1 B2.
  destruct (Z.compare_spec e1 e2) as [E|E|E].
  - subst e2. rewrite Z.min_id. unfold shl_align. rewrite Z.sub_diag.
    reflexivity.
  - rewrite Z.min_l by lia. symmetry. apply Z.compare_lt_iff.
    now apply aligned_lt.
  - rewrite Z.min_r by lia. symmetry. apply Z.compare_gt_iff.
    now apply aligned_lt.
Qed.

(** Comparing two finite numbers is comparing their mantissas brought
    to the smaller exponent. *)
Lemma SFcompare_aligned (s1 s2 : bool) (m1 m2 : positive) (e1 e2 : Z) :
  bounded prec emax m1 e1 = true -> bounded prec emax m2 e2 = true ->
  SFcompare (S754_finite s1 m1 e1) (S754_finite s2 m2 e2)
  = Some (aligned s1 m1 e1 (Z.min e1 e2) ?= aligned s2 m2 e2 (Z.min e1 e2)).
Proof.
  intros B1 B2. unfold aligned, cond_Zopp.
  pose proof (compare_magnitudes m1 m2 e1 e2 B1 B2) as H.
  cbn [SFcompare]. f_equal.
  destruct s1, s2.
  - rewrite Z.compare_opp.
    rewrite (Z.compare_antisym (Z.pos (fst (shl_align m1 e1 (Z.min e1 e2))))).
    rewrite <- H.
    destruct (e1 ?= e2); reflexivity.
  - reflexivity.
  - reflexivity.
  - exact H.
Qed.

Lemma binary_normalize_sign (d e : Z) :
  SpecFloat.emin prec emax <= e ->
  sign_of (binary_normalize prec emax d e false) (d ?= 0).
Proof.
  intros He. destruct d as [|p|p]; simpl.
  - constructor.
  - destruct (binary_round_sign false p e He) as [(m' & e' & ->)| ->]; constructor.
  - destruct (binary_round_sign true p e He) as [(m' & e' & ->)| ->]; constructor.
Qed.

Lemma SFsub_sign (x y : spec_float) (c : comparison) :
  finite_spec x -> finite_spec y -> SFcompare x y = Some c ->
  sign_of (SFsub prec emax x y) c.
Proof.
  intros Hx Hy Hc. unfold SF64sub.
  destruct x as [sx|sx| |sx mx ex], y as [sy|sy| |sy my ey]; try contradiction;
    simpl in Hx, Hy.
  - simpl in Hc. injection Hc as <-. destruct sx, sy; constructor.
  - simpl in Hc. injection Hc as <-. simpl. destruct sy; constructor.
  - simpl in Hc. injection Hc as <-. simpl. destruct sx; constructor.
  - rewrite (SFcompare_aligned _ _ _ _ _ _ Hx Hy) in Hc. injection Hc as <-.
    unfold SFsub. fold (aligned sx mx ex (Z.min ex ey)).
    fold (aligned sy my ey (Z.min ex ey)).
    rewrite (Z.compare_sub (aligned sx mx ex (Z.min ex ey))).
    apply binary_normalize_sign.
    apply bounded_facts in Hx, Hy. lia.
Qed.

(** ** From the specification to the operations *)
Lemma Prim2SF_zero : Prim2SF zero = S754_zero false.
Proof. reflexivity. Qed.

Lemma Prim2SF_infinity : Prim2SF infinity = S754_infinity false.
Proof. reflexivity. Qed.

Lemma is_nan_spec (x : float) :
  is_nan x = match Prim2SF x with S754_nan => true | _ => false end.
Proof.
  unfold is_nan. rewrite eqb_spec. unfold SFeqb.
  destruct (Prim2SF x) as [s|s| |s m e]; simpl; try reflexivity.
  - destruct s; reflexivity.
  - rewrite Z.compare_refl, Pos.compare_cont_refl. destruct s; reflexivity.
Qed.

Lemma finite_Prim2SF (x : float) : finite x -> finite_spec (Prim2SF x).
Proof.
  unfold finite, is_finite. rewrite is_nan_spec. unfold is_infinity.
  rewrite eqb_spec, abs_spec, Prim2SF_infinity.
  pose proof (Prim2SF_valid x) as V.
  destruct (Prim2SF x) as [s|s| |s m e]; simpl; try discriminate; auto.
Qed.

Lemma finite_compare (x y : spec_float) :
  finite_spec x -> finite_spec y -> exists c, SFcompare x y = Some c.
Proof.
  destruct x as [sx|sx| |sx mx ex], y as [sy|sy| |sy my ey]; simpl;
    try contradiction; eauto.
Qed.

Lemma sub_sign (x y : float) (c : comparison) :
  finite x -> finite y ->
  SFcompare (Prim2SF x) (Prim2SF y) = Some c ->
  sign_of (Prim2SF (x - y)) c.
Proof.
  intros Hx Hy Hc. rewrite sub_spec.
  apply SFsub_sign; auto using finite_Prim2SF.
Qed.

Lemma sign_of_tests (d : float) (c : comparison) :
  sign_of (Prim2SF d) c ->
  is_nan d = false
  /\ (zero <? d)%float = match c with Gt => true | _ => false end
  /\ (d <? zero)%float = match c with Lt => true | _ => false end.
Proof.
  intros H. rewrite is_nan_spec, !ltb_spec, Prim2SF_zero.
  inversion H; subst; repeat split; reflexivity.
Qed.

Lemma Math_max_zero_sign (d : float) (c : comparison) :
  sign_of (Prim2SF d) c ->
  Math_max zero d = match c with Gt => d | _ => zero end.
Proof.
  intros H. destruct (sign_of_tests d c H) as (H1 & H2 & H3).
  unfold Math_max. rewrite H1, H2, H3.
  destruct c; reflexivity.
Qed.

Lemma leb_compare (x y : float) :
  (x <=? y)%float = true ->
  SFcompare (Prim2SF x) (Prim2SF y) = Some Lt
  \/ SFcompare (Prim2SF x) (Prim2SF y) = Some Eq.
Proof.
  rewrite leb_spec. unfold SFleb.
  destruct (SFcompare (Prim2SF x) (Prim2SF y)) as [[]|]; try discriminate; auto.
Qed.

Lemma ltb_compare (x y : float) :
  (x <? y)%float = true <-> SFcompare (Prim2SF x) (Prim2SF y) = Some Lt.
Proof.
  rewrite ltb_spec. unfold SFltb.
  destruct (SFcompare (Prim2SF x) (Prim2SF y)) as [[]|]; split;
    try discriminate; auto.
Qed.

Lemma compare_cont_swap (p q : positive) :
  Pos.compare_cont Eq q p = CompOpp (Pos.compare_cont Eq p q).
Proof. exact (Pos.compare_antisym p q). Qed.

Lemma SFcompare_swap (x y : spec_float) :
  finite_spec x -> finite_spec y ->
  SFcompare y x = option_map CompOpp (SFcompare x y).
Proof.
  intros Hx Hy.
  destruct x as [sx|sx| |sx mx ex], y as [sy|sy| |sy my ey]; simpl in *;
    try contradiction; try reflexivity.
  - destruct sy; reflexivity.
  - destruct sx; reflexivity.
  - f_equal. rewrite (Z.compare_antisym ex ey), (compare_cont_swap mx my).
    destruct sx, sy; try reflexivity;
      destruct (ex ?= ey); simpl; try reflexivity;
      destruct (Pos.compare_cont Eq mx my); reflexivity.
Qed.

(** A reading that is not above the previous one gives zero. *)
Lemma max_zero_sub_le (x y : float) :
  finite x -> finite y -> (x <=? y)%float = true ->
  Math_max zero (x - y) = zero.
Proof.
  intros Hx Hy H.
  destruct (leb_compare x y H) as [E|E];
    now rewrite (Math_max_zero_sign _ _ (sub_sign x y _ Hx Hy E)).
Qed.

(** A reading above the previous one gives the difference, which is
    above zero. *)
Lemma max_zero_sub_gt (x y : float) :
  finite x -> finite y -> (y <? x)%float = true ->
  Math_max zero (x - y) = (x - y)%float /\ (zero <? x - y)%float = true.
Proof.
  intros Hx Hy H. apply ltb_compare in H.
  assert (E : SFcompare (Prim2SF x) (Prim2SF y) = Some Gt).
  { rewrite (SFcompare_swap (Prim2SF y) (Prim2SF x)), H by
      auto using finite_Prim2SF. reflexivity. }
  pose proof (sub_sign x y _ Hx Hy E) as S.
  split; [now rewrite (Math_max_zero_sign _ _ S)|].
  now destruct (sign_of_tests _ _ S) as (_ & -> & _).
Qed.

Lemma sub_not_nan (x y : float) :
  finite x -> finite y -> is_nan (x - y) = false.
Proof.
  intros Hx Hy.
  destruct (finite_compare _ _ (finite_Prim2SF x Hx) (finite_Prim2SF y Hy))
    as [c Hc].
  now destruct (sign_of_tests _ _ (sub_sign x y c Hx Hy Hc)).
Qed.

Lemma ltb_asym (x y : float) : (x <? y)%float = true -> (y <? x)%float = false.
Proof.
  rewrite !ltb_spec. unfold SFltb.
  destruct (Prim2SF x) as [sx|sx| |sx mx ex], (Prim2SF y) as [sy|sy| |sy my ey];
    simpl; try discriminate; try reflexivity;
    try (destruct sx; try discriminate; try reflexivity);
    try (destruct sy; try discriminate; try reflexivity);
    rewrite (Z.compare_antisym ex ey), (compare_cont_swap mx my);
    destruct (ex ?= ey); simpl; try discriminate; try reflexivity;
    destruct (Pos.compare_cont Eq mx my); simpl; try discriminate; reflexivity.
Qed.

(** [Math.max(0, d)] is never below zero. *)
Lemma Math_max_zero_not_negative (d : float) :
  (Math_max zero d <? zero)%float = false.
Proof.
  unfold Math_max. change (is_nan zero) with false. cbn [orb].
  destruct (is_nan d); [reflexivity|].
  destruct (zero <? d)%float eqn:E; [now apply ltb_asym|].
  destruct (d <? zero)%float; [reflexivity|].
  change (Leibniz.eqb zero neg_zero) with false. reflexivity.
Qed.

(** ** Whole numbers *)
Lemma size_iter_xO (p k : positive) :
  Pos.size (Pos.iter xO p k) = (Pos.size p + k)%positive.
Proof.
  induction k using Pos.peano_ind.
  - simpl. lia.
  - rewrite Pos.iter_succ. simpl. rewrite IHk. lia.
Qed.

Lemma size_le_53 (p : positive) : Z.pos p < 2 ^ 53 -> Z.pos (Pos.size p) <= 53.
Proof.
  intros Hp. destruct (size_bounds p) as [L _].
  destruct (Z.le_gt_cases (Z.pos (Pos.size p)) 53) as [H|H]; [exact H|].
  exfalso.
  assert (2 ^ 53 <= 2 ^ (Z.pos (Pos.size p) - 1))
    by (apply Z.pow_le_mono_r; lia).
  lia.
Qed.

Lemma iter_shr_exact (q : positive) : forall x : positive,
  iter_pos shr_1 q
    {| shr_m := Z.pos (Pos.iter xO x q); shr_r := false; shr_s := false |}
  = {| shr_m := Z.pos x; shr_r := false; shr_s := false |}.
Proof.
  induction q as [q IH|q IH|]; intros x; simpl iter_pos; simpl Pos.iter.
  - rewrite IH, IH. reflexivity.
  - rewrite IH, IH. reflexivity.
  - reflexivity.
Qed.

Lemma pos_of_scaled (P M : positive) (k : Z) :
  0 <= k -> Z.pos M = Z.pos P * 2 ^ k ->
  Z.pos (Pos.size M) = Z.pos (Pos.size P) + k
  /\ (k = 0 -> M = P)
  /\ (forall q, k = Z.pos q -> M = Pos.iter xO P q).
Proof.
  intros Hk HM.
  destruct k as [|q|q]; [| |lia].
  - assert (M = P) as -> by lia.
    split; [lia|]. split; [reflexivity|]. intros q H. discriminate H.
  - assert (M = Pos.iter xO P q) as ->.
    { apply Pos2Z.inj. now rewrite iter_xO. }
    rewrite size_iter_xO. split; [lia|]. split; [intros H; discriminate H|].
    intros q' H. now injection H as <-.
Qed.

(** A whole number below 2^53, written with any number of binary zeros
    behind it, is rounded to itself. *)
Lemma binary_round_scaled (s : bool) (P M : positive) (k : Z) :
  0 <= k -> Z.pos M = Z.pos P * 2 ^ k -> Z.pos P < 2 ^ 53 ->
  exists m,
    binary_round prec emax s M (- k)
    = S754_finite s m (Z.pos (Pos.size P) - 53)
    /\ bounded prec emax m (Z.pos (Pos.size P) - 53) = true
    /\ Z.pos m = Z.pos P * 2 ^ (53 - Z.pos (Pos.size P)).
Proof.
  intros Hk HM Hp.
  pose proof (size_le_53 P Hp) as Hd.
  destruct (pos_of_scaled P M k Hk HM) as (HsM & _ & _).
  set (e0 := Z.pos (Pos.size P) - 53).
  (* the mantissa on 53 bits *)
  assert (Hm : exists m, Z.pos m = Z.pos P * 2 ^ (53 - Z.pos (Pos.size P))
                         /\ Z.pos (Pos.size m) = 53).
  { destruct (53 - Z.pos (Pos.size P)) as [|q|q] eqn:E; [| |lia].
    - exists P. split; lia.
    - exists (Pos.iter xO P q). rewrite iter_xO, size_iter_xO. split; lia. }
  destruct Hm as (m & Hmv & Hms). exists m.
  assert (Hb : bounded prec emax m e0 = true).
  { unfold bounded, canonical_mantissa. rewrite digits2_size, Hms.
    apply andb_true_iff. rewrite Z.eqb_eq, Z.leb_le.
    unfold e0, fexp, SpecFloat.emin, prec, emax. lia. }
  split; [|split; [exact Hb | exact Hmv]].
  assert (Haux : binary_round_aux prec emax s (Z.pos m) e0 loc_Exact
                 = S754_finite s m e0).
  { unfold binary_round_aux, shr_fexp.
    rewrite Zdigits2_pos, Hms.
    replace (fexp prec emax (53 + e0) - e0) with 0
      by (unfold e0, fexp, SpecFloat.emin, prec, emax; lia).
    cbn [shr shr_record_of_loc shr_m loc_of_shr_record round_nearest_even].
    rewrite Zdigits2_pos, Hms.
    replace (fexp prec emax (53 + e0) - e0) with 0
      by (unfold e0, fexp, SpecFloat.emin, prec, emax; lia).
    cbn [shr shr_record_of_loc shr_m].
    replace (e0 <=? emax - prec) with true; [reflexivity|].
    symmetry. apply Z.leb_le. unfold e0, emax, prec. lia. }
  unfold binary_round. rewrite digits2_size, HsM.
  replace (fexp prec emax (Z.pos (Pos.size P) + k + - k)) with e0
    by (unfold e0, fexp, SpecFloat.emin, prec, emax; lia).
  unfold shl_align.
  destruct (e0 - - k) as [|n|n] eqn:En.
  - (* already on 53 bits *)
    assert (M = m) as -> by (apply Pos2Z.inj; rewrite HM, Hmv; f_equal; f_equal; unfold e0 in En; lia).
    replace (- k) with e0 by lia. exact Haux.
  - (* too long: the zeros are shifted out *)
    assert (M = Pos.iter xO m n) as ->.
    { apply Pos2Z.inj. rewrite iter_xO, HM, Hmv, <- Z.mul_assoc, <- Z.pow_add_r by lia.
      f_equal. f_equal. unfold e0 in En. lia. }
    unfold binary_round_aux, shr_fexp.
    rewrite Zdigits2_pos, size_iter_xO.
    replace (fexp prec emax (Z.pos (Pos.size m + n) + - k) - - k) with (Z.pos n)
      by (unfold e0, fexp, SpecFloat.emin, prec, emax in *; lia).
    cbn [shr shr_record_of_loc]. rewrite iter_shr_exact.
    cbn [shr_m loc_of_shr_record round_nearest_even].
    replace (- k + Z.pos n) with e0 by lia.
    rewrite Zdigits2_pos, Hms.
    replace (fexp prec emax (53 + e0) - e0) with 0
      by (unfold e0, fexp, SpecFloat.emin, prec, emax; lia).
    cbn [shr shr_record_of_loc shr_m].
    replace (e0 <=? emax - prec) with true; [reflexivity|].
    symmetry. apply Z.leb_le. unfold e0, emax, prec. lia.
  - (* too short: shifted to 53 bits *)
    assert (Pos.iter xO M n = m) as ->.
    { apply Pos2Z.inj. rewrite iter_xO, HM, Hmv, <- Z.mul_assoc, <- Z.pow_add_r by lia.
      f_equal. f_equal. unfold e0 in En. lia. }
    exact Haux.
Qed.

Lemma whole_spec_form (p : positive) (s : bool) :
  Z.pos p < 2 ^ 53 ->
  exists m,
    binary_round prec emax s p 0 = S754_finite s m (Z.pos (Pos.size p) - 53)
    /\ bounded prec emax m (Z.pos (Pos.size p) - 53) = true
    /\ Z.pos m = Z.pos p * 2 ^ (53 - Z.pos (Pos.size p)).
Proof.
  intros H. apply (binary_round_scaled s p p 0); [lia|lia|exact H].
Qed.

Lemma binary_round_scaled_eq (s : bool) (P M : positive) (k : Z) :
  0 <= k -> Z.pos M = Z.pos P * 2 ^ k -> Z.pos P < 2 ^ 53 ->
  binary_round prec emax s M (- k) = binary_round prec emax s P 0.
Proof.
  intros Hk HM Hp.
  destruct (binary_round_scaled s P M k Hk HM Hp) as (m & -> & _ & Hm).
  destruct (whole_spec_form P s Hp) as (m' & -> & _ & Hm').
  assert (m = m') as -> by (apply Pos2Z.inj; congruence).
  reflexivity.
Qed.

(** A whole number below 2^53 is a double: its mantissa is the number
    shifted to 53 bits. *)
Lemma binary_round_whole (s : bool) (p : positive) :
  Z.pos p < 2 ^ 53 ->
  exists m e,
    binary_round prec emax s p 0 = S754_finite s m e
    /\ bounded prec emax m e = true
    /\ e <= 0
    /\ Z.pos m = Z.pos p * 2 ^ (- e).
Proof.
  intros Hp. pose proof (size_le_53 p Hp) as Hd.
  destruct (whole_spec_form p s Hp) as (m & E & B & M).
  exists m, (Z.pos (Pos.size p) - 53).
  split; [exact E|]. split; [exact B|]. split; [lia|].
  rewrite M. f_equal. f_equal. lia.
Qed.

Lemma Prim2SF_Fin (z : Z) :
  safe_integer z ->
  match z with
  | Z0 => Prim2SF (Fin z) = S754_zero false
  | Zpos p | Zneg p =>
      exists m e,
        Prim2SF (Fin z) = S754_finite (z <? 0) m e
        /\ bounded prec emax m e = true
        /\ e <= 0
        /\ Z.pos m = Z.pos p * 2 ^ (- e)
  end.
Proof.
  unfold safe_integer, Fin. intros H.
  destruct z as [|p|p]; [reflexivity| |]; cbn [binary_normalize].
  - destruct (binary_round_whole false p) as (m & e & E & B & He & Hm); [lia|].
    exists m, e. rewrite E, Prim2SF_SF2Prim by exact B. auto.
  - destruct (binary_round_whole true p) as (m & e & E & B & He & Hm); [lia|].
    exists m, e. rewrite E, Prim2SF_SF2Prim by exact B. auto.
Qed.

Lemma finite_spec_Fin (z : Z) : safe_integer z -> finite_spec (Prim2SF (Fin z)).
Proof.
  intros H. pose proof (Prim2SF_Fin z H) as P.
  destruct z; [now rewrite P| |]; destruct P as (m & e & -> & B & _); exact B.
Qed.

Lemma aligned_whole (s : bool) (p m : positive) (e ez : Z) :
  ez <= e -> e <= 0 -> Z.pos m = Z.pos p * 2 ^ (- e) ->
  aligned s m e ez = cond_Zopp s (Z.pos p) * 2 ^ (- ez).
Proof.
  intros H1 H2 Hm. unfold aligned. rewrite shl_align_value by exact H1.
  rewrite Hm, <- Z.mul_assoc, <- Z.pow_add_r by lia.
  replace (- e + (e - ez)) with (- ez) by lia.
  unfold cond_Zopp. destruct s; [now rewrite Z.mul_opp_l | reflexivity].
Qed.

Lemma Zcompare_mul_r (x y k : Z) : 0 < k -> (x * k ?= y * k) = (x ?= y).
Proof.
  intros H. destruct (Z.compare_spec x y) as [E|E|E].
  - subst. apply Z.compare_refl.
  - apply Z.compare_lt_iff. nia.
  - apply Z.compare_gt_iff. nia.
Qed.

(** Whole numbers below 2^53 compare as doubles the way they compare as
    integers. *)
Lemma Fin_compare (a b : Z) :
  safe_integer a -> safe_integer b ->
  SFcompare (Prim2SF (Fin a)) (Prim2SF (Fin b)) = Some (a ?= b).
Proof.
  intros Ha Hb.
  pose proof (Prim2SF_Fin a Ha) as Pa. pose proof (Prim2SF_Fin b Hb) as Pb.
  destruct a as [|p|p], b as [|q|q];
    try destruct Pa as (ma & ea & -> & Ba & Ea & Ma);
    try destruct Pb as (mb & eb & -> & Bb & Eb & Mb);
    rewrite ?Pa, ?Pb; try reflexivity.
  all: rewrite (SFcompare_aligned _ _ _ _ _ _ Ba Bb).
  all: rewrite (aligned_whole _ p ma ea (Z.min ea eb)) by (try exact Ma; lia).
  all: rewrite (aligned_whole _ q mb eb (Z.min ea eb)) by (try exact Mb; lia).
  all: f_equal.
  all: assert (Hp2 : 0 < 2 ^ (- Z.min ea eb)) by (apply Z.pow_pos_nonneg; lia).
  all: rewrite (Zcompare_mul_r _ _ _ Hp2); reflexivity.
Qed.

Lemma sub_sign_spec (x y : float) (c : comparison) :
  finite_spec (Prim2SF x) -> finite_spec (Prim2SF y) ->
  SFcompare (Prim2SF x) (Prim2SF y) = Some c ->
  sign_of (Prim2SF (x - y)) c.
Proof. intros Hx Hy Hc. rewrite sub_spec. now apply SFsub_sign. Qed.

Lemma Fin_sub_sign (a b : Z) :
  safe_integer a -> safe_integer b ->
  sign_of (Prim2SF (Fin a - Fin b)) (a ?= b).
Proof.
  intros Ha Hb.
  apply sub_sign_spec; auto using finite_spec_Fin, Fin_compare.
Qed.

Lemma Fin_opp (p : positive) : Fin (Z.neg p) = (- Fin (Z.pos p))%float.
Proof.
  unfold Fin. cbn [binary_normalize]. unfold binary_round.
  destruct (shl_align p 0 _) as [mz ez].
  unfold binary_round_aux.
  destruct (shr_fexp prec emax (Z.pos mz) ez loc_Exact) as [mrs' e'].
  destruct (shr_fexp prec emax _ e' loc_Exact) as [mrs'' e''].
  destruct (shr_m mrs'') as [|m|m]; try reflexivity.
  destruct (e'' <=? emax - prec); reflexivity.
Qed.

Lemma normalize_scaled (v k : Z) :
  0 <= k -> safe_integer v ->
  binary_normalize prec emax (v * 2 ^ k) (- k) false = whole_spec v.
Proof.
  intros Hk Hv. unfold whole_spec, safe_integer in *.
  assert (Hpow : 0 < 2 ^ k) by (apply Z.pow_pos_nonneg; lia).
  destruct v as [|P|P].
  - reflexivity.
  - destruct (Z.pos P * 2 ^ k) as [|M|M] eqn:E; try lia.
    cbn [binary_normalize]. apply binary_round_scaled_eq; lia.
  - destruct (Z.neg P * 2 ^ k) as [|M|M] eqn:E; try lia.
    cbn [binary_normalize]. apply binary_round_scaled_eq; lia.
Qed.

Lemma whole_spec_valid (z : Z) :
  safe_integer z -> valid_binary (whole_spec z) = true.
Proof.
  unfold safe_integer, whole_spec. intros H.
  destruct z as [|p|p]; [reflexivity| |]; cbn [binary_normalize].
  - destruct (whole_spec_form p false) as (m & -> & B & _); [lia | exact B].
  - destruct (whole_spec_form p true) as (m & -> & B & _); [lia | exact B].
Qed.

Lemma Prim2SF_whole (z : Z) : safe_integer z -> Prim2SF (Fin z) = whole_spec z.
Proof.
  intros H. unfold Fin. apply Prim2SF_SF2Prim. now apply whole_spec_valid.
Qed.

Lemma aligned_of_whole (s : bool) (p m : positive) (ez : Z) :
  Z.pos p < 2 ^ 53 ->
  Z.pos m = Z.pos p * 2 ^ (53 - Z.pos (Pos.size p)) ->
  ez <= Z.pos (Pos.size p) - 53 ->
  aligned s m (Z.pos (Pos.size p) - 53) ez = cond_Zopp s (Z.pos p) * 2 ^ (- ez).
Proof.
  intros Hp Hm Hez.
  pose proof (size_le_53 p Hp) as Hd.
  apply aligned_whole; [exact Hez | lia |].
  rewrite Hm. f_equal. f_equal. lia.
Qed.

(** The representation of a whole number below 2^53. *)
Lemma whole_spec_cases (z : Z) :
  safe_integer z ->
  (z = 0 /\ whole_spec z = S754_zero false)
  \/ (exists (s : bool) (p m : positive),
        z = cond_Zopp s (Z.pos p)
        /\ Z.pos p < 2 ^ 53
        /\ whole_spec z = S754_finite s m (Z.pos (Pos.size p) - 53)
        /\ bounded prec emax m (Z.pos (Pos.size p) - 53) = true
        /\ Z.pos m = Z.pos p * 2 ^ (53 - Z.pos (Pos.size p))).
Proof.
  unfold safe_integer. intros H. destruct z as [|p|p].
  - left. split; reflexivity.
  - right. destruct (whole_spec_form p false) as (m & E & B & M); [lia|].
    exists false, p, m. repeat split; try assumption; lia.
  - right. destruct (whole_spec_form p true) as (m & E & B & M); [lia|].
    exists true, p, m. repeat split; try assumption; lia.
Qed.

(** The sum of the mantissas of two whole numbers, brought to the
    smaller exponent, rounds to the whole number it stands for. *)
Lemma normalize_aligned (sa sb : bool) (p q ma mb : positive) (v : Z) :
  Z.pos p < 2 ^ 53 -> Z.pos q < 2 ^ 53 ->
  Z.pos ma = Z.pos p * 2 ^ (53 - Z.pos (Pos.size p)) ->
  Z.pos mb = Z.pos q * 2 ^ (53 - Z.pos (Pos.size q)) ->
  forall (op : Z -> Z -> Z),
    (forall x y k, op (x * k) (y * k) = op x y * k) ->
    safe_integer (op (cond_Zopp sa (Z.pos p)) (cond_Zopp sb (Z.pos q))) ->
    let ea := Z.pos (Pos.size p) - 53 in
    let eb := Z.pos (Pos.size q) - 53 in
    binary_normalize prec emax
      (op (aligned sa ma ea (Z.min ea eb)) (aligned sb mb eb (Z.min ea eb)))
      (Z.min ea eb) false
    = whole_spec (op (cond_Zopp sa (Z.pos p)) (cond_Zopp sb (Z.pos q))).
Proof.
  intros Hp Hq Ma Mb op Hop Hs ea eb.
  pose proof (size_le_53 p Hp). pose proof (size_le_53 q Hq).
  rewrite (aligned_of_whole sa p ma) by (assumption || (unfold ea, eb; lia)).
  rewrite (aligned_of_whole sb q mb) by (assumption || (unfold ea, eb; lia)).
  rewrite Hop.
  replace (Z.min ea eb) with (- - Z.min ea eb) at 2 by lia.
  apply normalize_scaled; [unfold ea, eb; lia | exact Hs].
Qed.

Lemma SFadd_whole (a b : Z) :
  safe_integer a -> safe_integer b -> safe_integer (a + b) ->
  SFadd prec emax (whole_spec a) (whole_spec b) = whole_spec (a + b).
Proof.
  intros Ha Hb Hab.
  destruct (whole_spec_cases a Ha)
    as [[-> ->]|(sa & p & ma & -> & Hp & -> & Ba & Ma)];
    destruct (whole_spec_cases b Hb)
      as [[-> Eb]|(sb & q & mb & Eb' & Hq & Eb & Bb & Mb)]; rewrite Eb.
  - reflexivity.
  - rewrite Z.add_0_l, Eb. reflexivity.
  - rewrite Z.add_0_r.
    destruct (whole_spec_form p sa Hp) as (m' & E' & _ & M').
    assert (E : whole_spec (cond_Zopp sa (Z.pos p))
                = S754_finite sa ma (Z.pos (Pos.size p) - 53)).
    { unfold whole_spec. destruct sa; cbn [cond_Zopp Z.opp binary_normalize];
        rewrite E'; f_equal; apply Pos2Z.inj; congruence. }
    now rewrite E.
  - subst b.
    exact (normalize_aligned sa sb p q ma mb 0 Hp Hq Ma Mb Z.add
             (fun x y k => eq_sym (Z.mul_add_distr_r x y k)) Hab).
Qed.

Lemma whole_spec_opp (sb : bool) (q mb : positive) :
  Z.pos q < 2 ^ 53 ->
  Z.pos mb = Z.pos q * 2 ^ (53 - Z.pos (Pos.size q)) ->
  whole_spec (cond_Zopp sb (Z.pos q))
  = S754_finite sb mb (Z.pos (Pos.size q) - 53).
Proof.
  intros Hq Mb.
  destruct (whole_spec_form q sb Hq) as (m' & E' & _ & M').
  unfold whole_spec. destruct sb; cbn [cond_Zopp Z.opp binary_normalize];
    rewrite E'; f_equal; apply Pos2Z.inj; congruence.
Qed.

Lemma SFsub_whole (a b : Z) :
  safe_integer a -> safe_integer b -> safe_integer (a - b) ->
  SFsub prec emax (whole_spec a) (whole_spec b) = whole_spec (a - b).
Proof.
  intros Ha Hb Hab.
  destruct (whole_spec_cases a Ha)
    as [[-> ->]|(sa & p & ma & -> & Hp & -> & Ba & Ma)];
    destruct (whole_spec_cases b Hb)
      as [[-> Eb]|(sb & q & mb & Eb' & Hq & Eb & Bb & Mb)]; rewrite Eb.
  - reflexivity.
  - subst b. cbn [SFsub].
    replace (0 - cond_Zopp sb (Z.pos q)) with (cond_Zopp (negb sb) (Z.pos q))
      by (destruct sb; simpl; lia).
    symmetry. now apply whole_spec_opp.
  - rewrite Z.sub_0_r. cbn [SFsub]. symmetry. now apply whole_spec_opp.
  - subst b.
    exact (normalize_aligned sa sb p q ma mb 0 Hp Hq Ma Mb Z.sub
             (fun x y k => eq_sym (Z.mul_sub_distr_r x y k)) Hab).
Qed.

Lemma Fin_add (a b : Z) :
  safe_integer a -> safe_integer b -> safe_integer (a + b) ->
  (Fin a + Fin b)%float = Fin (a + b).
Proof.
  intros Ha Hb Hab. apply Prim2SF_inj.
  rewrite add_spec, !Prim2SF_whole by assumption.
  now apply SFadd_whole.
Qed.

Lemma Fin_sub (a b : Z) :
  safe_integer a -> safe_integer b -> safe_integer (a - b) ->
  (Fin a - Fin b)%float = Fin (a - b).
Proof.
  intros Ha Hb Hab. apply Prim2SF_inj.
  rewrite sub_spec, !Prim2SF_whole by assumption.
  now apply SFsub_whole.
Qed.

(* ================================================================== *)
(** * Facts about the JavaScript fragment *)
(* ================================================================== *)

(** Two numbers are told apart by their representations. *)
Ltac float_neq :=
  let H := fresh in
  intros H; apply (f_equal Prim2SF) in H; vm_compute in H; discriminate H.

Example Number_text_180 : Number (Str "180") = Fin 180.
Proof. reflexivity. Qed.

Example Number_text_blank : Number (Str "") = Fin 0.
Proof. reflexivity. Qed.

Example Number_text_letters : Number (Str "abc") = NaN.
Proof. reflexivity. Qed.

Example Number_text_padded : Number (Str " -42 ") = Fin (-42).
Proof. reflexivity. Qed.

(** Numerals with a fraction, an exponent or a radix prefix, and the
    values outside the finite numbers. *)
Example Number_text_fraction :
  Number (Str "150.5") = 150.5%float /\ Number (Str ".5") = 0.5%float
  /\ Number (Str "5.") = Fin 5 /\ Number (Str "150.0") = Fin 150
  /\ Number (Str "0.1") = 0x1.999999999999ap-4%float
  /\ Number (Str "0.1") = PrimFloat.div (Fin 1) (Fin 10).
Proof. repeat split; reflexivity. Qed.

Example Number_text_exponent :
  Number (Str "2e2") = Fin 200 /\ Number (Str "1E-3") = 0x1.0624dd2f1a9fcp-10%float
  /\ Number (Str "25e-1") = 2.5%float /\ Number (Str "1e") = NaN
  /\ Number (Str "1e400") = infinity /\ Number (Str "1e-400") = Fin 0.
Proof. repeat split; reflexivity. Qed.

Example Number_text_radix :
  Number (Str "0x1F") = Fin 31 /\ Number (Str "0b101") = Fin 5
  /\ Number (Str "0o17") = Fin 15 /\ Number (Str "-0x10") = NaN.
Proof. repeat split; reflexivity. Qed.

Example Number_text_special :
  Number (Str "Infinity") = infinity /\ Number (Str "-Infinity") = neg_infinity
  /\ Number (Str "-0") = neg_zero /\ Number (Str "1.5.2") = NaN
  /\ Number (Str "12px") = NaN.
Proof. repeat split; reflexivity. Qed.

(** Integers from 2^53 on are rounded, ties to even. *)
Example Number_text_rounded :
  Number (Str "9007199254740993") = Fin 9007199254740992
  /\ Number (Str "9007199254740995") = Fin 9007199254740996.
Proof. split; reflexivity. Qed.

(** Sums of doubles depend on the order of the additions. *)
Example add_not_associative :
  add (add (Number (Str "0.1")) (Number (Str "0.2"))) (Number (Str "0.3"))
  <> add (Number (Str "0.1")) (add (Number (Str "0.2")) (Number (Str "0.3"))).
Proof. float_neq. Qed.

Example ToString_2024 : ToString 2024 = "2024".
Proof. reflexivity. Qed.

Example default_sort_is_textual :
  sort default_compare [2024; 999; 10000] = [10000; 2024; 999].
Proof. reflexivity. Qed.

Lemma or_zero_truthy (x : num) : falsy x = false -> or_zero x = x.
Proof. unfold or_zero. now intros ->. Qed.

Lemma or_zero_falsy (x : num) : falsy x = true -> or_zero x = Fin 0.
Proof. unfold or_zero. now intros ->. Qed.

(** [x || 0] is never [NaN]. *)
Lemma or_zero_not_nan (x : num) : is_nan (or_zero x) = false.
Proof.
  unfold or_zero. destruct (falsy x) eqn:E; [reflexivity|].
  unfold falsy in E. now apply orb_false_elim in E.
Qed.

Lemma or_zero_idem (x : num) : or_zero (or_zero x) = or_zero x.
Proof.
  unfold or_zero at 2 3. destruct (falsy x) eqn:E; [reflexivity|].
  now apply or_zero_truthy.
Qed.

(** A number above zero is truthy. *)
Lemma positive_truthy (x : num) : PrimFloat.ltb zero x = true -> falsy x = false.
Proof.
  intros H. unfold falsy. rewrite is_nan_spec, eqb_spec.
  rewrite ltb_spec, Prim2SF_zero in H. unfold SFltb, SFeqb in *.
  destruct (Prim2SF x) as [s|s| |s m e]; simpl in *; try discriminate;
    destruct s; try discriminate; reflexivity.
Qed.

(** The numbers that are not below zero: the zeros, and what lies above
    zero. *)
Lemma not_negative_cases (x : num) :
  not_negative x ->
  (exists s, Prim2SF x = S754_zero s)
  \/ (exists m e, Prim2SF x = S754_finite false m e)
  \/ Prim2SF x = S754_infinity false.
Proof.
  unfold not_negative. rewrite leb_spec, Prim2SF_zero. unfold SFleb.
  destruct (Prim2SF x) as [s|s| |s m e]; simpl; try discriminate; eauto;
    destruct s; try discriminate; eauto.
Qed.

Lemma falsy_cases (x : num) :
  falsy x = true ->
  Prim2SF x = S754_nan \/ exists s, Prim2SF x = S754_zero s.
Proof.
  unfold falsy. rewrite is_nan_spec, eqb_spec, Prim2SF_zero. unfold SFeqb.
  destruct (Prim2SF x) as [s|s| |s m e]; simpl; eauto;
    destruct s; discriminate.
Qed.

(** Against a previous reading that is not below zero, a reading of
    zero (of either sign) gives a consumption of zero. *)
Lemma max_zero_sub_from_zero (z p : num) :
  (exists s, Prim2SF z = S754_zero s) -> not_negative p ->
  Math_max zero (sub z p) = zero.
Proof.
  intros [s Hz] Hp.
  assert (S : sign_of (Prim2SF (sub z p)) Lt \/ sign_of (Prim2SF (sub z p)) Eq).
  { unfold sub. rewrite sub_spec, Hz.
    destruct (not_negative_cases p Hp) as [[t ->]|[(m & e & ->)| ->]]; simpl.
    - right. destruct s, t; constructor.
    - left. constructor.
    - left. constructor. }
  destruct S as [S|S]; now rewrite (Math_max_zero_sign _ _ S).
Qed.

Lemma strict_eq_blank (v : value) : strict_eq v (Str "") = true <-> v = Str "".
Proof.
  destruct v as [| |n|s]; simpl; try (split; discriminate).
  rewrite String.eqb_eq. split; congruence.
Qed.

Lemma strict_eq_id (i : string) (v : value) :
  strict_eq (Str i) v = true <-> v = Str i.
Proof.
  destruct v as [| |n|s]; simpl; try (split; discriminate).
  rewrite String.eqb_eq. split; congruence.
Qed.

Lemma is_nullish_true (v : value) :
  is_nullish v = true <-> v = Null \/ v = Undefined.
Proof.
  destruct v; simpl; split; intros H; try discriminate; auto;
    destruct H; discriminate.
Qed.

Lemma last_elem_app {A : Type} (l : list A) (x : A) :
  last_elem (l ++ [x]) = Some x.
Proof.
  unfold last_elem. rewrite length_app. simpl.
  replace (List.length l + 1 - 1)%nat with (List.length l) by lia.
  rewrite nth_error_app2 by lia. rewrite Nat.sub_diag. reflexivity.
Qed.

Lemma last_elem_spec {A : Type} (l : list A) :
  (l = [] /\ last_elem l = None)
  \/ (exists l' x, l = l' ++ [x] /\ last_elem l = Some x).
Proof.
  destruct l as [|a l].
  - left. split; reflexivity.
  - right. destruct (@exists_last _ (a :: l)) as [l' [x E]]; [discriminate|].
    exists l', x. rewrite E. split; [reflexivity | apply last_elem_app].
Qed.

Section SortFacts.
Context {A : Type} (cmp : A -> A -> Z) (R : A -> A -> Prop).

Lemma insert_perm (x : A) (l : list A) :
  Permutation (x :: l) (insert cmp x l).
Proof.
  induction l as [|y l IH]; simpl; [reflexivity|].
  destruct (cmp x y <=? 0); [reflexivity|].
  rewrite perm_swap. now apply perm_skip.
Qed.

Lemma sort_perm (l : list A) : Permutation l (sort cmp l).
Proof.
  induction l as [|x l IH]; simpl; [constructor|].
  rewrite <- insert_perm. now apply perm_skip.
Qed.

Lemma sort_In (l : list A) (x : A) : In x (sort cmp l) <-> In x l.
Proof.
  split; apply Permutation_in;
    [symmetry|]; apply sort_perm.
Qed.

(** The comparator decides a total preorder [R]. *)
Hypothesis cmp_le : forall x y, cmp x y <= 0 -> R x y.
Hypothesis cmp_gt : forall x y, 0 < cmp x y -> R y x.
Hypothesis R_trans : forall x y z, R x y -> R y z -> R x z.

Lemma insert_sorted (x : A) (l : list A) :
  StronglySorted R l -> StronglySorted R (insert cmp x l).
Proof.
  induction 1 as [|y l Hl IH Hy]; simpl.
  - repeat constructor.
  - destruct (Z.leb_spec (cmp x y) 0) as [Hc|Hc].
    + constructor; [now constructor|].
      constructor; [now apply cmp_le|].
      eapply Forall_impl; [|exact Hy].
      intros z Hz. eapply R_trans; [apply cmp_le|]; eassumption.
    + constructor; [assumption|].
      eapply Permutation_Forall; [apply insert_perm|].
      constructor; [now apply cmp_gt | assumption].
Qed.

Lemma sort_sorted (l : list A) : StronglySorted R (sort cmp l).
Proof.
  induction l; simpl; [constructor | now apply insert_sorted].
Qed.
End SortFacts.

Lemma sort_ext {A : Type} (c1 c2 : A -> A -> Z) (l : list A) :
  (forall x y, In x l -> In y l -> (c1 x y <=? 0) = (c2 x y <=? 0)) ->
  sort c1 l = sort c2 l.
Proof.
  induction l as [|a l IH]; intros H; simpl; [reflexivity|].
  rewrite IH by (intros; apply H; now right).
  assert (Hin : forall y, In y (sort c2 l) -> In y (a :: l))
    by (intros y Hy; right; exact (proj1 (sort_In c2 l y) Hy)).
  revert Hin. generalize (sort c2 l) as s.
  induction s as [|b s IHs]; intros Hin; simpl; [reflexivity|].
  rewrite (H a b); [| now left | apply Hin; now left].
  destruct (c2 a b <=? 0); [reflexivity|].
  f_equal. apply IHs. intros y Hy. apply Hin. now right.
Qed.

Lemma filter_sorted {A : Type} (R : A -> A -> Prop) (p : A -> bool) (l : list A) :
  StronglySorted R l -> StronglySorted R (filter p l).
Proof.
  induction 1 as [|x l Hl IH Hx]; simpl; [constructor|].
  destruct (p x); [|assumption].
  constructor; [assumption|].
  rewrite Forall_forall in *. intros y Hy.
  apply filter_In in Hy. now apply Hx.
Qed.

Lemma sorted_last_max {A : Type} (R : A -> A -> Prop) (l : list A) (x : A) :
  (forall a, R a a) ->
  StronglySorted R (l ++ [x]) -> Forall (fun a => R a x) (l ++ [x]).
Proof.
  intros Hrefl. induction l as [|a l IH]; simpl; intros H.
  - constructor; [apply Hrefl | constructor].
  - apply StronglySorted_inv in H. destruct H as [H1 H2].
    constructor; [|now apply IH].
    rewrite Forall_forall in H2. apply H2, in_or_app. right. now left.
Qed.

(* ================================================================== *)
(** * Whole numbers in [x || 0], [Math.max] and sums *)
(* ================================================================== *)

Lemma or_zero_Fin (k : Z) : safe_integer k -> or_zero (Fin k) = Fin k.
Proof.
  intros Hk.
  destruct (whole_spec_cases k Hk)
    as [[-> _]|(s & p & m & _ & _ & E & _)]; [reflexivity|].
  apply or_zero_truthy. unfold falsy.
  rewrite is_nan_spec, eqb_spec, Prim2SF_zero, (Prim2SF_whole k Hk), E.
  destruct s; reflexivity.
Qed.

Lemma Math_max_Fin (d : Z) :
  safe_integer d -> Math_max (Fin 0) (Fin d) = Fin (Z.max 0 d).
Proof.
  intros Hd. change (Fin 0) with zero.
  assert (S : sign_of (Prim2SF (Fin d)) (d ?= 0)).
  { rewrite (Prim2SF_whole d Hd).
    destruct (whole_spec_cases d Hd)
      as [[-> ->]|(s & p & m & -> & _ & -> & _)]; [constructor|].
    destruct s; constructor. }
  rewrite (Math_max_zero_sign _ _ S).
  destruct (Z.compare_spec d 0) as [E|E|E].
  - subst d. reflexivity.
  - rewrite Z.max_l by lia. reflexivity.
  - rewrite Z.max_r by lia. reflexivity.
Qed.

Lemma Zsum_app (l1 l2 : list Z) : Zsum (l1 ++ l2) = Zsum l1 + Zsum l2.
Proof. induction l1 as [|x l IH]; simpl; lia. Qed.

Lemma Zsum_perm (l1 l2 : list Z) : Permutation l1 l2 -> Zsum l1 = Zsum l2.
Proof. induction 1; simpl; lia. Qed.

Lemma Zsum_nonneg (l : list Z) : Forall (fun k => 0 <= k) l -> 0 <= Zsum l.
Proof. induction 1; simpl; lia. Qed.

(** A sum [s + (x || 0)] over whole numbers is exact as long as it
    stays below 2^53. *)
Lemma sum_whole_from (f : record -> num) (rows : list record) (ks : list Z)
    (a : Z) :
  Forall2 (fun r k => f r = Fin k /\ 0 <= k) rows ks ->
  0 <= a -> a + Zsum ks < 2 ^ 53 ->
  fold_left (fun s r => add s (or_zero (f r))) rows (Fin a)
  = Fin (a + Zsum ks).
Proof.
  intros H. revert a. induction H as [|r k rows ks [E Hk] H IH]; intros a Ha Hs.
  - simpl. now rewrite Z.add_0_r.
  - simpl in *.
    assert (Hks : 0 <= Zsum ks).
    { apply Zsum_nonneg. clear - H. induction H as [|? ? ? ? [_ ?]]; auto. }
    rewrite E, or_zero_Fin by (unfold safe_integer; lia).
    unfold add at 2. rewrite Fin_add by (unfold safe_integer; lia).
    rewrite IH by lia. f_equal. lia.
Qed.

Lemma whole_by_Forall2 (g : record -> Z) (f : record -> num)
    (rows : list record) :
  (forall r, In r rows -> f r = Fin (g r) /\ 0 <= g r) ->
  Forall2 (fun r k => f r = Fin k /\ 0 <= k) rows (map g rows).
Proof.
  induction rows as [|r l IH]; intros H; simpl; constructor.
  - apply H. now left.
  - apply IH. intros q Hq. apply H. now right.
Qed.

Lemma sum_whole (g : record -> Z) (f : record -> num) (rows : list record) :
  whole_by g f rows -> sum_or_zero f rows = Fin (Zsum (map g rows)).
Proof.
  intros [H B]. unfold sum_or_zero.
  rewrite (sum_whole_from f rows (map g rows) 0); auto using whole_by_Forall2.
  lia.
Qed.

Lemma Zsum_filter_le (g : record -> Z) (p : record -> bool)
    (rows : list record) :
  (forall r, In r rows -> 0 <= g r) ->
  Zsum (map g (filter p rows)) <= Zsum (map g rows).
Proof.
  induction rows as [|r l IH]; intros H; simpl; [lia|].
  assert (0 <= g r) by (apply H; now left).
  assert (Zsum (map g (filter p l)) <= Zsum (map g l))
    by (apply IH; intros q Hq; apply H; now right).
  destruct (p r); simpl; lia.
Qed.

Lemma whole_by_filter (g : record -> Z) (f : record -> num)
    (p : record -> bool) (rows : list record) :
  whole_by g f rows -> whole_by g f (filter p rows).
Proof.
  intros [H B]. split.
  - intros r Hr. apply filter_In in Hr. now apply H.
  - eapply Z.le_lt_trans; [|exact B].
    apply Zsum_filter_le. intros r Hr. now apply H.
Qed.

Lemma whole_by_perm (g : record -> Z) (f : record -> num)
    (l1 l2 : list record) :
  Permutation l1 l2 -> whole_by g f l1 -> whole_by g f l2.
Proof.
  intros P [H B]. split.
  - intros r Hr. apply H. eapply Permutation_in; [symmetry|]; eassumption.
  - rewrite <- (Zsum_perm (map g l1)); [exact B|]. now apply Permutation_map.
Qed.

(* ================================================================== *)
(** * Reading chronology resolver *)
(* ================================================================== *)

Lemma by_period_le (a b : record) : by_period a b <= 0 -> period_le a b.
Proof.
  unfold by_period, period_le.
  destruct (Z.eqb_spec (year a) (year b)); simpl; lia.
Qed.

Lemma by_period_gt (a b : record) : 0 < by_period a b -> period_le b a.
Proof.
  unfold by_period, period_le.
  destruct (Z.eqb_spec (year a) (year b)); simpl; lia.
Qed.

Lemma period_le_trans (a b c : record) :
  period_le a b -> period_le b c -> period_le a c.
Proof. unfold period_le. lia. Qed.

Lemma period_le_refl (a : record) : period_le a a.
Proof. unfold period_le. lia. Qed.

Lemma before_iff (y m : Z) (r : record) :
  before y m r = true <-> strictly_before y m r.
Proof.
  unfold before, strictly_before.
  rewrite orb_true_iff, andb_true_iff, !Z.ltb_lt, Z.eqb_eq. reflexivity.
Qed.

Lemma not_excluded_iff (excludeId : value) (r : record) :
  not_excluded excludeId r = true <-> excludeId <> Str (id r).
Proof.
  unfold not_excluded. rewrite negb_true_iff, <- not_true_iff_false.
  now rewrite strict_eq_id.
Qed.

(** The records [getPreviousReading] chooses among. *)
Lemma candidates_In (records : list record) (y m : Z) (excludeId : value)
    (r : record) :
  In r (filter (before y m)
          (sort by_period (filter (not_excluded excludeId) records)))
  <-> In r records /\ excludeId <> Str (id r) /\ strictly_before y m r.
Proof.
  rewrite filter_In, sort_In, filter_In, before_iff, not_excluded_iff.
  tauto.
Qed.

Lemma candidates_sorted (records : list record) (y m : Z) (excludeId : value) :
  StronglySorted period_le
    (filter (before y m)
       (sort by_period (filter (not_excluded excludeId) records))).
Proof.
  apply filter_sorted.
  apply sort_sorted.
  - exact by_period_le.
  - exact by_period_gt.
  - exact period_le_trans.
Qed.

(** C5.  For every record set, target period, field name and excluded
    id, [getPreviousReading] either finds no record strictly before the
    target whose id differs from the excluded one and returns [null], or
    returns the named field of such a record that is chronologically
    latest among them (no record of that kind has a later period). *)
Theorem getPreviousReading_latest :
  forall (records : list record) (y m : Z) (stateField : string)
         (excludeId : value),
    ((forall r, In r records -> excludeId <> Str (id r) ->
                ~ strictly_before y m r)
     /\ getPreviousReading records y m stateField excludeId = Null)
    \/
    (exists r,
        In r records /\ excludeId <> Str (id r) /\ strictly_before y m r
        /\ (forall r', In r' records -> excludeId <> Str (id r') ->
                       strictly_before y m r' -> period_le r' r)
        /\ getPreviousReading records y m stateField excludeId
           = prop r stateField).
Proof.
  intros records y m stateField excludeId.
  unfold getPreviousReading.
  pose proof (candidates_In records y m excludeId) as HIn.
  pose proof (candidates_sorted records y m excludeId) as HS.
  destruct (last_elem_spec
              (filter (before y m)
                 (sort by_period (filter (not_excluded excludeId) records))))
    as [[E L]|[l' [x [E L]]]]; rewrite L.
  - left. split; [|reflexivity].
    intros r Hr Hx Hb. rewrite E in HIn.
    apply (proj2 (HIn r)). auto.
  - right. exists x. rewrite E in HIn, HS.
    destruct (proj1 (HIn x)) as [Hx1 [Hx2 Hx3]];
      [apply in_or_app; right; now left|].
    repeat split; try assumption.
    intros r' Hr1 Hr2 Hr3.
    pose proof (sorted_last_max period_le l' x period_le_refl HS) as HF.
    rewrite Forall_forall in HF. apply HF, HIn. auto.
Qed.


(* ================================================================== *)
(** * Consumption calculator *)
(* ================================================================== *)

Lemma ltb_leb (x y : num) :
  PrimFloat.ltb x y = true -> PrimFloat.leb x y = true.
Proof.
  rewrite ltb_spec, leb_spec. unfold SFltb, SFleb.
  destruct (SFcompare (Prim2SF x) (Prim2SF y)) as [[]|]; auto.
Qed.

(** [Math.max(0, d)] of a number [d] is a number that is not below
    zero. *)
Lemma Math_max_zero_number (d : num) :
  is_nan d = false ->
  is_nan (Math_max zero d) = false /\ not_negative (Math_max zero d).
Proof.
  intros H. unfold Math_max, not_negative.
  change (is_nan zero) with false. rewrite H. cbn [orb].
  destruct (PrimFloat.ltb zero d) eqn:E; [split; [exact H | now apply ltb_leb]|].
  destruct (PrimFloat.ltb d zero); [split; reflexivity|].
  change (Leibniz.eqb zero neg_zero) with false. split; reflexivity.
Qed.

Lemma calcConsumption_present (currentState prevState : value) :
  prevState <> Null -> prevState <> Undefined ->
  currentState <> Null -> currentState <> Undefined ->
  currentState <> Str "" ->
  calcConsumption currentState prevState
  = Math_max (Fin 0) (sub (Number currentState) (Number prevState)).
Proof.
  intros H1 H2 H3 H4 H5. unfold calcConsumption.
  destruct (is_nullish prevState) eqn:Hp;
    [apply is_nullish_true in Hp; tauto|].
  destruct (is_nullish currentState) eqn:Hc;
    [apply is_nullish_true in Hc; tauto|].
  destruct (strict_eq currentState (Str "")) eqn:Hb;
    [apply strict_eq_blank in Hb; tauto|].
  reflexivity.
Qed.

Lemma calcConsumption_cases (currentState prevState : value) :
  calcConsumption currentState prevState = Fin 0
  \/ calcConsumption currentState prevState
     = Math_max (Fin 0) (sub (Number currentState) (Number prevState)).
Proof.
  unfold calcConsumption.
  destruct (is_nullish prevState || is_nullish currentState
            || strict_eq currentState (Str "")); auto.
Qed.

(** C2.  [calcConsumption] is [0] when the previous state is absent or
    the current state is absent or empty; otherwise it is
    [Math.max(0, current - previous)] on the numbers the two inputs
    denote, which is the difference itself, a number above zero, when
    the current number lies above the previous one.  For inputs that
    denote finite numbers the result is a number, is not below zero,
    and is [0] whenever current <= previous. *)
Theorem calcConsumption_rule :
  forall (currentState prevState : value),
    (prevState = Null \/ prevState = Undefined
     \/ currentState = Null \/ currentState = Undefined
     \/ currentState = Str "" ->
     calcConsumption currentState prevState = Fin 0)
    /\
    (prevState <> Null -> prevState <> Undefined ->
     currentState <> Null -> currentState <> Undefined ->
     currentState <> Str "" ->
     calcConsumption currentState prevState
     = Math_max (Fin 0) (sub (Number currentState) (Number prevState))
     /\ (finite (Number currentState) -> finite (Number prevState) ->
         PrimFloat.ltb (Number prevState) (Number currentState) = true ->
         calcConsumption currentState prevState
         = sub (Number currentState) (Number prevState)
         /\ PrimFloat.ltb zero (calcConsumption currentState prevState) = true))
    /\
    (finite (Number currentState) -> finite (Number prevState) ->
     is_nan (calcConsumption currentState prevState) = false
     /\ not_negative (calcConsumption currentState prevState)
     /\ (PrimFloat.leb (Number currentState) (Number prevState) = true ->
         calcConsumption currentState prevState = Fin 0)).
Proof.
  intros cur prev. split; [|split].
  - intros H. unfold calcConsumption.
    destruct H as [-> | [-> | [-> | [-> | ->]]]]; try reflexivity;
      destruct (is_nullish prev); reflexivity.
  - intros H1 H2 H3 H4 H5.
    rewrite (calcConsumption_present cur prev H1 H2 H3 H4 H5).
    split; [reflexivity|]. intros Fc Fp Hlt.
    change (Fin 0) with zero. unfold sub.
    destruct (max_zero_sub_gt _ _ Fc Fp Hlt) as [E1 E2].
    rewrite E1. split; [reflexivity | exact E2].
  - intros Fc Fp.
    destruct (calcConsumption_cases cur prev) as [E|E]; rewrite E.
    + repeat split; reflexivity.
    + change (Fin 0) with zero. unfold sub.
      destruct (Math_max_zero_number _ (sub_not_nan _ _ Fc Fp)) as [N1 N2].
      split; [exact N1|]. split; [exact N2|].
      intros Hle. now apply max_zero_sub_le.
Qed.

(** The calculator on readings in decimal notation: [150.5] against a
    previous [100.5] gives [50]. *)
Lemma calcConsumption_rule_witness :
  finite (Number (Str "150.5")) /\ finite (Number (Str "100.5"))
  /\ PrimFloat.ltb (Number (Str "100.5")) (Number (Str "150.5")) = true
  /\ calcConsumption (Str "150.5") (Str "100.5") = Fin 50
  /\ calcConsumption (Str "100.5") (Str "150.5") = Fin 0.
Proof.
  split; [reflexivity|]. split; [reflexivity|]. split; [reflexivity|].
  split.
  - pose proof (proj1 (proj2 (calcConsumption_rule (Str "150.5") (Str "100.5"))))
      as H.
    destruct H as [_ H]; try discriminate.
    destruct (H eq_refl eq_refl eq_refl) as [E _].
    rewrite E. reflexivity.
  - pose proof (proj2 (proj2 (calcConsumption_rule (Str "100.5") (Str "150.5"))))
      as H.
    destruct (H eq_refl eq_refl) as (_ & _ & E).
    apply E. reflexivity.
Defined.

(* ================================================================== *)
(** * Record reconciler *)
(* ================================================================== *)

(** ** The replacement [records.map(r => r.id !== i ? r : g(r))] *)

Section Replace.
Variable i : string.
Variable g : record -> record.
Hypothesis g_id : forall r, id (g r) = id r.

Lemma replace_other (r : record) : id r <> i -> unless_id i g r = r.
Proof.
  intros H. unfold unless_id. apply String.eqb_neq in H. now rewrite H.
Qed.

Lemma replace_same (r : record) : id r = i -> unless_id i g r = g r.
Proof.
  intros H. unfold unless_id. apply String.eqb_eq in H. now rewrite H.
Qed.

Lemma replace_id (r : record) : id (unless_id i g r) = id r.
Proof.
  unfold unless_id. destruct (String.eqb (id r) i); simpl; auto.
Qed.

Lemma replace_ids (l : list record) : map id (map (unless_id i g) l) = map id l.
Proof.
  rewrite map_map. apply map_ext. exact replace_id.
Qed.

Lemma replace_find_id (l : list record) :
  find_id i (map (unless_id i g) l) = option_map g (find_id i l).
Proof.
  unfold find_id. induction l as [|r l IH]; simpl; [reflexivity|].
  rewrite replace_id.
  destruct (String.eqb (id r) i) eqn:E; [|exact IH].
  simpl. f_equal. apply replace_same. now apply String.eqb_eq.
Qed.

Lemma replace_periods (l : list record) :
  (forall r, year (g r) = year r /\ month (g r) = month r) ->
  periods (map (unless_id i g) l) = periods l.
Proof.
  intros Hg. unfold periods. rewrite map_map. apply map_ext.
  intros r. unfold unless_id. destruct (String.eqb (id r) i); simpl; [|reflexivity].
  destruct (Hg r) as [-> ->]. reflexivity.
Qed.

Lemma replace_filter_other (p : record -> bool) (l : list record) :
  (forall r, id r = i -> p r = false) ->
  filter p (map (unless_id i g) l) = filter p l.
Proof.
  intros Hp. induction l as [|r l IH]; simpl; [reflexivity|].
  rewrite IH. destruct (String.eqb_spec (id r) i) as [E|E].
  - rewrite replace_same by assumption.
    rewrite (Hp r E), (Hp (g r)); [reflexivity|].
    now rewrite g_id.
  - now rewrite replace_other.
Qed.

Lemma replace_idem (l : list record) :
  (forall r, g (g r) = g r) -> map (unless_id i g) (map (unless_id i g) l) = map (unless_id i g) l.
Proof.
  intros Hg. rewrite map_map. apply map_ext. intros r.
  destruct (String.eqb_spec (id r) i) as [E|E].
  - rewrite (replace_same r E), replace_same; [apply Hg|].
    now rewrite g_id.
  - rewrite (replace_other r E). exact (replace_other r E).
Qed.
End Replace.

Lemma find_period_Some (y m : Z) (l : list record) (r : record) :
  find_period y m l = Some r -> In r l /\ year r = y /\ month r = m.
Proof.
  unfold find_period. intros H. apply find_some in H.
  destruct H as [H1 H2]. apply andb_true_iff in H2.
  rewrite !Z.eqb_eq in H2. tauto.
Qed.

Lemma find_period_None (y m : Z) (l : list record) :
  find_period y m l = None -> ~ In (y, m) (periods l).
Proof.
  unfold find_period, periods. intros H Hin.
  apply in_map_iff in Hin. destruct Hin as [r [E Hr]].
  pose proof (find_none _ _ H r Hr) as Hf. simpl in Hf.
  injection E as E1 E2. subst y m. now rewrite !Z.eqb_refl in Hf.
Qed.

Lemma find_period_In (y m : Z) (l : list record) :
  In (y, m) (periods l) -> exists r, find_period y m l = Some r.
Proof.
  intros H. destruct (find_period y m l) eqn:E; eauto.
  now apply find_period_None in E.
Qed.

Lemma find_id_In (r : record) (l : list record) :
  In r l -> exists q, find_id (id r) l = Some q /\ id q = id r.
Proof.
  intros H. unfold find_id.
  destruct (find (fun r0 => String.eqb (id r0) (id r)) l) as [q|] eqn:E.
  - exists q. split; [reflexivity|].
    apply find_some in E. now apply String.eqb_eq.
  - pose proof (find_none _ _ E r H) as Hf. simpl in Hf.
    now rewrite String.eqb_refl in Hf.
Qed.

Lemma NoDup_ids_eq (l : list record) (a b : record) :
  NoDup (map id l) -> In a l -> In b l -> id a = id b -> a = b.
Proof.
  induction l as [|r l IH]; simpl; [contradiction|].
  intros ND Ha Hb E. inversion ND as [|? ? Hn ND']; subst.
  destruct Ha as [->|Ha], Hb as [->|Hb]; auto.
  - exfalso. apply Hn. rewrite E. now apply in_map.
  - exfalso. apply Hn. rewrite <- E. now apply in_map.
Qed.

Lemma NoDup_ids_nth (l : list record) (j k : nat) (a b : record) :
  NoDup (map id l) ->
  nth_error l j = Some a -> nth_error l k = Some b -> id a = id b -> j = k.
Proof.
  intros ND Ha Hb E.
  apply (proj1 (NoDup_nth_error (map id l)) ND).
  - rewrite length_map. apply nth_error_Some. congruence.
  - rewrite !nth_error_map, Ha, Hb. simpl. congruence.
Qed.

(** ** [addRecord] and [updateRecord] in terms of their literals *)

Lemma addRecord_merge_eq (records : list record) (fd : Fd.t) (newId : string)
    (existing : record) :
  find_period (Fd.year fd) (Fd.month fd) records = Some existing ->
  addRecord records fd newId =
  let updated :=
    map (unless_id (id existing) (merge_literal records fd existing)) records in
  (updated, Merged (find_id (id existing) updated)).
Proof. intros H. unfold addRecord. rewrite H. reflexivity. Qed.

Lemma addRecord_insert_eq (records : list record) (fd : Fd.t) (newId : string) :
  find_period (Fd.year fd) (Fd.month fd) records = None ->
  addRecord records fd newId =
  (records ++ [insert_literal records fd newId],
   Inserted (insert_literal records fd newId)).
Proof. intros H. unfold addRecord. rewrite H. reflexivity. Qed.

Lemma updateRecord_eq (records : list record) (i : string) (fd : Fd.t) :
  updateRecord records i fd =
  map (unless_id i (update_literal records i fd)) records.
Proof. reflexivity. Qed.

Lemma merge_literal_id (records : list record) (fd : Fd.t) (e r : record) :
  id (merge_literal records fd e r) = id r.
Proof. reflexivity. Qed.

Lemma provided_or_blank (current : num) :
  provided_or (Str "") current = Num current.
Proof. reflexivity. Qed.

Lemma provided_or_given (incoming : value) (current : num) :
  incoming <> Str "" -> provided_or incoming current = incoming.
Proof.
  intros H. unfold provided_or.
  destruct (strict_eq incoming (Str "")) eqn:E; [|reflexivity].
  apply strict_eq_blank in E. contradiction.
Qed.

(** The two cases of a merge-optional field of the merged record [g q]. *)
Ltac incoming_given g :=
  let H := fresh in
  intros H; unfold g, merge_literal; simpl; now rewrite provided_or_given.

Ltac incoming_blank g :=
  let H := fresh in
  intros H; unfold g, merge_literal; simpl; now rewrite H.

(** C1, as the code has it.  When a record [existing] is found for the
    incoming period, [addRecord] answers with the merge indicator and
    the updated record; that record keeps the id; each of household
    state, car state and bojler consumption holds
    [Number(incoming) || 0] when the incoming field is anything but the
    empty text (an absent field and text that is no numeral give [0])
    and the existing record's value otherwise; the record list keeps
    its length and every record with another id is left as it was; and,
    ids being unique, the updated record sits where [existing] was,
    keeps its period, and all other positions are unchanged. *)
Theorem addRecord_merge :
  forall (records : list record) (fd : Fd.t) (newId : string)
         (existing : record),
    find_period (Fd.year fd) (Fd.month fd) records = Some existing ->
    exists updated r',
      addRecord records fd newId = (updated, Merged (Some r'))
      /\ merged (snd (addRecord records fd newId)) = true
      /\ id r' = id existing
      /\ (Fd.householdState fd <> Str "" ->
          householdState r' = or_zero (Number (Fd.householdState fd)))
      /\ (Fd.householdState fd = Str "" ->
          householdState r' = or_zero (householdState existing))
      /\ (Fd.carState fd <> Str "" ->
          carState r' = or_zero (Number (Fd.carState fd)))
      /\ (Fd.carState fd = Str "" ->
          carState r' = or_zero (carState existing))
      /\ (Fd.bojlerConsumption fd <> Str "" ->
          bojlerConsumption r' = or_zero (Number (Fd.bojlerConsumption fd)))
      /\ (Fd.bojlerConsumption fd = Str "" ->
          bojlerConsumption r' = or_zero (bojlerConsumption existing))
      /\ List.length updated = List.length records
      /\ (forall k r, nth_error records k = Some r -> id r <> id existing ->
                      nth_error updated k = Some r)
      /\ (NoDup (map id records) ->
          exists k,
            nth_error records k = Some existing
            /\ nth_error updated k = Some r'
            /\ year r' = year existing /\ month r' = month existing
            /\ forall j, j <> k -> nth_error updated j = nth_error records j).
Proof.
  intros records fd newId existing Hfind.
  rewrite (addRecord_merge_eq _ _ _ _ Hfind). cbv zeta.
  destruct (find_period_Some _ _ _ _ Hfind) as [Hin _].
  destruct (find_id_In existing records Hin) as [q [Hq Hqid]].
  set (g := merge_literal records fd existing).
  rewrite (replace_find_id (id existing) g (merge_literal_id records fd existing)).
  rewrite Hq. simpl option_map.
  exists (map (unless_id (id existing) g) records), (g q).
  split; [reflexivity|]. split; [reflexivity|].
  split; [exact Hqid|].
  split; [incoming_given g|]. split; [incoming_blank g|].
  split; [incoming_given g|]. split; [incoming_blank g|].
  split; [incoming_given g|]. split; [incoming_blank g|].
  split; [apply length_map|].
  split.
  - intros k r Hk Hne. rewrite nth_error_map, Hk. simpl.
    now rewrite replace_other.
  - intros ND.
    assert (q = existing) as ->.
    { apply (NoDup_ids_eq records); auto.
      unfold find_id in Hq. now apply find_some in Hq. }
    destruct (In_nth_error _ _ Hin) as [k Hk].
    exists k. split; [exact Hk|].
    split; [rewrite nth_error_map, Hk; simpl;
            now rewrite replace_same|].
    split; [reflexivity|]. split; [reflexivity|].
    intros j Hj. rewrite nth_error_map.
    destruct (nth_error records j) as [r|] eqn:Hr; [|reflexivity].
    simpl. destruct (String.eqb_spec (id r) (id existing)) as [E|E];
      [|now rewrite replace_other].
    exfalso. apply Hj. exact (NoDup_ids_nth records j k r existing ND Hr Hk E).
Qed.

(** Scenario C, through the theorem: February is found, the revised
    state [180] is stored, the blank bojler field keeps [40], January is
    untouched. *)
Lemma addRecord_merge_witness :
  find_period 2024 2 [jan; feb] = Some feb
  /\ exists updated r',
      addRecord [jan; feb] (household_only 2024 2 "180") "n"
      = (updated, Merged (Some r'))
      /\ id r' = "b"
      /\ householdState r' = Fin 180
      /\ bojlerConsumption r' = Fin 40
      /\ nth_error updated 0 = Some jan.
Proof.
  split; [reflexivity|].
  destruct (addRecord_merge [jan; feb] (household_only 2024 2 "180") "n" feb
              eq_refl)
    as (updated & r' & H1 & _ & H2 & H3 & _ & _ & _ & _ & H4 & _ & H5 & _).
  exists updated, r'.
  split; [exact H1|]. split; [exact H2|].
  split; [apply H3; discriminate|].
  split; [apply H4; reflexivity|].
  apply (H5 0%nat jan); [reflexivity | discriminate].
Defined.

(** C1 as stated fails for a field that is absent rather than empty.
    The submission of scenario C as the specification writes it has no
    bojler property: February's bojler value of [40] is not retained
    but overwritten by [0]. *)
Lemma absent_field_overwritten :
  Fd.bojlerConsumption household_literal = Undefined
  /\ find_period 2024 2 [jan; feb] = Some feb
  /\ bojlerConsumption feb = Fin 40
  /\ exists updated r,
      addRecord [jan; feb] household_literal "n"
      = (updated, Merged (Some r))
      /\ nth_error updated 1 = Some r
      /\ id r = "b"
      /\ householdState r = Fin 180
      /\ bojlerConsumption r = Fin 0
      /\ bojlerConsumption r <> bojlerConsumption feb.
Proof.
  split; [reflexivity|]. split; [reflexivity|]. split; [reflexivity|].
  eexists. eexists. split; [reflexivity|].
  repeat split. float_neq.
Qed.

Example scenario_A :
  addRecord [] (household_only 2024 1 "100") "a" = ([jan], Inserted jan).
Proof. reflexivity. Qed.

Example scenario_B :
  exists r, addRecord [jan] (household_only 2024 2 "150") "b"
            = ([jan; r], Inserted r)
            /\ householdConsumption r = Fin 50.
Proof. eexists. split; reflexivity. Qed.

Example scenario_C :
  exists r, addRecord [jan; feb] (household_only 2024 2 "180") "n"
            = ([jan; r], Merged (Some r))
            /\ id r = "b" /\ householdConsumption r = Fin 80.
Proof. eexists. repeat split; reflexivity. Qed.

Example scenario_D :
  exists r, snd (addRecord [jan; feb] with_override "d") = Inserted r
            /\ householdConsumption r = Fin 25.
Proof. eexists. split; reflexivity. Qed.

(** ** Every submission answers with a record *)

Lemma addRecord_outcome (records : list record) (fd : Fd.t) (newId : string) :
  (exists existing q,
      find_period (Fd.year fd) (Fd.month fd) records = Some existing
      /\ find_id (id existing) records = Some q
      /\ outcome_record (snd (addRecord records fd newId))
         = Some (merge_literal records fd existing q))
  \/ (find_period (Fd.year fd) (Fd.month fd) records = None
      /\ outcome_record (snd (addRecord records fd newId))
         = Some (insert_literal records fd newId)).
Proof.
  destruct (find_period (Fd.year fd) (Fd.month fd) records) as [e|] eqn:Hf.
  - left. destruct (find_period_Some _ _ _ _ Hf) as [Hin _].
    destruct (find_id_In e records Hin) as [q [Hq _]].
    exists e, q. split; [reflexivity|]. split; [exact Hq|].
    rewrite (addRecord_merge_eq _ _ _ _ Hf). cbv zeta. simpl.
    rewrite (replace_find_id (id e) (merge_literal records fd e)
               (merge_literal_id records fd e)).
    now rewrite Hq.
  - right. split; [reflexivity|].
    now rewrite (addRecord_insert_eq _ _ _ Hf).
Qed.

(** The record a submission answers with is in the record set it
    leaves. *)
Lemma addRecord_answer_In (records : list record) (fd : Fd.t) (newId : string)
    (r : record) :
  outcome_record (snd (addRecord records fd newId)) = Some r ->
  In r (fst (addRecord records fd newId)).
Proof.
  destruct (find_period (Fd.year fd) (Fd.month fd) records) as [e|] eqn:Hf.
  - rewrite (addRecord_merge_eq _ _ _ _ Hf). cbv zeta. simpl.
    unfold find_id. intros H. now apply find_some in H.
  - rewrite (addRecord_insert_eq _ _ _ Hf). simpl. intros H.
    injection H as <-. apply in_or_app. right. now left.
Qed.

Lemma consumption_override (override state prev : value) :
  override <> Null -> override <> Undefined ->
  consumption override state prev = Number override.
Proof.
  intros H1 H2. unfold consumption.
  destruct override; simpl; congruence.
Qed.

(** C7.  Every submission answers with a record, which is in the
    record set it leaves, and whenever an override for household (for
    car) is supplied, that record's household (car) consumption is the
    override coerced to a number, whatever the states are. *)
Theorem override_bypass :
  forall (records : list record) (fd : Fd.t) (newId : string),
  exists r,
    outcome_record (snd (addRecord records fd newId)) = Some r
    /\ In r (fst (addRecord records fd newId))
    /\ (Fd.householdConsumptionOverride fd <> Null ->
        Fd.householdConsumptionOverride fd <> Undefined ->
        householdConsumption r = Number (Fd.householdConsumptionOverride fd))
    /\ (Fd.carConsumptionOverride fd <> Null ->
        Fd.carConsumptionOverride fd <> Undefined ->
        carConsumption r = Number (Fd.carConsumptionOverride fd)).
Proof.
  intros records fd newId.
  destruct (addRecord_outcome records fd newId)
    as [(e & q & _ & _ & H)|[_ H]]; eexists;
    (split; [exact H|]);
    (split; [exact (addRecord_answer_In _ _ _ _ H)|]);
    split; intros H1 H2; simpl;
    now apply consumption_override.
Qed.

(** Scenario D through the theorem: override [25] beside state [999];
    and an override in decimal notation, [25.5] beside state [150.5]. *)
Lemma override_bypass_witness :
  Fd.householdConsumptionOverride with_override <> Null
  /\ Fd.householdConsumptionOverride with_override <> Undefined
  /\ (exists r,
        outcome_record (snd (addRecord [jan; feb] with_override "d")) = Some r
        /\ householdConsumption r = Fin 25)
  /\ (exists r,
        outcome_record (snd (addRecord [jan; feb] decimal_form "d")) = Some r
        /\ householdConsumption r = 25.5%float).
Proof.
  split; [discriminate|]. split; [discriminate|]. split.
  - destruct (override_bypass [jan; feb] with_override "d")
      as (r & H1 & _ & H2 & _).
    exists r. split; [exact H1|]. apply H2; discriminate.
  - destruct (override_bypass [jan; feb] decimal_form "d")
      as (r & H1 & _ & H2 & _).
    exists r. split; [exact H1|]. rewrite H2 by discriminate. reflexivity.
Defined.

(* ================================================================== *)
(** * The total of a record *)
(* ================================================================== *)

Lemma merge_literal_total (records : list record) (fd : Fd.t) (e r : record) :
  total_ok (merge_literal records fd e r).
Proof. reflexivity. Qed.

Lemma insert_literal_total (records : list record) (fd : Fd.t) (newId : string) :
  total_ok (insert_literal records fd newId).
Proof. reflexivity. Qed.

Lemma update_literal_total (records : list record) (i : string) (fd : Fd.t)
    (r : record) :
  total_ok (update_literal records i fd r).
Proof. reflexivity. Qed.

Lemma replace_total (i : string) (g : record -> record) (l : list record) :
  (forall r, total_ok (g r)) ->
  Forall total_ok l ->
  Forall total_ok (map (unless_id i g) l).
Proof.
  intros Hg Hl. apply Forall_map.
  eapply Forall_impl; [|exact Hl].
  intros r Hr. unfold unless_id. destruct (String.eqb (id r) i); simpl; auto.
Qed.

(** C3, as the code has it.  If every record's total is the sum of its
    household and car consumption, that is still so after a submission
    (insert or merge), an update and a delete; an import stores the
    document as it is, so the equation holds after it exactly when it
    holds in the document. *)
Theorem total_preserved :
  forall (records : list record),
    Forall total_ok records ->
    (forall fd newId, Forall total_ok (fst (addRecord records fd newId)))
    /\ (forall i fd, Forall total_ok (updateRecord records i fd))
    /\ (forall i, Forall total_ok (deleteRecord records i))
    /\ (forall data,
           Forall total_ok (importData records data) <-> Forall total_ok data).
Proof.
  intros records Hall. repeat split.
  - intros fd newId.
    destruct (find_period (Fd.year fd) (Fd.month fd) records) as [e|] eqn:Hf.
    + rewrite (addRecord_merge_eq _ _ _ _ Hf). cbv zeta. simpl.
      apply replace_total; [apply merge_literal_total | exact Hall].
    + rewrite (addRecord_insert_eq _ _ _ Hf). simpl.
      apply Forall_app. split; [exact Hall|].
      constructor; [apply insert_literal_total | constructor].
  - intros i fd. rewrite updateRecord_eq.
    apply replace_total; [apply update_literal_total | exact Hall].
  - intros i. unfold deleteRecord.
    rewrite Forall_forall in *. intros r Hr.
    apply filter_In in Hr. now apply Hall.
  - auto.
  - auto.
Qed.

Lemma total_preserved_witness :
  Forall total_ok [jan; feb]
  /\ Forall total_ok
       (fst (addRecord [jan; feb] (household_only 2024 2 "180") "n")).
Proof.
  assert (H : Forall total_ok [jan; feb])
    by (repeat constructor).
  split; [exact H|].
  apply (proj1 (total_preserved [jan; feb] H)).
Defined.

(** The record a submission answers with has a recomputed total,
    whatever the record set looked like. *)
Lemma addRecord_total (records : list record) (fd : Fd.t) (newId : string)
    (r : record) :
  outcome_record (snd (addRecord records fd newId)) = Some r -> total_ok r.
Proof.
  destruct (addRecord_outcome records fd newId)
    as [(e & q & _ & _ & H)|[_ H]]; rewrite H; intros E;
    injection E as <-; reflexivity.
Qed.

(** C3 as stated fails for import: the imported record keeps the total
    [99] beside consumptions [1] and [2]. *)
Lemma import_keeps_odd_total :
  In odd_total (importData [jan] [odd_total])
  /\ totalConsumption odd_total = Fin 99
  /\ add (householdConsumption odd_total) (carConsumption odd_total) = Fin 3
  /\ ~ Forall total_ok (importData [jan] [odd_total]).
Proof.
  split; [now left|]. split; [reflexivity|]. split; [reflexivity|].
  intros H. inversion H as [|? ? H1 _]; subst.
  unfold total_ok in H1. discriminate H1.
Qed.

(* ================================================================== *)
(** * One record per period *)
(* ================================================================== *)

Lemma addRecord_periods_merge (records : list record) (fd : Fd.t)
    (newId : string) :
  In (Fd.year fd, Fd.month fd) (periods records) ->
  merged (snd (addRecord records fd newId)) = true
  /\ periods (fst (addRecord records fd newId)) = periods records.
Proof.
  intros Hin. destruct (find_period_In _ _ _ Hin) as [e Hf].
  rewrite (addRecord_merge_eq _ _ _ _ Hf). cbv zeta. simpl.
  split; [reflexivity|].
  apply replace_periods. intros r. split; reflexivity.
Qed.

Lemma addRecord_periods_insert (records : list record) (fd : Fd.t)
    (newId : string) :
  ~ In (Fd.year fd, Fd.month fd) (periods records) ->
  merged (snd (addRecord records fd newId)) = false
  /\ periods (fst (addRecord records fd newId))
     = periods records ++ [(Fd.year fd, Fd.month fd)].
Proof.
  intros Hnot.
  destruct (find_period (Fd.year fd) (Fd.month fd) records) as [e|] eqn:Hf.
  - exfalso. apply Hnot.
    destruct (find_period_Some _ _ _ _ Hf) as (Hin & <- & <-).
    apply (in_map (fun r => (year r, month r))). exact Hin.
  - rewrite (addRecord_insert_eq _ _ _ Hf). simpl.
    split; [reflexivity|]. unfold periods. now rewrite map_app.
Qed.

Lemma addRecord_unique (records : list record) (fd : Fd.t) (newId : string) :
  NoDup (periods records) ->
  NoDup (periods (fst (addRecord records fd newId))).
Proof.
  intros ND.
  assert (Hdec : In (Fd.year fd, Fd.month fd) (periods records)
                 \/ ~ In (Fd.year fd, Fd.month fd) (periods records)).
  { destruct (find_period (Fd.year fd) (Fd.month fd) records) as [e|] eqn:Hf.
    - left. destruct (find_period_Some _ _ _ _ Hf) as (Hin & <- & <-).
      apply (in_map (fun r => (year r, month r))). exact Hin.
    - right. now apply find_period_None. }
  destruct Hdec as [Hin|Hnot].
  - destruct (addRecord_periods_merge records fd newId Hin) as [_ ->].
    exact ND.
  - destruct (addRecord_periods_insert records fd newId Hnot) as [_ ->].
    apply NoDup_app; [exact ND | repeat constructor; intros [] |].
    intros p Hp [<-|[]]. contradiction.
Qed.

(** C4.  Starting from a record set with one record per period, any
    run of submissions leaves one record per period; and a submission
    for a period that already has a record is answered with the merge
    indicator and adds no period. *)
Theorem one_record_per_period :
  forall (subs : list (Fd.t * string)) (records : list record),
    NoDup (periods records) ->
    NoDup (periods (submit_all subs records))
    /\ (forall fd newId,
           In (Fd.year fd, Fd.month fd) (periods records) ->
           merged (snd (addRecord records fd newId)) = true
           /\ periods (fst (addRecord records fd newId)) = periods records).
Proof.
  intros subs records ND. split.
  - revert records ND. unfold submit_all.
    induction subs as [|[fd newId] subs IH]; intros records ND; simpl.
    + exact ND.
    + apply IH. now apply addRecord_unique.
  - intros fd newId. apply addRecord_periods_merge.
Qed.

(** February submitted twice on top of January and February. *)
Lemma one_record_per_period_witness :
  NoDup (periods [jan; feb])
  /\ NoDup (periods
       (submit_all [(household_only 2024 2 "180", "n");
                    (household_only 2024 3 "200", "m");
                    (household_only 2024 2 "190", "k")] [jan; feb])).
Proof.
  assert (H : NoDup (periods [jan; feb])).
  { repeat constructor; simpl; intuition discriminate. }
  split; [exact H|].
  apply (proj1 (one_record_per_period _ [jan; feb] H)).
Defined.

(** C10.  [updateRecord] does not keep periods unique: moving January
    onto February's period leaves two records for February 2024. *)
Theorem updateRecord_duplicates_period :
  exists (records : list record) (i : string) (fd : Fd.t),
    NoDup (periods records)
    /\ periods records = [(2024, 1); (2024, 2)]
    /\ periods (updateRecord records i fd) = [(2024, 2); (2024, 2)]
    /\ ~ NoDup (periods (updateRecord records i fd)).
Proof.
  exists [jan; feb], "a", to_february.
  split; [repeat constructor; simpl; intuition discriminate|].
  split; [reflexivity|]. split; [reflexivity|].
  intros H. inversion H as [|? ? Hn _]; subst. apply Hn. now left.
Qed.

(* ================================================================== *)
(** * Input that is not a number *)
(* ================================================================== *)

Lemma stored_blank_or_invalid (v : value) :
  invalid_number v -> or_zero (Number v) = Fin 0.
Proof. intros [->| ->]; reflexivity. Qed.

(** C9, as the code has it.  Every submission answers with a record,
    which is in the record set it leaves and whose state and bojler
    fields are numbers, never [NaN].  On the insert path an empty or
    non-numeric state or bojler input is stored as zero.  On the merge
    path the empty text stands for "not provided" in all three fields,
    bojler included (the existing value is kept), and a non-empty
    non-numeric input is stored as zero. *)
Theorem invalid_input_handled :
  forall (records : list record) (fd : Fd.t) (newId : string),
  exists r,
    outcome_record (snd (addRecord records fd newId)) = Some r
    /\ In r (fst (addRecord records fd newId))
    /\ (is_nan (householdState r) = false /\ is_nan (carState r) = false
        /\ is_nan (bojlerConsumption r) = false)
    /\ (find_period (Fd.year fd) (Fd.month fd) records = None ->
        (invalid_number (Fd.householdState fd) -> householdState r = Fin 0)
        /\ (invalid_number (Fd.carState fd) -> carState r = Fin 0)
        /\ (invalid_number (Fd.bojlerConsumption fd) ->
            bojlerConsumption r = Fin 0))
    /\ (forall existing,
           find_period (Fd.year fd) (Fd.month fd) records = Some existing ->
           (Fd.householdState fd = Str "" ->
            householdState r = or_zero (householdState existing))
           /\ (Fd.carState fd = Str "" ->
               carState r = or_zero (carState existing))
           /\ (Fd.bojlerConsumption fd = Str "" ->
               bojlerConsumption r = or_zero (bojlerConsumption existing))
           /\ (Fd.householdState fd <> Str "" ->
               Number (Fd.householdState fd) = NaN ->
               householdState r = Fin 0)
           /\ (Fd.carState fd <> Str "" -> Number (Fd.carState fd) = NaN ->
               carState r = Fin 0)
           /\ (Fd.bojlerConsumption fd <> Str "" ->
               Number (Fd.bojlerConsumption fd) = NaN ->
               bojlerConsumption r = Fin 0)).
Proof.
  intros records fd newId.
  destruct (addRecord_outcome records fd newId)
    as [(e & q & Hf & _ & H)|[Hf H]]; eexists;
    (split; [exact H|]);
    (split; [exact (addRecord_answer_In _ _ _ _ H)|]).
  - split; [simpl; repeat split; apply or_zero_not_nan|].
    split; [rewrite Hf; discriminate|].
    intros existing E. rewrite Hf in E. injection E as <-. simpl.
    repeat split.
    + intros ->. reflexivity.
    + intros ->. reflexivity.
    + intros ->. reflexivity.
    + intros H1 H2. rewrite provided_or_given, H2 by assumption. reflexivity.
    + intros H1 H2. rewrite provided_or_given, H2 by assumption. reflexivity.
    + intros H1 H2. rewrite provided_or_given, H2 by assumption. reflexivity.
  - split; [simpl; repeat split; apply or_zero_not_nan|].
    split; [|intros existing E; rewrite Hf in E; discriminate].
    intros _. simpl. repeat split; apply stored_blank_or_invalid.
Qed.

(** A non-numeric household state on the insert path is stored as 0. *)
Lemma invalid_input_handled_witness :
  find_period 2024 2 [jan] = None
  /\ invalid_number (Fd.householdState garbled_state)
  /\ exists r,
      outcome_record (snd (addRecord [jan] garbled_state "g")) = Some r
      /\ householdState r = Fin 0.
Proof.
  split; [reflexivity|].
  assert (Hi : invalid_number (Fd.householdState garbled_state))
    by (right; reflexivity).
  split; [exact Hi|].
  destruct (invalid_input_handled [jan] garbled_state "g")
    as (r & H1 & _ & _ & H2 & _).
  exists r. split; [exact H1|].
  destruct (H2 eq_refl) as [H3 _]. exact (H3 Hi).
Defined.

(** C9 as stated fails on the merge path: the bojler field left empty
    is not coerced to zero, February keeps its [40]. *)
Lemma blank_bojler_kept_on_merge :
  Fd.bojlerConsumption (household_only 2024 2 "180") = Str ""
  /\ exists r,
      outcome_record
        (snd (addRecord [jan; feb] (household_only 2024 2 "180") "n")) = Some r
      /\ bojlerConsumption r = Fin 40
      /\ bojlerConsumption r <> Fin 0.
Proof.
  split; [reflexivity|]. eexists. split; [reflexivity|].
  split; [reflexivity | discriminate].
Qed.

(** Nor is non-numeric text in a state field read as "not provided" on
    the merge path: February's state [150] is replaced by [0], and the
    consumption derived from the text is [NaN]. *)
Example garbled_state_on_merge :
  exists r,
    outcome_record (snd (addRecord [jan; feb] garbled_state "n")) = Some r
    /\ householdState feb = Fin 150
    /\ householdState r = Fin 0
    /\ householdConsumption r = NaN.
Proof. eexists. repeat split; reflexivity. Qed.

(* ================================================================== *)
(** * Submitting twice *)
(* ================================================================== *)

Lemma getPreviousReading_same_pool (r1 r2 : list record) (e1 e2 : value)
    (y m : Z) (stateField : string) :
  filter (not_excluded e1) r1 = filter (not_excluded e2) r2 ->
  getPreviousReading r1 y m stateField e1
  = getPreviousReading r2 y m stateField e2.
Proof. intros H. unfold getPreviousReading. now rewrite H. Qed.

Lemma not_excluded_Null (l : list record) : filter (not_excluded Null) l = l.
Proof.
  induction l as [|r l IH]; simpl; [reflexivity | now rewrite IH].
Qed.

Lemma not_excluded_fresh (i : string) (l : list record) :
  ~ In i (map id l) -> filter (not_excluded (Str i)) l = l.
Proof.
  induction l as [|r l IH]; simpl; intros H; [reflexivity|].
  unfold not_excluded at 1. simpl.
  destruct (String.eqb_spec (id r) i) as [E|E]; [tauto|].
  simpl. rewrite IH; tauto.
Qed.

Lemma not_excluded_self (r : record) : not_excluded (Str (id r)) r = false.
Proof. unfold not_excluded. simpl. now rewrite String.eqb_refl. Qed.

Lemma find_period_map (f : record -> record) (y m : Z) (l : list record) :
  (forall r, year (f r) = year r /\ month (f r) = month r) ->
  find_period y m (map f l) = option_map f (find_period y m l).
Proof.
  intros Hf. unfold find_period.
  induction l as [|r l IH]; simpl; [reflexivity|].
  destruct (Hf r) as [-> ->].
  destruct ((year r =? y) && (month r =? m)); [reflexivity | exact IH].
Qed.

Lemma find_period_app_new (y m : Z) (l : list record) (r : record) :
  find_period y m l = None -> year r = y -> month r = m ->
  find_period y m (l ++ [r]) = Some r.
Proof.
  unfold find_period. intros H <- <-.
  induction l as [|a l IH]; simpl in *.
  - now rewrite !Z.eqb_refl.
  - destruct ((year a =? year r) && (month a =? month r));
      [discriminate | now apply IH].
Qed.

Lemma find_id_app_new (l : list record) (r : record) :
  ~ In (id r) (map id l) -> find_id (id r) (l ++ [r]) = Some r.
Proof.
  unfold find_id. induction l as [|a l IH]; simpl; intros H.
  - now rewrite String.eqb_refl.
  - destruct (String.eqb_spec (id a) (id r)) as [E|E]; [tauto|].
    apply IH. tauto.
Qed.

Lemma replace_fresh (i : string) (g : record -> record) (l : list record) :
  ~ In i (map id l) ->
  map (unless_id i g) l = l.
Proof.
  induction l as [|a l IH]; simpl; intros H; [reflexivity|].
  unfold unless_id at 1.
  destruct (String.eqb_spec (id a) i) as [E|E]; [tauto|].
  simpl. rewrite IH; tauto.
Qed.

(** The resolver answers [null] or with a field of one of the records. *)
Lemma getPreviousReading_cases (records : list record) (y m : Z)
    (stateField : string) (excludeId : value) :
  getPreviousReading records y m stateField excludeId = Null
  \/ exists r, In r records
               /\ getPreviousReading records y m stateField excludeId
                  = prop r stateField.
Proof.
  unfold getPreviousReading.
  destruct (last_elem_spec
              (filter (before y m)
                 (sort by_period (filter (not_excluded excludeId) records))))
    as [[_ L]|[l' [x [E L]]]]; rewrite L; [now left|].
  right. exists x. split; [|reflexivity].
  apply (candidates_In records y m excludeId x).
  rewrite E. apply in_or_app. right. now left.
Qed.

(** A previous reading of a state field is [null] or a non-negative
    number, as soon as the stored readings are. *)
Lemma previous_reading_ok (records : list record) (y m : Z)
    (stateField : string) (excludeId : value) :
  Forall readings_ok records ->
  stateField = "householdState" \/ stateField = "carState" ->
  getPreviousReading records y m stateField excludeId = Null
  \/ exists p, getPreviousReading records y m stateField excludeId = Num p
               /\ not_negative p.
Proof.
  intros Hok Hfield.
  destruct (getPreviousReading_cases records y m stateField excludeId)
    as [H|(r & Hin & H)]; [now left|].
  right. rewrite H. rewrite Forall_forall in Hok.
  destruct (Hok r Hin) as [Hh Hc].
  destruct Hfield as [-> | ->]; unfold prop; simpl; eauto.
Qed.

(** Against a previous reading that is absent or not below zero, a
    reading of zero gives the consumption a blank field gives. *)
Lemma consumption_zero_blank (override prev : value) (z : num) :
  (exists s, Prim2SF z = S754_zero s) ->
  (prev = Null \/ exists p, prev = Num p /\ not_negative p) ->
  consumption override (Num z) prev = consumption override (Str "") prev.
Proof.
  intros Hz H. unfold consumption.
  destruct (negb (is_nullish override)); [reflexivity|].
  destruct H as [->|(p & -> & Hp)]; [reflexivity|].
  unfold calcConsumption. simpl. change (Fin 0) with zero.
  now apply max_zero_sub_from_zero.
Qed.

(** Deriving from a blank field and from the zero stored for it agree
    when the previous reading is not negative. *)
Lemma consumption_blank_zero (override prev : value) :
  (prev = Null \/ exists p, prev = Num p /\ not_negative p) ->
  consumption override (Num (Fin 0)) prev = consumption override (Str "") prev.
Proof.
  apply consumption_zero_blank. exists false. reflexivity.
Qed.

(** Deriving from a stored reading and from what the store writes for
    it ([x || 0]) agree when the readings are not negative. *)
Lemma consumption_stored (override prev : value) (current : num) :
  not_negative current ->
  (prev = Null \/ exists p, prev = Num p /\ not_negative p) ->
  consumption override (Num (or_zero current)) prev
  = consumption override (Num current) prev.
Proof.
  intros Hc Hp. unfold or_zero.
  destruct (falsy current) eqn:E; [|reflexivity].
  destruct (falsy_cases current E) as [N|Z].
  - exfalso. destruct (not_negative_cases current Hc)
      as [[t H]|[(m & e & H)|H]]; congruence.
  - rewrite (consumption_zero_blank override prev current Z Hp).
    apply consumption_blank_zero. exact Hp.
Qed.

Lemma consumption_again (override incoming prev : value) (current : num) :
  not_negative current ->
  (prev = Null \/ exists p, prev = Num p /\ not_negative p) ->
  consumption override
    (provided_or incoming (or_zero (Number (provided_or incoming current))))
    prev
  = consumption override (provided_or incoming current) prev.
Proof.
  intros Hc Hp. unfold provided_or.
  destruct (negb (strict_eq incoming (Str ""))); [reflexivity|].
  simpl Number. now apply consumption_stored.
Qed.

Lemma stored_twice (incoming : value) (current : num) :
  or_zero (Number
    (provided_or incoming (or_zero (Number (provided_or incoming current)))))
  = or_zero (Number (provided_or incoming current)).
Proof.
  unfold provided_or.
  destruct (negb (strict_eq incoming (Str ""))); [reflexivity|].
  simpl. apply or_zero_idem.
Qed.

Lemma merge_pool (records : list record) (fd : Fd.t) (e : record) :
  filter (not_excluded (Str (id e)))
    (map (unless_id (id e) (merge_literal records fd e)) records)
  = filter (not_excluded (Str (id e))) records.
Proof.
  apply replace_filter_other.
  - apply merge_literal_id.
  - intros r E. unfold not_excluded. simpl. rewrite E.
    now rewrite String.eqb_refl.
Qed.

(** The literal of a second merge is the literal of the first. *)
Lemma merge_literal_again (records : list record) (fd : Fd.t) (e r : record) :
  Forall readings_ok records -> readings_ok e ->
  merge_literal
    (map (unless_id (id e) (merge_literal records fd e)) records)
    fd (merge_literal records fd e e) r
  = merge_literal records fd e r.
Proof.
  intros Hok [Hh Hc]. unfold merge_literal at 1. cbv zeta.
  change (id (merge_literal records fd e e)) with (id e).
  change (householdState (merge_literal records fd e e))
    with (or_zero (Number (provided_or (Fd.householdState fd) (householdState e)))).
  change (carState (merge_literal records fd e e))
    with (or_zero (Number (provided_or (Fd.carState fd) (carState e)))).
  change (bojlerConsumption (merge_literal records fd e e))
    with (or_zero (Number (provided_or (Fd.bojlerConsumption fd)
                                       (bojlerConsumption e)))).
  rewrite !stored_twice.
  rewrite (getPreviousReading_same_pool _ records _ (Str (id e)) _ _
             "householdState" (merge_pool records fd e)).
  rewrite (getPreviousReading_same_pool _ records _ (Str (id e)) _ _
             "carState" (merge_pool records fd e)).
  rewrite (consumption_again (Fd.householdConsumptionOverride fd)
             (Fd.householdState fd) _ (householdState e) Hh)
    by (apply previous_reading_ok; auto).
  rewrite (consumption_again (Fd.carConsumptionOverride fd)
             (Fd.carState fd) _ (carState e) Hc)
    by (apply previous_reading_ok; auto).
  reflexivity.
Qed.

(** The literal of a merge into the record just inserted is that
    record. *)
Lemma merge_literal_after_insert (records : list record) (fd : Fd.t)
    (newId : string) :
  Forall readings_ok records ->
  ~ In newId (map id records) ->
  let rec := insert_literal records fd newId in
  merge_literal (records ++ [rec]) fd rec rec = rec.
Proof.
  intros Hok Hfresh rec.
  assert (Hpool : filter (not_excluded (Str (id rec))) (records ++ [rec])
                  = filter (not_excluded Null) records).
  { rewrite filter_app.
    change (filter (not_excluded (Str (id rec))) [rec])
      with (if not_excluded (Str (id rec)) rec then [rec] else []).
    rewrite not_excluded_self, app_nil_r, not_excluded_Null.
    now apply not_excluded_fresh. }
  unfold merge_literal. cbv zeta.
  rewrite (getPreviousReading_same_pool _ records _ Null _ _
             "householdState" Hpool).
  rewrite (getPreviousReading_same_pool _ records _ Null _ _
             "carState" Hpool).
  change (Fd.year fd) with (year rec). change (Fd.month fd) with (month rec).
  assert (HcH : consumption (Fd.householdConsumptionOverride fd)
                  (provided_or (Fd.householdState fd) (householdState rec))
                  (getPreviousReading records (year rec) (month rec)
                     "householdState" Null)
                = householdConsumption rec).
  { unfold provided_or.
    destruct (strict_eq (Fd.householdState fd) (Str "")) eqn:E;
      [|reflexivity].
    apply strict_eq_blank in E. simpl. rewrite E. simpl.
    apply consumption_blank_zero.
    apply previous_reading_ok; auto. }
  assert (HcC : consumption (Fd.carConsumptionOverride fd)
                  (provided_or (Fd.carState fd) (carState rec))
                  (getPreviousReading records (year rec) (month rec)
                     "carState" Null)
                = carConsumption rec).
  { unfold provided_or.
    destruct (strict_eq (Fd.carState fd) (Str "")) eqn:E; [|reflexivity].
    apply strict_eq_blank in E. simpl. rewrite E. simpl.
    apply consumption_blank_zero.
    apply previous_reading_ok; auto. }
  rewrite HcH, HcC.
  assert (Hst : forall v, or_zero (Number (provided_or v (or_zero (Number v))))
                          = or_zero (Number v)).
  { intros v. unfold provided_or.
    destruct (negb (strict_eq v (Str ""))); [reflexivity|].
    simpl. apply or_zero_idem. }
  change (householdState rec) with (or_zero (Number (Fd.householdState fd))).
  change (carState rec) with (or_zero (Number (Fd.carState fd))).
  change (bojlerConsumption rec)
    with (or_zero (Number (Fd.bojlerConsumption fd))).
  rewrite !Hst. reflexivity.
Qed.

(** C6.  On a record set whose readings are non-negative numbers, and
    with a fresh id for the record an insert may create, submitting the
    same form a second time changes nothing: the record set after the
    second submission is the one after the first, the second answer
    carries the same record as the first, and it is a merge. *)
Theorem submit_twice :
  forall (records : list record) (fd : Fd.t) (id1 id2 : string),
    Forall readings_ok records ->
    ~ In id1 (map id records) ->
    let once := addRecord records fd id1 in
    let twice := addRecord (fst once) fd id2 in
    fst twice = fst once
    /\ outcome_record (snd twice) = outcome_record (snd once)
    /\ merged (snd twice) = true.
Proof.
  intros records fd id1 id2 Hok Hfresh once twice. subst once twice.
  destruct (find_period (Fd.year fd) (Fd.month fd) records) as [e|] eqn:Hf.
  - (* merge, then merge again *)
    destruct (find_period_Some _ _ _ _ Hf) as [Hin _].
    pose proof (proj1 (Forall_forall _ _) Hok e Hin) as He.
    rewrite (addRecord_merge_eq _ _ _ _ Hf). cbv zeta. simpl fst. simpl snd.
    set (f := unless_id (id e) (merge_literal records fd e)).
    assert (Hf2 : find_period (Fd.year fd) (Fd.month fd) (map f records)
                  = Some (merge_literal records fd e e)).
    { rewrite find_period_map, Hf.
      - simpl. unfold f. now rewrite replace_same.
      - intros r. unfold f, unless_id.
        destruct (String.eqb (id r) (id e)); simpl; split; reflexivity. }
    rewrite (addRecord_merge_eq _ _ _ _ Hf2). cbv zeta. simpl fst. simpl snd.
    change (id (merge_literal records fd e e)) with (id e).
    assert (Hmap : map (unless_id (id e)
                          (merge_literal (map f records) fd
                             (merge_literal records fd e e)))
                     (map f records)
                   = map f records).
    { transitivity (map f (map f records)).
      - apply map_ext. intros r. unfold f, unless_id.
        destruct (String.eqb (id r) (id e)); cbn [negb]; [|reflexivity].
        apply merge_literal_again; assumption.
      - exact (replace_idem (id e) (merge_literal records fd e)
                 (merge_literal_id records fd e) records
                 (fun r => eq_refl)). }
    rewrite Hmap. repeat split.
  - (* insert, then merge into the new record *)
    rewrite (addRecord_insert_eq _ _ _ Hf). simpl fst. simpl snd.
    set (rec := insert_literal records fd id1).
    assert (Hf2 : find_period (Fd.year fd) (Fd.month fd) (records ++ [rec])
                  = Some rec)
      by (now apply find_period_app_new).
    rewrite (addRecord_merge_eq _ _ _ _ Hf2). cbv zeta. simpl fst. simpl snd.
    change (id rec) with id1.
    assert (Hmap : map (unless_id id1 (merge_literal (records ++ [rec]) fd rec))
                     (records ++ [rec])
                   = records ++ [rec]).
    { rewrite map_app, replace_fresh by exact Hfresh.
      cbn [map]. rewrite replace_same by reflexivity.
      f_equal. f_equal.
      exact (merge_literal_after_insert records fd id1 Hok Hfresh). }
    rewrite Hmap. split; [reflexivity|]. split; [|reflexivity].
    simpl. exact (find_id_app_new records rec Hfresh).
Qed.

(** Bojler for February submitted twice after January. *)
Lemma submit_twice_witness :
  Forall readings_ok [jan]
  /\ ~ In "n" (map id [jan])
  /\ fst (addRecord (fst (addRecord [jan] (bojler_only 2024 2 "10") "n"))
            (bojler_only 2024 2 "10") "k")
     = fst (addRecord [jan] (bojler_only 2024 2 "10") "n").
Proof.
  assert (H1 : Forall readings_ok [jan]).
  { repeat constructor. }
  assert (H2 : ~ In "n" (map id [jan])).
  { simpl. intros [H|[]]. discriminate H. }
  split; [exact H1|]. split; [exact H2|].
  apply (proj1 (submit_twice [jan] (bojler_only 2024 2 "10") "n" "k" H1 H2)).
Defined.

(** C6 as stated fails when an earlier reading is below zero and the
    state is left blank: the insert derives [0] from the blank field,
    the merge that follows derives [5] from the zero stored for it. *)
Lemma submit_twice_differs :
  exists r1 r2,
    outcome_record (snd (addRecord [below_zero] (bojler_only 2024 2 "10") "n"))
    = Some r1
    /\ outcome_record
         (snd (addRecord
                 (fst (addRecord [below_zero] (bojler_only 2024 2 "10") "n"))
                 (bojler_only 2024 2 "10") "k"))
       = Some r2
    /\ householdConsumption r1 = Fin 0
    /\ householdConsumption r2 = Fin 5
    /\ r1 <> r2.
Proof.
  eexists. eexists. split; [reflexivity|]. split; [reflexivity|].
  split; [reflexivity|]. split; [reflexivity|]. discriminate.
Qed.

(* ================================================================== *)
(** * Month-by-month comparison *)
(* ================================================================== *)

(** ** The default sort on four-digit years *)

Lemma ToString_four_chars_check :
  forallb (fun k => String.eqb (ToString (1000 + Z.of_nat k))
                               (four_chars (1000 + Z.of_nat k)))
    (seq 0 (Z.to_nat 9000)) = true.
Proof. vm_compute. reflexivity. Qed.

Lemma ToString_four_chars (z : Z) :
  four_digit z -> ToString z = four_chars z.
Proof.
  unfold four_digit. intros H. pose proof ToString_four_chars_check as C.
  rewrite forallb_forall in C.
  specialize (C (Z.to_nat (z - 1000))).
  replace (1000 + Z.of_nat (Z.to_nat (z - 1000))) with z in C by lia.
  apply String.eqb_eq, C, in_seq. lia.
Qed.

Lemma digit_char_compare (d e : Z) :
  0 <= d <= 9 -> 0 <= e <= 9 ->
  Ascii.compare (digit_char d) (digit_char e) = (d ?= e).
Proof.
  intros Hd He. unfold Ascii.compare, digit_char.
  rewrite !N_ascii_embedding by lia.
  rewrite Z2N.inj_compare by lia.
  apply Z.add_compare_mono_l.
Qed.

Lemma four_digits (z : Z) :
  four_digit z ->
  z = 1000 * (z / 1000) + 100 * (z / 100 mod 10) + 10 * (z / 10 mod 10)
      + z mod 10
  /\ 0 <= z / 1000 <= 9 /\ 0 <= z / 100 mod 10 <= 9
  /\ 0 <= z / 10 mod 10 <= 9 /\ 0 <= z mod 10 <= 9.
Proof.
  unfold four_digit. intros H.
  assert (E1 : z / 100 mod 10 = z / 100 - 10 * (z / 1000)).
  { rewrite Z.mod_eq by lia. rewrite Z.div_div by lia. reflexivity. }
  assert (E2 : z / 10 mod 10 = z / 10 - 10 * (z / 100)).
  { rewrite Z.mod_eq by lia. rewrite Z.div_div by lia. reflexivity. }
  assert (E3 : z mod 10 = z - 10 * (z / 10)) by (apply Z.mod_eq; lia).
  pose proof (Z.mod_pos_bound (z / 100) 10 ltac:(lia)).
  pose proof (Z.mod_pos_bound (z / 10) 10 ltac:(lia)).
  pose proof (Z.mod_pos_bound z 10 ltac:(lia)).
  assert (0 <= z / 1000 <= 9).
  { split; [apply Z.div_pos; lia|].
    apply Z.lt_succ_r, Z.div_lt_upper_bound; lia. }
  repeat split; lia.
Qed.

(** On four-digit years the textual order of [sort()] is the numeric
    one. *)
Lemma default_compare_numeric (a b : Z) :
  four_digit a -> four_digit b ->
  (default_compare a b <=? 0) = (a - b <=? 0).
Proof.
  intros Ha Hb. unfold default_compare, String.ltb.
  rewrite (String.compare_antisym (ToString b)).
  rewrite !ToString_four_chars by assumption.
  destruct (four_digits a Ha) as (Ea & A3 & A2 & A1 & A0).
  destruct (four_digits b Hb) as (Eb & B3 & B2 & B1 & B0).
  unfold four_chars. cbn [String.compare].
  rewrite !digit_char_compare by assumption.
  revert Ea Eb A3 A2 A1 A0 B3 B2 B1 B0.
  generalize (a / 1000), (a / 100 mod 10), (a / 10 mod 10), (a mod 10),
             (b / 1000), (b / 100 mod 10), (b / 10 mod 10), (b mod 10).
  intros a3 a2 a1 a0 b3 b2 b1 b0 Ea Eb A3 A2 A1 A0 B3 B2 B1 B0.
  destruct (Z.compare_spec a3 b3);
  destruct (Z.compare_spec a2 b2);
  destruct (Z.compare_spec a1 b1);
  destruct (Z.compare_spec a0 b0); cbn;
  symmetry; try (apply Z.leb_le); try (apply Z.leb_gt); lia.
Qed.

Lemma YEARS_four_digit (y : Z) : In y YEARS -> four_digit y.
Proof.
  unfold YEARS, four_digit. simpl. intros H.
  repeat (destruct H as [<-|H]; [lia|]). contradiction.
Qed.

(** ** [new Set] *)

Lemma Set_of_In (seen l : list Z) (x : Z) :
  In x (Set_of seen l) <-> In x l /\ ~ In x seen.
Proof.
  revert seen. induction l as [|y l IH]; intros seen; simpl; [tauto|].
  destruct (existsb (Z.eqb y) seen) eqn:E.
  - rewrite IH. apply existsb_exists in E. destruct E as [z [Hz Ez]].
    apply Z.eqb_eq in Ez. subst z.
    split; [tauto|]. intros [[->|H] Hn]; tauto.
  - assert (Hy : ~ In y seen).
    { intros Hy. apply not_true_iff_false in E. apply E.
      apply existsb_exists. exists y. split; [exact Hy | apply Z.eqb_refl]. }
    simpl. rewrite IH. simpl.
    destruct (Z.eq_dec y x) as [->|Hne]; [tauto|].
    split; [intros [H|H]; tauto | intros [[H|H] Hn]; tauto].
Qed.

Lemma Set_of_NoDup (seen l : list Z) : NoDup (Set_of seen l).
Proof.
  revert seen. induction l as [|y l IH]; intros seen; simpl; [constructor|].
  destruct (existsb (Z.eqb y) seen); [apply IH|].
  constructor; [|apply IH].
  rewrite Set_of_In. simpl. tauto.
Qed.

(** ** The two last years of a strictly increasing list *)

Lemma sorted_app_inv {A : Type} (R : A -> A -> Prop) (l1 l2 : list A) :
  StronglySorted R (l1 ++ l2) ->
  StronglySorted R l1 /\ StronglySorted R l2
  /\ forall x y, In x l1 -> In y l2 -> R x y.
Proof.
  induction l1 as [|a l1 IH]; simpl; intros H.
  - repeat split; [constructor | exact H | contradiction].
  - apply StronglySorted_inv in H. destruct H as [H1 H2].
    destruct (IH H1) as (S1 & S2 & S3).
    rewrite Forall_forall in H2.
    repeat split; [|exact S2|].
    + constructor; [exact S1|]. rewrite Forall_forall.
      intros x Hx. apply H2, in_or_app. now left.
    + intros x y [<-|Hx] Hy; [|now apply S3].
      apply H2, in_or_app. now right.
Qed.

Lemma sorted_le_lt (l : list Z) :
  StronglySorted Z.le l -> NoDup l -> StronglySorted Z.lt l.
Proof.
  induction 1 as [|a l Hl IH Ha]; intros ND; [constructor|].
  inversion ND as [|? ? Hn ND']; subst.
  constructor; [now apply IH|].
  rewrite Forall_forall in *. intros x Hx.
  specialize (Ha x Hx). assert (a <> x) by (intros ->; contradiction). lia.
Qed.

Lemma numeric_sort_sorted (l : list Z) :
  StronglySorted Z.le (sort (fun a b => a - b) l).
Proof. apply sort_sorted; intros; lia. Qed.

Lemma comparison_years_numeric (records : list record) :
  Forall (fun r => four_digit (year r)) records ->
  comparison_years records
  = slice_last2 (sort (fun a b => a - b) (Set_of [] (map year records))).
Proof.
  intros H. unfold comparison_years. f_equal.
  apply sort_ext. intros x y Hx Hy.
  apply Set_of_In in Hx, Hy. destruct Hx as [Hx _], Hy as [Hy _].
  apply in_map_iff in Hx, Hy.
  destruct Hx as (rx & <- & Hrx), Hy as (ry & <- & Hry).
  rewrite Forall_forall in H.
  apply default_compare_numeric; now apply H.
Qed.

Lemma distinct_years_length (records : list record) :
  List.length (Set_of [] (map year records))
  = List.length (nodup Z.eq_dec (map year records)).
Proof.
  apply Permutation_length, NoDup_Permutation.
  - apply Set_of_NoDup.
  - apply NoDup_nodup.
  - intros x. rewrite Set_of_In, nodup_In. simpl. tauto.
Qed.

(** ** Rows *)







(** Scenario E: two year columns, 2023 and 2024; January has no record
    in 2023 ([undefined]) and a consumption of zero in 2024. *)
Example scenario_E :
  comparison_years two_years = [2023; 2024]
  /\ option_map row_cells
       (nth_error (prepareMonthly two_years "householdConsumption") 0)
     = Some [("2023", Undefined); ("2024", Num (Fin 0))]
  /\ option_map row_cells
       (nth_error (prepareMonthly two_years "householdConsumption") 1)
     = Some [("2023", Undefined); ("2024", Num (Fin 50))]
  /\ option_map row_cells
       (nth_error (prepareMonthly two_years "householdState") 4)
     = Some [("2023", Num (Fin 70)); ("2024", Undefined)].
Proof. repeat split; reflexivity. Qed.

(** Every year the form offers is written with four digits. *)
Lemma supported_years_four_digit (records : list record) :
  Forall (fun r => In (year r) YEARS) records ->
  Forall (fun r => four_digit (year r)) records.
Proof.
  apply Forall_impl. intros r. apply YEARS_four_digit.
Qed.

(** The restriction to four digits matters: [sort()] orders years as
    text, so 999 comes after 2024. *)
Example comparison_years_textual :
  comparison_years mixed_widths = [2024; 999].
Proof. reflexivity. Qed.


(** Distinct years give distinct keys [String(y)]. *)
Lemma ToString_inj (a b : Z) : ToString a = ToString b -> a = b.
Proof.
  unfold ToString. intros H.
  assert (Hn : forall z, Z.to_int z <> Decimal.Pos Decimal.Nil
                         /\ Z.to_int z <> Decimal.Neg Decimal.Nil).
  { intros z. destruct z as [|p|p]; simpl; split; try discriminate;
      intros E; injection E as E;
      now apply Unsigned.to_uint_nonnil in E. }
  apply DecimalZ.to_int_inj.
  assert (E : Some (Z.to_int a) = Some (Z.to_int b)).
  { rewrite <- (NilZero.isi (Z.to_int a)) by apply Hn.
    rewrite <- (NilZero.isi (Z.to_int b)) by apply Hn.
    now rewrite H. }
  now injection E.
Qed.

(* ================================================================== *)
(** * More on sorting *)
(* ================================================================== *)

Section SortMore.
Context {A : Type} (cmp : A -> A -> Z) (R : A -> A -> Prop).
Hypothesis cmp_le : forall x y, cmp x y <= 0 -> R x y.
Hypothesis cmp_gt : forall x y, 0 < cmp x y -> R y x.
Hypothesis le_cmp : forall x y, R x y -> cmp x y <= 0.
Hypothesis R_trans : forall x y z, R x y -> R y z -> R x z.

Lemma insert_first (x : A) (l : list A) :
  Forall (R x) l -> insert cmp x l = x :: l.
Proof.
  destruct l as [|y l]; simpl; [reflexivity|].
  intros H. inversion H as [|? ? Hy _]; subst.
  apply le_cmp in Hy. apply Z.leb_le in Hy. now rewrite Hy.
Qed.

(** A sorted array is left as it is. *)
Lemma sort_of_sorted (l : list A) : StronglySorted R l -> sort cmp l = l.
Proof.
  induction 1 as [|x l Hl IH Hx]; simpl; [reflexivity|].
  rewrite IH. now apply insert_first.
Qed.

Lemma filter_insert (p : A -> bool) (x : A) (s : list A) :
  StronglySorted R s ->
  filter p (insert cmp x s)
  = if p x then insert cmp x (filter p s) else filter p s.
Proof.
  induction 1 as [|y s Hs IH Hy]; simpl.
  - destruct (p x); reflexivity.
  - destruct (Z.leb_spec (cmp x y) 0) as [Hc|Hc].
    + simpl. destruct (p x) eqn:Px; [|reflexivity].
      symmetry. apply insert_first.
      assert (Hall : Forall (R x) (y :: s)).
      { constructor; [now apply cmp_le|].
        eapply Forall_impl; [|exact Hy].
        intros z Hz. eapply R_trans; [apply cmp_le|]; eassumption. }
      rewrite Forall_forall in *. intros z Hz.
      apply Hall. change (In z (filter p (y :: s))) in Hz.
      apply filter_In in Hz. tauto.
    + simpl. rewrite IH. destruct (p y) eqn:Py, (p x) eqn:Px; try reflexivity.
      simpl. apply Z.leb_gt in Hc. now rewrite Hc.
Qed.

(** Filtering before or after the sort gives the same array. *)
Lemma filter_sort (p : A -> bool) (l : list A) :
  filter p (sort cmp l) = sort cmp (filter p l).
Proof.
  induction l as [|x l IH]; simpl; [reflexivity|].
  rewrite filter_insert
    by (apply (sort_sorted cmp R); assumption).
  rewrite IH. destruct (p x); reflexivity.
Qed.
End SortMore.

(** Two strictly sorted arrangements of the same elements coincide. *)
Lemma sorted_perm_eq {A : Type} (R : A -> A -> Prop) (l1 l2 : list A) :
  (forall x, ~ R x x) -> (forall x y z, R x y -> R y z -> R x z) ->
  StronglySorted R l1 -> StronglySorted R l2 -> Permutation l1 l2 ->
  l1 = l2.
Proof.
  intros Hirr Htr. revert l2.
  induction l1 as [|a l1 IH]; intros l2 S1 S2 P.
  - apply Permutation_nil in P. now subst.
  - destruct l2 as [|b l2];
      [apply Permutation_sym, Permutation_nil in P; discriminate|].
    apply StronglySorted_inv in S1, S2.
    destruct S1 as [S1 F1], S2 as [S2 F2].
    rewrite Forall_forall in F1, F2.
    assert (a = b) as <-.
    { assert (Ha : In a (b :: l2))
        by (eapply Permutation_in; [exact P | now left]).
      assert (Hb : In b (a :: l1))
        by (eapply Permutation_in;
            [apply Permutation_sym; exact P | now left]).
      destruct Ha as [Ha|Ha]; [now symmetry|].
      destruct Hb as [Hb|Hb]; [assumption|].
      exfalso. apply (Hirr a). eapply Htr; [apply F1 | apply F2]; assumption. }
    f_equal. apply IH; try assumption.
    eapply Permutation_cons_inv; exact P.
Qed.

Lemma Permutation_filter {A : Type} (p : A -> bool) (l1 l2 : list A) :
  Permutation l1 l2 -> Permutation (filter p l1) (filter p l2).
Proof.
  induction 1 as [|x l1 l2 H IH|x y l|l1 l2 l3 H1 IH1 H2 IH2]; simpl.
  - constructor.
  - destruct (p x); [now constructor | assumption].
  - destruct (p x), (p y); try reflexivity. apply perm_swap.
  - etransitivity; eassumption.
Qed.

Lemma filter_filter {A : Type} (p q : A -> bool) (l : list A) :
  filter p (filter q l) = filter (fun x => q x && p x) l.
Proof.
  induction l as [|x l IH]; simpl; [reflexivity|].
  destruct (q x); simpl; [destruct (p x)|]; now rewrite IH.
Qed.

Lemma le_by_period (a b : record) : period_le a b -> by_period a b <= 0.
Proof.
  unfold by_period, period_le.
  destruct (Z.eqb_spec (year a) (year b)); simpl; lia.
Qed.

(** ** The resolver as "last of the sorted candidates" *)

(** A record the resolver may answer with. *)
Lemma getPreviousReading_candidates (records : list record) (y m : Z)
    (stateField : string) (excludeId : value) :
  getPreviousReading records y m stateField excludeId
  = match last_elem
            (sort by_period
               (filter (fun r => not_excluded excludeId r && before y m r)
                       records)) with
    | Some r => prop r stateField
    | None => Null
    end.
Proof.
  unfold getPreviousReading.
  rewrite (filter_sort by_period period_le by_period_le by_period_gt
             le_by_period period_le_trans).
  now rewrite filter_filter.
Qed.


(* ================================================================== *)
(** * The resolver and the storage order *)
(* ================================================================== *)

(** X1.  Records that are excluded or not strictly before the target
    period have no influence on the previous reading, wherever they sit
    in the array. *)
Theorem getPreviousReading_frame :
  forall (front extra back : list record) (y m : Z) (stateField : string)
         (excludeId : value),
    (forall r, In r extra ->
               excludeId = Str (id r) \/ ~ strictly_before y m r) ->
    getPreviousReading (front ++ extra ++ back) y m stateField excludeId
    = getPreviousReading (front ++ back) y m stateField excludeId.
Proof.
  intros front extra back y m stateField excludeId H.
  rewrite !getPreviousReading_candidates, !filter_app.
  assert (E : filter (fun r => not_excluded excludeId r && before y m r) extra
              = []).
  { induction extra as [|r extra IH]; simpl; [reflexivity|].
    rewrite IH by (intros; apply H; now right).
    destruct (H r (or_introl eq_refl)) as [Hr|Hr].
    - destruct (not_excluded excludeId r) eqn:Ne; [|reflexivity].
      apply not_excluded_iff in Ne. contradiction.
    - rewrite <- before_iff in Hr. apply not_true_is_false in Hr.
      rewrite Hr. now rewrite andb_false_r. }
  now rewrite E.
Qed.

Lemma getPreviousReading_frame_witness :
  (forall r, In r [feb] -> Null = Str (id r) \/ ~ strictly_before 2024 2 r)
  /\ getPreviousReading ([jan] ++ [feb] ++ []) 2024 2 "householdState" Null
     = getPreviousReading ([jan] ++ []) 2024 2 "householdState" Null.
Proof.
  assert (H : forall r, In r [feb] ->
                        Null = Str (id r) \/ ~ strictly_before 2024 2 r).
  { intros r [<-|[]]. right. unfold strictly_before. simpl. lia. }
  split; [exact H|].
  apply (getPreviousReading_frame [jan] [feb] [] 2024 2 "householdState"
           Null H).
Defined.

Lemma NoDup_periods_filter (p : record -> bool) (l : list record) :
  NoDup (periods l) -> NoDup (periods (filter p l)).
Proof.
  unfold periods. induction l as [|r l IH]; simpl; intros ND; [constructor|].
  inversion ND as [|? ? Hn ND']; subst.
  destruct (p r); simpl; [|now apply IH].
  constructor; [|now apply IH].
  intros Hin. apply Hn. apply in_map_iff in Hin.
  destruct Hin as (q & E & Hq). apply filter_In in Hq.
  rewrite <- E. apply (in_map (fun r => (year r, month r))). tauto.
Qed.

Lemma sorted_periods_strict (l : list record) :
  StronglySorted period_le l -> NoDup (periods l) ->
  StronglySorted period_lt l.
Proof.
  induction 1 as [|a l Hl IH Ha]; intros ND; [constructor|].
  unfold periods in ND. simpl in ND.
  inversion ND as [|? ? Hn ND']; subst.
  constructor; [now apply IH|].
  rewrite Forall_forall in *. intros x Hx.
  specialize (Ha x Hx).
  assert (Hne : (year a, month a) <> (year x, month x)).
  { intros E. apply Hn. rewrite E.
    apply (in_map (fun r => (year r, month r))). exact Hx. }
  unfold period_le in Ha. unfold period_lt.
  destruct Ha as [Ha|[Ha1 Ha2]]; [now left|].
  right. split; [assumption|].
  assert (month a <> month x) by (intros E; apply Hne; congruence). lia.
Qed.

(** X2.  With one record per period the previous reading does not
    depend on the order in which the records are stored. *)
Theorem getPreviousReading_order :
  forall (l1 l2 : list record) (y m : Z) (stateField : string)
         (excludeId : value),
    Permutation l1 l2 -> NoDup (periods l1) ->
    getPreviousReading l1 y m stateField excludeId
    = getPreviousReading l2 y m stateField excludeId.
Proof.
  intros l1 l2 y m stateField excludeId P ND.
  rewrite !getPreviousReading_candidates.
  set (c := fun r => not_excluded excludeId r && before y m r).
  assert (ND2 : NoDup (periods l2)).
  { eapply Permutation_NoDup; [|exact ND].
    unfold periods. now apply Permutation_map. }
  assert (S : forall l, NoDup (periods l) ->
                StronglySorted period_lt (sort by_period (filter c l))).
  { intros l Hl. apply sorted_periods_strict.
    - apply sort_sorted;
        [exact by_period_le | exact by_period_gt | exact period_le_trans].
    - eapply Permutation_NoDup;
        [|apply (NoDup_periods_filter c l Hl)].
      unfold periods. apply Permutation_map, sort_perm. }
  replace (sort by_period (filter c l2)) with (sort by_period (filter c l1));
    [reflexivity|].
  apply (sorted_perm_eq period_lt).
  - unfold period_lt. intros x. lia.
  - unfold period_lt. intros x0 y0 z0. lia.
  - now apply S.
  - now apply S.
  - rewrite <- (sort_perm by_period (filter c l1)).
    rewrite <- (sort_perm by_period (filter c l2)).
    now apply Permutation_filter.
Qed.

Lemma getPreviousReading_order_witness :
  Permutation [jan; feb] [feb; jan] /\ NoDup (periods [jan; feb])
  /\ getPreviousReading [jan; feb] 2024 3 "householdState" Null
     = getPreviousReading [feb; jan] 2024 3 "householdState" Null.
Proof.
  assert (P : Permutation [jan; feb] [feb; jan]) by apply perm_swap.
  assert (N : NoDup (periods [jan; feb])).
  { repeat constructor; simpl; intuition discriminate. }
  split; [exact P|]. split; [exact N|].
  apply (getPreviousReading_order _ _ 2024 3 "householdState" Null P N).
Defined.

(* ================================================================== *)
(** * What a submission derives *)
(* ================================================================== *)

Lemma consumption_no_prior (override state : value) :
  no_override override -> consumption override state Null = Fin 0.
Proof. intros [->| ->]; reflexivity. Qed.

(** A derived consumption is clamped. *)
Lemma consumption_clamped (override state prev : value) :
  no_override override ->
  clamped (consumption override state prev) state prev.
Proof.
  intros Ho. unfold consumption.
  replace (negb (is_nullish override)) with false
    by (destruct Ho as [->| ->]; reflexivity).
  destruct (calcConsumption_cases state prev) as [E|E]; rewrite E; split.
  - reflexivity.
  - reflexivity.
  - change (Fin 0) with zero. apply Math_max_zero_not_negative.
  - intros p -> Fs Fp Hle. change (Fin 0) with zero. simpl Number.
    now apply max_zero_sub_le.
Qed.



(** X4.  Without an override, the consumption that a submission or an
    update stores is clamped: it is never below zero, and it is zero
    when the reading it is derived from is a finite number not above
    the (finite) previous reading.  This holds of the record appended
    on the insert path, of the record replaced on the merge path
    (derived from the incoming state, or from the stored one when the
    incoming field is empty) and of the record an update writes. *)
Theorem derived_consumption_not_negative :
  forall (records : list record) (fd : Fd.t) (newId i : string),
    no_override (Fd.householdConsumptionOverride fd) ->
    no_override (Fd.carConsumptionOverride fd) ->
    let previous := getPreviousReading records (Fd.year fd) (Fd.month fd) in
    (find_period (Fd.year fd) (Fd.month fd) records = None ->
     exists r,
       fst (addRecord records fd newId) = records ++ [r]
       /\ clamped (householdConsumption r) (Fd.householdState fd)
                  (previous "householdState" Null)
       /\ clamped (carConsumption r) (Fd.carState fd)
                  (previous "carState" Null))
    /\ (forall existing r,
           find_period (Fd.year fd) (Fd.month fd) records = Some existing ->
           In r (fst (addRecord records fd newId)) -> id r = id existing ->
           clamped (householdConsumption r)
                   (provided_or (Fd.householdState fd) (householdState existing))
                   (previous "householdState" (Str (id existing)))
           /\ clamped (carConsumption r)
                      (provided_or (Fd.carState fd) (carState existing))
                      (previous "carState" (Str (id existing))))
    /\ (forall r, In r (updateRecord records i fd) -> id r = i ->
                  clamped (householdConsumption r) (Fd.householdState fd)
                          (previous "householdState" (Str i))
                  /\ clamped (carConsumption r) (Fd.carState fd)
                             (previous "carState" (Str i))).
Proof.
  intros records fd newId i Hh Hc previous. split; [|split].
  - intros Hf. rewrite (addRecord_insert_eq _ _ _ Hf). simpl fst.
    eexists. split; [reflexivity|].
    split; now apply consumption_clamped.
  - intros existing r Hf Hr Hid.
    rewrite (addRecord_merge_eq _ _ _ _ Hf) in Hr. cbv zeta in Hr.
    simpl fst in Hr. apply in_map_iff in Hr. destruct Hr as (q & <- & _).
    assert (Hq : id q = id existing) by (now rewrite replace_id in Hid).
    rewrite replace_same by assumption.
    split; now apply consumption_clamped.
  - intros r Hr Hid. rewrite updateRecord_eq in Hr.
    apply in_map_iff in Hr. destruct Hr as (q & <- & _).
    assert (Hq : id q = i) by (now rewrite replace_id in Hid).
    rewrite replace_same by assumption.
    split; now apply consumption_clamped.
Qed.

(** A reading of 120.5 after one of 150: the derived consumption is 0. *)
Lemma derived_consumption_not_negative_witness :
  no_override (Fd.householdConsumptionOverride (household_only 2024 3 "120.5"))
  /\ find_period 2024 3 [jan; feb] = None
  /\ exists r,
      fst (addRecord [jan; feb] (household_only 2024 3 "120.5") "n")
      = [jan; feb; r]
      /\ householdConsumption r = Fin 0.
Proof.
  split; [now left|]. split; [reflexivity|].
  destruct (proj1 (derived_consumption_not_negative [jan; feb]
                     (household_only 2024 3 "120.5") "n" "n"
                     (or_introl eq_refl) (or_introl eq_refl)) eq_refl)
    as (r & H1 & [_ H2] & _).
  exists r. split; [exact H1|].
  apply (H2 (Fin 150)); reflexivity.
Defined.

(* ================================================================== *)
(** * Ids, deletion and updates *)
(* ================================================================== *)

Lemma delete_absent (records : list record) (i : string) :
  ~ In i (map id records) -> deleteRecord records i = records.
Proof.
  unfold deleteRecord. induction records as [|r l IH]; simpl; intros H;
    [reflexivity|].
  destruct (String.eqb_spec (id r) i) as [E|E]; [tauto|].
  simpl. rewrite IH; tauto.
Qed.

(** X5.  Deleting the record that a submission has just inserted gives
    back the record set as it was before the submission. *)
Theorem insert_then_delete :
  forall (records : list record) (fd : Fd.t) (newId : string),
    ~ In (form_period fd) (periods records) ->
    ~ In newId (map id records) ->
    deleteRecord (fst (addRecord records fd newId)) newId = records.
Proof.
  intros records fd newId Hp Hfresh.
  destruct (addRecord_periods_insert records fd newId Hp) as [Hm _].
  destruct (find_period (Fd.year fd) (Fd.month fd) records) as [e|] eqn:Hf.
  - rewrite (addRecord_merge_eq _ _ _ _ Hf) in Hm. discriminate Hm.
  - rewrite (addRecord_insert_eq _ _ _ Hf). simpl fst.
    unfold deleteRecord. rewrite filter_app. simpl.
    rewrite String.eqb_refl. simpl. rewrite app_nil_r.
    exact (delete_absent records newId Hfresh).
Qed.

Lemma insert_then_delete_witness :
  ~ In (form_period (household_only 2024 3 "200")) (periods [jan; feb])
  /\ ~ In "n" (map id [jan; feb])
  /\ deleteRecord
       (fst (addRecord [jan; feb] (household_only 2024 3 "200") "n")) "n"
     = [jan; feb].
Proof.
  assert (H1 : ~ In (form_period (household_only 2024 3 "200"))
                    (periods [jan; feb])).
  { simpl. intuition discriminate. }
  assert (H2 : ~ In "n" (map id [jan; feb])).
  { simpl. intuition discriminate. }
  split; [exact H1|]. split; [exact H2|].
  apply (insert_then_delete [jan; feb] (household_only 2024 3 "200") "n"
           H1 H2).
Defined.

Lemma NoDup_map_filter {B : Type} (f : record -> B) (p : record -> bool)
    (l : list record) :
  NoDup (map f l) -> NoDup (map f (filter p l)).
Proof.
  induction l as [|r l IH]; simpl; intros ND; [constructor|].
  inversion ND as [|? ? Hn ND']; subst.
  destruct (p r); simpl; [|now apply IH].
  constructor; [|now apply IH].
  intros Hin. apply Hn. apply in_map_iff in Hin.
  destruct Hin as (q & E & Hq). apply filter_In in Hq.
  rewrite <- E. apply in_map. tauto.
Qed.

(** X6.  Ids stay unique: a submission keeps the ids and adds at most
    the new one, an update keeps the list of ids as it is, a delete
    only removes ids. *)
Theorem ids_stay_unique :
  forall (records : list record),
    NoDup (map id records) ->
    (forall fd newId, ~ In newId (map id records) ->
                      NoDup (map id (fst (addRecord records fd newId))))
    /\ (forall i fd, map id (updateRecord records i fd) = map id records)
    /\ (forall i, NoDup (map id (deleteRecord records i))).
Proof.
  intros records ND. repeat split.
  - intros fd newId Hfresh.
    destruct (find_period (Fd.year fd) (Fd.month fd) records) as [e|] eqn:Hf.
    + rewrite (addRecord_merge_eq _ _ _ _ Hf). cbv zeta. simpl fst.
      rewrite replace_ids by apply merge_literal_id. exact ND.
    + rewrite (addRecord_insert_eq _ _ _ Hf). simpl fst.
      rewrite map_app. simpl.
      apply NoDup_app; [exact ND | repeat constructor; intros [] |].
      intros x Hx [<-|[]]. contradiction.
  - intros i fd. rewrite updateRecord_eq. apply replace_ids.
    intros r. reflexivity.
  - intros i. unfold deleteRecord. now apply NoDup_map_filter.
Qed.

Lemma ids_stay_unique_witness :
  NoDup (map id [jan; feb])
  /\ NoDup (map id (fst (addRecord [jan; feb]
                           (household_only 2024 3 "200") "n"))).
Proof.
  assert (H : NoDup (map id [jan; feb])).
  { repeat constructor; simpl; intuition discriminate. }
  split; [exact H|].
  apply (proj1 (ids_stay_unique [jan; feb] H)).
  simpl. intuition discriminate.
Defined.

(** X7.  An update or a delete for an id that no record carries leaves
    the record set as it is. *)
Theorem unknown_id_changes_nothing :
  forall (records : list record) (i : string) (fd : Fd.t),
    ~ In i (map id records) ->
    updateRecord records i fd = records /\ deleteRecord records i = records.
Proof.
  intros records i fd H. split.
  - rewrite updateRecord_eq. now apply replace_fresh.
  - now apply delete_absent.
Qed.

Lemma unknown_id_changes_nothing_witness :
  ~ In "q" (map id [jan; feb])
  /\ updateRecord [jan; feb] "q" to_february = [jan; feb].
Proof.
  assert (H : ~ In "q" (map id [jan; feb])).
  { simpl. intuition discriminate. }
  split; [exact H|].
  apply (proj1 (unknown_id_changes_nothing [jan; feb] "q" to_february H)).
Defined.

Lemma replace_at (i : string) (g : record -> record) (l1 l2 : list record)
    (r : record) :
  NoDup (map id (l1 ++ r :: l2)) -> id r = i ->
  map (unless_id i g) (l1 ++ r :: l2) = l1 ++ g r :: l2.
Proof.
  intros ND E. rewrite map_app in ND. simpl in ND.
  assert (H1 : ~ In i (map id l1)).
  { intros H. apply NoDup_remove_2 in ND. apply ND.
    apply in_or_app. left. now rewrite E. }
  assert (H2 : ~ In i (map id l2)).
  { intros H. apply NoDup_remove_2 in ND. apply ND.
    apply in_or_app. right. now rewrite E. }
  rewrite map_app. simpl.
  rewrite !replace_fresh by assumption.
  now rewrite replace_same.
Qed.

(** X8.  An update keeps one record per period as long as the period
    in the form is the record's own or is not taken by any record. *)
Theorem update_keeps_periods_unique :
  forall (records : list record) (i : string) (fd : Fd.t),
    NoDup (map id records) -> NoDup (periods records) ->
    (forall r, In r records -> id r = i ->
               form_period fd = (year r, month r)
               \/ ~ In (form_period fd) (periods records)) ->
    NoDup (periods (updateRecord records i fd)).
Proof.
  intros records i fd Nid Np H.
  destruct (in_dec string_dec i (map id records)) as [Hin|Hout].
  - apply in_map_iff in Hin. destruct Hin as (r & E & Hr).
    destruct (in_split _ _ Hr) as (l1 & l2 & ->).
    rewrite updateRecord_eq, (replace_at i _ l1 l2 r Nid E).
    unfold periods in *. rewrite map_app in *. simpl in *.
    pose proof (NoDup_remove_1 _ _ _ Np) as N1.
    pose proof (NoDup_remove_2 _ _ _ Np) as N2.
    eapply Permutation_NoDup; [apply Permutation_middle|].
    constructor; [|exact N1].
    destruct (H r Hr E) as [Hown|Hfree].
    + unfold form_period in Hown. injection Hown as -> ->. exact N2.
    + intros Hc. apply Hfree. unfold form_period.
      apply in_app_or in Hc. apply in_or_app.
      destruct Hc; [now left | right; now right].
  - rewrite updateRecord_eq, replace_fresh by assumption. exact Np.
Qed.

(** January moved to March, which is free. *)
Lemma update_keeps_periods_unique_witness :
  NoDup (map id [jan; feb]) /\ NoDup (periods [jan; feb])
  /\ NoDup (periods (updateRecord [jan; feb] "a"
                       (household_only 2024 3 "100"))).
Proof.
  assert (H1 : NoDup (map id [jan; feb])).
  { repeat constructor; simpl; intuition discriminate. }
  assert (H2 : NoDup (periods [jan; feb])).
  { repeat constructor; simpl; intuition discriminate. }
  split; [exact H1|]. split; [exact H2|].
  apply (update_keeps_periods_unique [jan; feb] "a"
           (household_only 2024 3 "100") H1 H2).
  intros r Hr E. right. simpl. intuition discriminate.
Defined.

(* ================================================================== *)
(** * The form: editing, the merge notice and the preview *)
(* ================================================================== *)

Lemma update_literal_edit_form (records : list record) (r : record) :
  update_literal records (id r) (InputForm.edit_form r) r
  = rederived records r.
Proof. reflexivity. Qed.

(** What the save of the form does to the state of [App]. *)
Lemma handleSave_cases (st : App.state) (form : Fd.t) (newId : string) :
  (some_input form = false
   /\ InputForm.handleSave st form newId = (st, None))
  \/ (some_input form = true
      /\ App.editRecord (fst (InputForm.handleSave st form newId)) = None
      /\ App.records (fst (InputForm.handleSave st form newId))
         = match App.editRecord st with
           | Some e => updateRecord (App.records st) (id e) form
           | None => fst (addRecord (App.records st) form newId)
           end).
Proof.
  unfold some_input, InputForm.handleSave.
  destruct (truthy (Fd.householdState form)),
           (truthy (Fd.carState form)),
           (truthy (Fd.bojlerConsumption form)); simpl;
    try (left; split; reflexivity);
    right; unfold App.handleSave; destruct (App.editRecord st);
    repeat split.
Qed.

(** X9.  Saving the edit form as it was filled in from a record.  When
    the record's household state, car state and bojler value are all
    zero (or [NaN]) the save does nothing: the form stays in edit mode
    and the record keeps what it had, a consumption entered by hand
    included.  Otherwise the form leaves edit mode and the record is
    written anew in its place: id and period are kept, states and
    bojler value go through [x || 0], and both consumptions are derived
    afresh from the previous readings, so a consumption that had been
    entered by hand is lost; the other records are untouched, and the
    whole record set is unchanged when the record held these values
    already. *)
Theorem save_unedited :
  forall (records : list record) (r : record) (newId : string),
    In r records -> NoDup (map id records) ->
    let st := {| App.records := records; App.editRecord := Some r |} in
    let saved := InputForm.handleSave st (InputForm.edit_form r) newId in
    (some_input (InputForm.edit_form r) = false -> saved = (st, None))
    /\ (some_input (InputForm.edit_form r) = true ->
        let after := App.records (fst saved) in
        App.editRecord (fst saved) = None
        /\ (forall k, nth_error records k = Some r ->
                      nth_error after k = Some (rederived records r))
        /\ (forall k q, nth_error records k = Some q -> q <> r ->
                        nth_error after k = Some q)
        /\ (rederived records r = r -> after = records)).
Proof.
  intros records r newId Hin ND st saved. subst saved.
  destruct (handleSave_cases st (InputForm.edit_form r) newId)
    as [[G H]|(G & H1 & H2)]; rewrite G;
    (split; [intros F; try discriminate F; try exact H|]);
    intros F; try discriminate F.
  cbv zeta. rewrite H2. simpl App.editRecord. simpl App.records.
  split; [exact H1|].
  rewrite updateRecord_eq.
  destruct (in_split _ _ Hin) as (l1 & l2 & E).
  assert (Hmap : forall g, map (unless_id (id r) g) records
                           = l1 ++ g r :: l2).
  { intros g. pose proof ND as ND'. rewrite E in ND'. rewrite E.
    exact (replace_at (id r) g l1 l2 r ND' eq_refl). }
  rewrite Hmap, update_literal_edit_form. repeat split.
  - intros k Hk.
    assert (k = List.length l1) as ->.
    { apply (NoDup_ids_nth records k (List.length l1) r r ND Hk);
        [|reflexivity].
      rewrite E, nth_error_app2, Nat.sub_diag by lia. reflexivity. }
    rewrite nth_error_app2, Nat.sub_diag by lia. reflexivity.
  - intros k q Hk Hne. rewrite E in Hk.
    destruct (Nat.lt_ge_cases k (List.length l1)) as [Hlt|Hge].
    + rewrite nth_error_app1 in * by assumption. exact Hk.
    + rewrite nth_error_app2 in * by assumption.
      destruct (k - List.length l1)%nat as [|n]; simpl in *; [|exact Hk].
      congruence.
  - intros Hsame. rewrite Hsame. now symmetry.
Qed.

(** February with a consumption of 25 entered by hand: after an
    unedited save it holds the derived 50. *)
Lemma save_unedited_witness :
  In feb_overridden [jan; feb_overridden]
  /\ NoDup (map id [jan; feb_overridden])
  /\ some_input (InputForm.edit_form feb_overridden) = true
  /\ nth_error
       (App.records
          (fst (InputForm.handleSave
                  (App.make [jan; feb_overridden] (Some feb_overridden))
                  (InputForm.edit_form feb_overridden) "n"))) 1
     = Some feb.
Proof.
  assert (H1 : In feb_overridden [jan; feb_overridden])
    by (right; now left).
  assert (H2 : NoDup (map id [jan; feb_overridden])).
  { repeat constructor; simpl; intuition discriminate. }
  split; [exact H1|]. split; [exact H2|]. split; [reflexivity|].
  destruct (proj2 (save_unedited [jan; feb_overridden] feb_overridden "n"
                     H1 H2) eq_refl) as (_ & H & _).
  exact (H 1%nat eq_refl).
Defined.

(** A record whose states and bojler value are zero cannot be saved
    from the edit form: its consumption entered by hand stays. *)
Example save_unedited_blocked :
  InputForm.handleSave (App.make [consumption_only] (Some consumption_only))
    (InputForm.edit_form consumption_only) "n"
  = (App.make [consumption_only] (Some consumption_only), None).
Proof. reflexivity. Qed.

Lemma find_period_existsb (y m : Z) (l : list record) :
  existsb (fun r => (year r =? y) && (month r =? m)) l
  = match find_period y m l with Some _ => true | None => false end.
Proof.
  unfold find_period. induction l as [|r l IH]; simpl; [reflexivity|].
  destruct ((year r =? y) && (month r =? m)); [reflexivity | exact IH].
Qed.

Lemma addRecord_merged (records : list record) (fd : Fd.t) (newId : string) :
  merged (snd (addRecord records fd newId))
  = existsb (fun r => (year r =? Fd.year fd) && (month r =? Fd.month fd))
            records.
Proof.
  rewrite find_period_existsb.
  destruct (find_period (Fd.year fd) (Fd.month fd) records) as [e|] eqn:Hf.
  - now rewrite (addRecord_merge_eq _ _ _ _ Hf).
  - now rewrite (addRecord_insert_eq _ _ _ Hf).
Qed.

(** X10.  The save button does nothing when household state, car state
    and bojler are all empty or zero.  Otherwise it leaves edit mode,
    updates the edited record or submits the form, and reports "merged"
    exactly when the form's merge notice [isMerge] was showing; a save
    in edit mode never reports a merge. *)
Theorem save_button :
  forall (st : App.state) (form : Fd.t) (newId : string),
    (some_input form = false ->
     InputForm.handleSave st form newId = (st, None))
    /\ (some_input form = true ->
        let after := fst (InputForm.handleSave st form newId) in
        snd (InputForm.handleSave st form newId)
        = Some (if InputForm.isMerge (App.records st) form (App.editRecord st)
                then InputForm.SavedMerged else InputForm.SavedPlain)
        /\ App.editRecord after = None
        /\ App.records after
           = match App.editRecord st with
             | Some e => updateRecord (App.records st) (id e) form
             | None => fst (addRecord (App.records st) form newId)
             end).
Proof.
  intros st form newId. unfold some_input, InputForm.handleSave.
  destruct (truthy (Fd.householdState form)),
           (truthy (Fd.carState form)),
           (truthy (Fd.bojlerConsumption form)); simpl;
    (split; [try discriminate; reflexivity | try discriminate]);
    intros _; unfold App.handleSave, InputForm.isMerge;
    destruct (App.editRecord st); simpl;
    rewrite ?addRecord_merged; repeat split.
Qed.

(** February submitted over an existing February: the notice shows and
    the button reports "merged". *)
Lemma save_button_witness :
  some_input (household_only 2024 2 "180") = true
  /\ snd (InputForm.handleSave (App.make [jan; feb] None)
            (household_only 2024 2 "180") "n")
     = Some InputForm.SavedMerged.
Proof.
  split; [reflexivity|].
  exact (proj1 (proj2 (save_button (App.make [jan; feb] None)
                         (household_only 2024 2 "180") "n") eq_refl)).
Defined.

Lemma same_pool_on_merge (records : list record) (existing : record)
    (y m : Z) (stateField : string) :
  NoDup (map id records) -> In existing records ->
  year existing = y -> month existing = m ->
  getPreviousReading records y m stateField Null
  = getPreviousReading records y m stateField (Str (id existing)).
Proof.
  intros ND Hin Hy Hm. rewrite !getPreviousReading_candidates.
  replace (filter (fun r => not_excluded Null r && before y m r) records)
    with (filter (fun r => not_excluded (Str (id existing)) r && before y m r)
                 records); [reflexivity|].
  symmetry. apply filter_ext_in. intros r Hr.
  unfold not_excluded at 1. simpl.
  destruct (not_excluded (Str (id existing)) r) eqn:E; [reflexivity|].
  assert (r = existing) as ->.
  { apply (NoDup_ids_eq records); auto.
    unfold not_excluded in E. simpl in E.
    apply negb_false_iff, String.eqb_eq in E. exact E. }
  simpl. unfold before. subst y m.
  rewrite !Z.ltb_irrefl, andb_false_r. reflexivity.
Qed.

(** X11.  The preview of the form against what its save stores.  A
    save that the guard lets through (one of household state, car
    state and bojler is filled in) stores the consumption the preview
    shows: in the record an edit rewrites, in the record appended for a
    new period, and, with unique ids, in the record a merge rewrites
    whenever the state field in question is filled in.  A save that the
    guard stops stores nothing, whatever the preview shows. *)
Theorem preview_is_stored :
  forall (st : App.state) (form : Fd.t) (newId : string),
    let records := App.records st in
    let shown := InputForm.preview records form (App.editRecord st) in
    let after :=
      App.records (fst (InputForm.handleSave st form newId)) in
    (some_input form = false -> after = records)
    /\ (some_input form = true ->
        match App.editRecord st with
        | Some e =>
            forall r, In r after -> id r = id e ->
                      householdConsumption r = InputForm.household shown
                      /\ carConsumption r = InputForm.car shown
        | None =>
            (find_period (Fd.year form) (Fd.month form) records = None ->
             exists r,
               after = records ++ [r]
               /\ householdConsumption r = InputForm.household shown
               /\ carConsumption r = InputForm.car shown)
            /\ (forall existing r,
                   NoDup (map id records) ->
                   find_period (Fd.year form) (Fd.month form) records
                   = Some existing ->
                   In r after -> id r = id existing ->
                   (Fd.householdState form <> Str "" ->
                    householdConsumption r = InputForm.household shown)
                   /\ (Fd.carState form <> Str "" ->
                       carConsumption r = InputForm.car shown))
        end).
Proof.
  intros st form newId records shown after. subst records shown after.
  destruct (handleSave_cases st form newId) as [[G H]|(G & _ & H)];
    rewrite G.
  - split; [intros _; now rewrite H | intros F; discriminate F].
  - split; [intros F; discriminate F | intros _].
    rewrite H. clear H G. destruct st as [records [e|]]; simpl.
    + intros r Hr Hid. rewrite updateRecord_eq in Hr.
      apply in_map_iff in Hr. destruct Hr as (q & <- & _).
      assert (Hq : id q = id e) by (now rewrite replace_id in Hid).
      rewrite replace_same by assumption. split; reflexivity.
    + split.
      * intros Hf. rewrite (addRecord_insert_eq _ _ _ Hf). simpl.
        eexists. split; [reflexivity|]. split; reflexivity.
      * intros existing r ND Hf Hr Hid.
        destruct (find_period_Some _ _ _ _ Hf) as (Hin & Hy & Hm).
        rewrite (addRecord_merge_eq _ _ _ _ Hf) in Hr. cbv zeta in Hr.
        simpl fst in Hr. apply in_map_iff in Hr. destruct Hr as (q & <- & _).
        assert (Hq : id q = id existing) by (now rewrite replace_id in Hid).
        rewrite replace_same by assumption. simpl.
        rewrite !(same_pool_on_merge records existing _ _ _ ND Hin Hy Hm).
        split; intros Hne; now rewrite provided_or_given.
Qed.

(** February re-submitted with the state 180.5: the preview and the
    stored record both show 80.5. *)
Lemma preview_is_stored_witness :
  some_input (household_only 2024 2 "180.5") = true
  /\ NoDup (map id [jan; feb])
  /\ find_period 2024 2 [jan; feb] = Some feb
  /\ InputForm.household
       (InputForm.preview [jan; feb] (household_only 2024 2 "180.5") None)
     = 80.5%float
  /\ forall r,
      In r (App.records
              (fst (InputForm.handleSave (App.make [jan; feb] None)
                      (household_only 2024 2 "180.5") "n"))) ->
      id r = "b" ->
      householdConsumption r
      = InputForm.household
          (InputForm.preview [jan; feb] (household_only 2024 2 "180.5") None).
Proof.
  assert (H : NoDup (map id [jan; feb])).
  { repeat constructor; simpl; intuition discriminate. }
  split; [reflexivity|]. split; [exact H|]. split; [reflexivity|].
  split; [reflexivity|].
  intros r Hr Hid.
  destruct (proj2 (preview_is_stored (App.make [jan; feb] None)
                     (household_only 2024 2 "180.5") "n") eq_refl)
    as [_ Hm].
  apply (Hm feb r H eq_refl Hr Hid). discriminate.
Defined.

(** A form with only an override filled in previews the override, and
    its save stores nothing. *)
Example preview_not_stored :
  InputForm.household (InputForm.preview [jan; feb] override_only None)
  = Fin 25
  /\ InputForm.handleSave (App.make [jan; feb] None) override_only "n"
     = (App.make [jan; feb] None, None).
Proof. split; reflexivity. Qed.

(* ================================================================== *)
(** * The table *)
(* ================================================================== *)

Lemma sortAsc_sorted (l : list record) : StronglySorted period_le (sortAsc l).
Proof.
  apply sort_sorted;
    [exact by_period_le | exact by_period_gt | exact period_le_trans].
Qed.

(** X12.  The rows of the table are the stored records, or those of
    the active year, each exactly once and in chronological order; a
    year without records gives no rows. *)
Theorem table_rows :
  forall (records : list record) (activeYear : option Z),
    let rows := DataTable.filtered records activeYear in
    StronglySorted period_le rows
    /\ Permutation rows
         (match activeYear with
          | None => records
          | Some y => of_year y records
          end)
    /\ (forall y r, activeYear = Some y -> In r rows -> year r = y)
    /\ (forall y, activeYear = Some y ->
                  (forall r, In r records -> year r <> y) -> rows = []).
Proof.
  intros records activeYear rows. subst rows.
  unfold DataTable.filtered, of_year.
  split; [destruct activeYear; apply sortAsc_sorted|].
  split; [destruct activeYear; symmetry; apply sort_perm|].
  split.
  - intros y r -> Hr. unfold sortAsc in Hr.
    apply (proj1 (sort_In by_period _ r)) in Hr.
    apply filter_In in Hr. now apply Z.eqb_eq.
  - intros y -> Hnone.
    replace (filter (fun r => year r =? y) records) with (@nil record);
      [reflexivity|].
    symmetry. induction records as [|r l IH]; simpl; [reflexivity|].
    destruct (Z.eqb_spec (year r) y) as [E|E].
    + exfalso. exact (Hnone r (or_introl eq_refl) E).
    + apply IH. intros q Hq. apply Hnone. now right.
Qed.

Lemma allYears_sorted (records : list record) :
  StronglySorted Z.lt (DataTable.allYears records).
Proof.
  apply sorted_le_lt; [apply numeric_sort_sorted|].
  eapply Permutation_NoDup; [apply sort_perm | apply Set_of_NoDup].
Qed.

Lemma allYears_In (records : list record) (y : Z) :
  In y (DataTable.allYears records) <-> In y (map year records).
Proof.
  unfold DataTable.allYears. rewrite sort_In, Set_of_In. simpl. tauto.
Qed.

(** X13.  The year buttons of the table list every year that has a
    record, each once, in ascending numeric order, whatever the years
    are. *)
Theorem table_years :
  forall (records : list record),
    StronglySorted Z.lt (DataTable.allYears records)
    /\ (forall y, In y (DataTable.allYears records)
                  <-> exists r, In r records /\ year r = y)
    /\ List.length (DataTable.allYears records)
       = List.length (nodup Z.eq_dec (map year records)).
Proof.
  intros records. split; [apply allYears_sorted|]. split.
  - intros y. rewrite allYears_In, in_map_iff.
    split; intros (r & H1 & H2); exists r; tauto.
  - rewrite <- distinct_years_length. unfold DataTable.allYears.
    symmetry. apply Permutation_length, sort_perm.
Qed.

Lemma prepareMonthly_In (records : list record) (field : string) (row : row) :
  In row (prepareMonthly records field) ->
  exists i name,
    row = month_row records field (comparison_years records) name i.
Proof.
  unfold prepareMonthly. intros H. apply in_map_iff in H.
  destruct H as ([i name] & <- & _). eauto.
Qed.

(** X14.  Every row of every monthly comparison carries exactly the
    keys the chart's lines ask for ([years2]); and on four-digit years
    these are the last two of the table's year buttons. *)
Theorem chart_keys :
  forall (records : list record) (field : string),
    (forall row, In row (prepareMonthly records field) ->
                 map fst (row_cells row) = ChartsView.years2 records)
    /\ (Forall (fun r => four_digit (year r)) records ->
        ChartsView.years2 records
        = map ToString (slice_last2 (DataTable.allYears records))).
Proof.
  intros records field. split.
  - intros row Hrow.
    destruct (prepareMonthly_In records field row Hrow) as (i & name & ->).
    unfold month_row, ChartsView.years2. simpl.
    rewrite map_map. reflexivity.
  - intros H. unfold ChartsView.years2, DataTable.allYears.
    now rewrite comparison_years_numeric.
Qed.

Lemma chart_keys_witness :
  Forall (fun r => four_digit (year r)) two_years
  /\ ChartsView.years2 two_years
     = map ToString (slice_last2 (DataTable.allYears two_years)).
Proof.
  assert (H : Forall (fun r => four_digit (year r)) two_years).
  { repeat constructor; unfold four_digit; simpl; lia. }
  split; [exact H|].
  apply (proj2 (chart_keys two_years "totalConsumption") H).
Defined.

Lemma comparison_years_length (records : list record) :
  List.length (comparison_years records)
  = Nat.min 2 (List.length (nodup Z.eq_dec (map year records))).
Proof.
  unfold comparison_years, slice_last2. rewrite length_skipn.
  rewrite <- distinct_years_length.
  replace (List.length (sort default_compare (Set_of [] (map year records))))
    with (List.length (Set_of [] (map year records)))
    by (apply Permutation_length, sort_perm).
  lia.
Qed.

(** X15.  Whatever the years are, every row of a monthly comparison has
    as many cells as there are distinct years in the data, but no more
    than two; with no records the twelve rows are empty. *)
Theorem monthly_cells :
  forall (records : list record) (field : string),
    List.length (prepareMonthly records field) = 12%nat
    /\ (forall row, In row (prepareMonthly records field) ->
          List.length (row_cells row)
          = Nat.min 2 (List.length (nodup Z.eq_dec (map year records))))
    /\ (records = [] ->
        forall row, In row (prepareMonthly records field) ->
                    row_cells row = []).
Proof.
  intros records field. split; [reflexivity|]. split.
  - intros row Hrow.
    destruct (prepareMonthly_In records field row Hrow) as (i & name & ->).
    unfold month_row. simpl.
    now rewrite length_map, comparison_years_length.
  - intros -> row Hrow.
    destruct (prepareMonthly_In [] field row Hrow) as (i & name & ->).
    reflexivity.
Qed.

(** X16.  The month label does not identify the row: June and July
    ("Cerven", "Cervenec") share their first three letters, so for every
    record set the sixth and the seventh row carry the same label. *)
Theorem june_july_same_label :
  forall (records : list record) (field : string),
  exists june july,
    nth_error (prepareMonthly records field) 5 = Some june
    /\ nth_error (prepareMonthly records field) 6 = Some july
    /\ row_month june = row_month july
    /\ row_cells june
       = map (fun y => (ToString y, cell_of records field y 6))
             (comparison_years records)
    /\ row_cells july
       = map (fun y => (ToString y, cell_of records field y 7))
             (comparison_years records).
Proof.
  intros records field. eexists. eexists.
  split; [reflexivity|]. split; [reflexivity|]. repeat split.
Qed.

(** ** Sums *)

Lemma Zsum_In_le (g : record -> Z) (rows : list record) (r : record) :
  (forall q, In q rows -> 0 <= g q) -> In r rows ->
  g r <= Zsum (map g rows).
Proof.
  induction rows as [|q l IH]; intros H Hr; [contradiction|]. simpl.
  assert (0 <= g q) by (apply H; now left).
  assert (0 <= Zsum (map g l)).
  { apply Zsum_nonneg, Forall_map, Forall_forall. intros x Hx.
    apply H. now right. }
  destruct Hr as [->|Hr]; [lia|].
  assert (g r <= Zsum (map g l)) by (apply IH; auto; intros; apply H; now right).
  lia.
Qed.

Lemma Zsum_map_add (g h : record -> Z) (rows : list record) :
  Zsum (map (fun r => g r + h r) rows) = Zsum (map g rows) + Zsum (map h rows).
Proof. induction rows as [|r l IH]; simpl; lia. Qed.

(** X17.  When the household and car consumptions of the rows are
    whole numbers, none below zero, that add up to less than 2^53, and
    every row's total is the sum of its two consumptions, the total
    shown above the table is exactly the sum of the household and the
    car totals shown beside it. *)
Theorem table_totals_add_up :
  forall (rows : list record) (gh gc : record -> Z),
    Forall total_ok rows ->
    whole_by gh householdConsumption rows ->
    whole_by gc carConsumption rows ->
    Zsum (map gh rows) + Zsum (map gc rows) < 2 ^ 53 ->
    DataTable.totT rows = add (DataTable.totH rows) (DataTable.totC rows)
    /\ DataTable.totT rows
       = Fin (Zsum (map gh rows) + Zsum (map gc rows)).
Proof.
  intros rows gh gc Ht Hh Hc Hb.
  assert (HT : whole_by (fun r => gh r + gc r) totalConsumption rows).
  { destruct Hh as [Hh _], Hc as [Hc _]. split.
    - intros r Hr. rewrite Forall_forall in Ht.
      destruct (Hh r Hr) as [Eh Ph], (Hc r Hr) as [Ec Pc].
      pose proof (Zsum_In_le gh rows r (fun q Hq => proj2 (Hh q Hq)) Hr).
      pose proof (Zsum_In_le gc rows r (fun q Hq => proj2 (Hc q Hq)) Hr).
      split; [|lia].
      rewrite (Ht r Hr), Eh, Ec. unfold add.
      apply Fin_add; unfold safe_integer; lia.
    - now rewrite Zsum_map_add. }
  pose proof (Zsum_nonneg (map gh rows)) as Nh.
  pose proof (Zsum_nonneg (map gc rows)) as Nc.
  assert (0 <= Zsum (map gh rows)).
  { apply Nh, Forall_map, Forall_forall. intros r Hr. now apply (proj1 Hh). }
  assert (0 <= Zsum (map gc rows)).
  { apply Nc, Forall_map, Forall_forall. intros r Hr. now apply (proj1 Hc). }
  unfold DataTable.totT, DataTable.totH, DataTable.totC.
  rewrite (sum_whole _ _ _ HT), (sum_whole _ _ _ Hh), (sum_whole _ _ _ Hc).
  rewrite Zsum_map_add. unfold add.
  rewrite Fin_add by (unfold safe_integer; lia). split; reflexivity.
Qed.

(** January and February: household 0 and 50 kWh, car 0 and 0. *)
Lemma table_totals_add_up_witness :
  Forall total_ok [jan; feb]
  /\ whole_by household_kWh householdConsumption [jan; feb]
  /\ whole_by (fun _ => 0) carConsumption [jan; feb]
  /\ DataTable.totT [jan; feb]
     = add (DataTable.totH [jan; feb]) (DataTable.totC [jan; feb]).
Proof.
  assert (H1 : Forall total_ok [jan; feb]) by (repeat constructor).
  assert (H2 : whole_by household_kWh householdConsumption [jan; feb]).
  { split; [|reflexivity].
    intros r [<-|[<-|[]]]; split; try reflexivity; discriminate. }
  assert (H3 : whole_by (fun _ => 0) carConsumption [jan; feb]).
  { split; [|reflexivity].
    intros r [<-|[<-|[]]]; split; try reflexivity; discriminate. }
  split; [exact H1|]. split; [exact H2|]. split; [exact H3|].
  apply (table_totals_add_up [jan; feb] household_kWh (fun _ => 0) H1 H2 H3).
  reflexivity.
Defined.

(** With fractions the three totals need not add up: the rows
    [0.1 + 0.1] and [0.2 + 0.3] give [0.7] against
    [0.30000000000000004 + 0.4]. *)
Example table_totals_rounding :
  Forall total_ok tenths
  /\ DataTable.totT tenths
     <> add (DataTable.totH tenths) (DataTable.totC tenths).
Proof. split; [repeat constructor | float_neq]. Qed.

(* ================================================================== *)
(** * [Number(String(n))] *)
(* ================================================================== *)

(** Reads the digit character under [digit_of] in the goal. *)
Ltac read_digit :=
  match goal with
  | |- context [digit_of ?c] =>
      let v := eval vm_compute in (digit_of c) in
      change (digit_of c) with v
  end.

Lemma read_digits_uint_acc (d : Decimal.uint) (acc : positive) (n : Z) :
  read_digits (NilEmpty.string_of_uint d) (Z.pos acc) n
  = (Z.pos (Pos.of_uint_acc d acc), n + Z.of_nat (Decimal.nb_digits d), "").
Proof.
  revert acc n. induction d; intros acc n;
    cbn [NilEmpty.string_of_uint Pos.of_uint_acc read_digits Decimal.nb_digits];
    [now rewrite Z.add_0_r|..];
    read_digit; cbv iota beta;
    match goal with
    | |- read_digits _ ?a _ = (Z.pos (Pos.of_uint_acc _ ?b), _, _) =>
        replace a with (Z.pos b) by lia
    end;
    rewrite IHd; f_equal; f_equal; lia.
Qed.

Lemma read_digits_uint (d : Decimal.uint) (n : Z) :
  read_digits (NilEmpty.string_of_uint d) 0 n
  = (Z.of_N (Pos.of_uint d), n + Z.of_nat (Decimal.nb_digits d), "").
Proof.
  revert n. induction d; intros n;
    cbn [NilEmpty.string_of_uint Pos.of_uint read_digits Decimal.nb_digits];
    [now rewrite Z.add_0_r|..];
    read_digit; cbv iota beta;
    [rewrite IHd; f_equal; f_equal; lia|..];
    match goal with
    | |- read_digits _ ?a _ = _ =>
        let v := eval cbv in a in
        match v with
        | Z.pos ?p => change a with (Z.pos p)
        end
    end;
    rewrite read_digits_uint_acc; f_equal; f_equal; lia.
Qed.

Lemma trim_right_uint (d : Decimal.uint) :
  trim_right (NilEmpty.string_of_uint d) = NilEmpty.string_of_uint d.
Proof.
  induction d; simpl; [reflexivity|..]; rewrite IHd;
    destruct (NilEmpty.string_of_uint d); reflexivity.
Qed.

(** A run of decimal digits, with or without a sign in front, is not
    read as a numeral in another radix. *)
Ltac no_radix d :=
  match goal with
  | |- context [radix_literal ?t] =>
      let R := fresh in
      assert (R : radix_literal t = None)
        by (try reflexivity; destruct d; try reflexivity;
            destruct d; reflexivity);
      rewrite R
  end.

Lemma decimal_literal_uint (d : Decimal.uint) :
  d <> Decimal.Nil ->
  decimal_literal (NilEmpty.string_of_uint d)
  = Some (Z.of_N (Pos.of_uint d), 0).
Proof.
  intros Hd. unfold decimal_literal. rewrite read_digits_uint.
  replace (0 <? 0 + Z.of_nat (Decimal.nb_digits d) + 0) with true;
    [reflexivity|].
  symmetry. apply Z.ltb_lt. destruct d; [congruence|..]; simpl; lia.
Qed.

Lemma unsigned_literal_uint (d : Decimal.uint) :
  d <> Decimal.Nil ->
  unsigned_literal (NilEmpty.string_of_uint d) = Fin (Z.of_N (Pos.of_uint d)).
Proof.
  intros Hd. unfold unsigned_literal.
  rewrite (decimal_literal_uint d Hd).
  replace (String.eqb (NilEmpty.string_of_uint d) "Infinity") with false
    by (destruct d; reflexivity).
  unfold of_decimal. simpl (0 <=? 0). cbv iota.
  now rewrite Z.pow_0_r, Z.mul_1_r.
Qed.

Lemma StringToNumber_uint (d : Decimal.uint) :
  d <> Decimal.Nil ->
  StringToNumber (NilEmpty.string_of_uint d) = Fin (Z.of_N (Pos.of_uint d)).
Proof.
  intros Hd. rewrite <- (unsigned_literal_uint d Hd). unfold StringToNumber.
  replace (trim_left (NilEmpty.string_of_uint d))
    with (NilEmpty.string_of_uint d)
    by (destruct d; reflexivity).
  rewrite trim_right_uint.
  destruct d; [congruence|..]; cbn [NilEmpty.string_of_uint]; cbv iota;
    no_radix d; reflexivity.
Qed.

Lemma StringToNumber_minus_uint (d : Decimal.uint) :
  d <> Decimal.Nil ->
  StringToNumber (String "-" (NilEmpty.string_of_uint d))
  = PrimFloat.opp (Fin (Z.of_N (Pos.of_uint d))).
Proof.
  intros Hd. rewrite <- (unsigned_literal_uint d Hd). unfold StringToNumber.
  replace (trim_left (String "-" (NilEmpty.string_of_uint d)))
    with (String "-" (NilEmpty.string_of_uint d)) by reflexivity.
  cbn [trim_right]. rewrite trim_right_uint.
  destruct d; [congruence|..]; reflexivity.
Qed.

(** An integer written out by [String] is read back by [Number] as the
    double nearest to it. *)
Lemma Number_ToString (z : Z) : Number (Str (ToString z)) = Fin z.
Proof.
  unfold Number, ToString.
  destruct z as [|p|p]; [reflexivity|..]; simpl Z.to_int;
    unfold NilZero.string_of_int, NilZero.string_of_uint;
    pose proof (Unsigned.to_uint_nonnil p) as Hn;
    pose proof (StringToNumber_uint (Pos.to_uint p) Hn) as H1;
    pose proof (StringToNumber_minus_uint (Pos.to_uint p) Hn) as H2;
    rewrite Unsigned.of_to in H1, H2; try rewrite Fin_opp;
    destruct (Pos.to_uint p); try congruence; assumption.
Qed.

(* ================================================================== *)
(** * The annual chart *)
(* ================================================================== *)

Lemma mem_In (x : Z) (l : list Z) : existsb (Z.eqb x) l = true <-> In x l.
Proof.
  rewrite existsb_exists. split.
  - intros (y & Hy & E). apply Z.eqb_eq in E. now subst.
  - intros H. exists x. split; [exact H | apply Z.eqb_refl].
Qed.

Lemma Set_of_snoc (seen l : list Z) (x : Z) :
  Set_of seen (l ++ [x])
  = Set_of seen l
    ++ (if existsb (Z.eqb x) seen || existsb (Z.eqb x) l then [] else [x]).
Proof.
  revert seen. induction l as [|y l IH]; intros seen; simpl.
  - rewrite orb_false_r. destruct (existsb (Z.eqb x) seen);
      reflexivity.
  - destruct (existsb (Z.eqb y) seen) eqn:Ey.
    + rewrite IH. f_equal.
      destruct (Z.eqb_spec x y) as [->|Hne]; simpl; [|reflexivity].
      now rewrite Ey.
    + simpl. rewrite IH. f_equal. simpl.
      destruct (x =? y), (existsb (Z.eqb x) seen), (existsb (Z.eqb x) l);
        reflexivity.
Qed.

Lemma sum_or_zero_snoc (f : record -> num) (l : list record) (r : record) :
  sum_or_zero f (l ++ [r]) = add (sum_or_zero f l) (or_zero (f r)).
Proof. unfold sum_or_zero. now rewrite fold_left_app. Qed.

Lemma of_year_absent (y : Z) (l : list record) :
  ~ In y (map year l) -> of_year y l = [].
Proof.
  unfold of_year. induction l as [|r l IH]; simpl; intros H; [reflexivity|].
  destruct (Z.eqb_spec (year r) y) as [E|E]; [tauto|].
  apply IH. tauto.
Qed.

Lemma annual_of_snoc (l : list record) (r : record) (y : Z) :
  annual_of (l ++ [r]) y
  = if y =? year r
    then {| Annual.year := Annual.year (annual_of l y);
            Annual.household :=
              add (Annual.household (annual_of l y))
                  (or_zero (householdConsumption r));
            Annual.car :=
              add (Annual.car (annual_of l y)) (or_zero (carConsumption r));
            Annual.bojler :=
              add (Annual.bojler (annual_of l y))
                  (or_zero (bojlerConsumption r)) |}
    else annual_of l y.
Proof.
  unfold annual_of, of_year. rewrite filter_app. simpl.
  rewrite (Z.eqb_sym y). destruct (year r =? y).
  - now rewrite !sum_or_zero_snoc.
  - now rewrite app_nil_r.
Qed.

(** The object built by the [forEach]: one property per year, in the
    order in which the years first occur. *)
Lemma annual_fold (records : list record) :
  fold_left annual_step records []
  = map (fun y => (y, annual_of records y)) (Set_of [] (map year records)).
Proof.
  induction records as [|r l IH] using rev_ind; [reflexivity|].
  rewrite fold_left_app. simpl. rewrite IH. clear IH.
  rewrite map_app. simpl map. rewrite Set_of_snoc. simpl existsb.
  set (S := Set_of [] (map year l)).
  unfold annual_step.
  assert (Ex : existsb (fun e : Z * Annual.t => fst e =? year r)
                 (map (fun y => (y, annual_of l y)) S)
               = existsb (Z.eqb (year r)) (map year l)).
  { apply eq_true_iff_eq. rewrite mem_In, existsb_exists. split.
    - intros (e & He & E). apply in_map_iff in He.
      destruct He as (y & <- & Hy). simpl in E. apply Z.eqb_eq in E. subst y.
      apply (Set_of_In [] (map year l)) in Hy. tauto.
    - intros H. exists (year r, annual_of l (year r)). split.
      + apply (in_map (fun y => (y, annual_of l y))).
        apply Set_of_In. simpl. tauto.
      + simpl. apply Z.eqb_refl. }
  rewrite Ex.
  assert (Hstep : forall y,
             (if y =? year r
              then (y,
                    {| Annual.year := Annual.year (annual_of l y);
                       Annual.household :=
                         add (Annual.household (annual_of l y))
                             (or_zero (householdConsumption r));
                       Annual.car :=
                         add (Annual.car (annual_of l y))
                             (or_zero (carConsumption r));
                       Annual.bojler :=
                         add (Annual.bojler (annual_of l y))
                             (or_zero (bojlerConsumption r)) |})
              else (y, annual_of l y))
             = (y, annual_of (l ++ [r]) y)).
  { intros y. rewrite annual_of_snoc. destruct (y =? year r); reflexivity. }
  destruct (existsb (Z.eqb (year r)) (map year l)) eqn:Em; cbn [orb].
  - rewrite app_nil_r, map_map. apply map_ext. intros y. apply Hstep.
  - rewrite !map_app, map_map. f_equal.
    + apply map_ext. intros y. apply Hstep.
    + cbn [map fst snd]. rewrite <- Hstep, Z.eqb_refl.
      unfold annual_of. rewrite of_year_absent; [reflexivity|].
      intros H. apply mem_In in H. congruence.
Qed.

Section SortMap.
Context {A B : Type} (c : B -> B -> Z) (g : A -> B).

Lemma insert_map (x : A) (l : list A) :
  insert c (g x) (map g l)
  = map g (insert (fun a b => c (g a) (g b)) x l).
Proof.
  induction l as [|y l IH]; simpl; [reflexivity|].
  destruct (c (g x) (g y) <=? 0); simpl; [reflexivity | now rewrite IH].
Qed.

Lemma sort_map (l : list A) :
  sort c (map g l) = map g (sort (fun a b => c (g a) (g b)) l).
Proof.
  induction l as [|x l IH]; simpl; [reflexivity|].
  now rewrite IH, insert_map.
Qed.
End SortMap.

Lemma filter_map_swap {A B : Type} (p : B -> bool) (g : A -> B) (l : list A) :
  filter p (map g l) = map g (filter (fun x => p (g x)) l).
Proof.
  induction l as [|x l IH]; simpl; [reflexivity|].
  destruct (p (g x)); simpl; now rewrite IH.
Qed.

Lemma Permutation_split {A : Type} (p : A -> bool) (l : list A) :
  Permutation (filter p l ++ filter (fun x => negb (p x)) l) l.
Proof.
  induction l as [|x l IH]; simpl; [constructor|].
  destruct (p x); simpl.
  - now constructor.
  - rewrite <- Permutation_middle. now constructor.
Qed.

(** The keys in the order in which [Object.values] lists them. *)
Lemma Object_values_keys {A : Type} (f : Z -> A) (S : list Z) :
  Object_values (map (fun y => (y, f y)) S)
  = map f (sort (fun a b => a - b) (filter is_array_index S)
           ++ filter (fun y => negb (is_array_index y)) S).
Proof.
  unfold Object_values.
  rewrite !(filter_map_swap _ (fun y => (y, f y))). simpl.
  rewrite (sort_map (fun a b : Z * A => fst a - fst b) (fun y => (y, f y))).
  simpl. rewrite <- map_app, map_map. reflexivity.
Qed.

(** On years that are safe integers the comparator
    [(a, b) => Number(a.year) - Number(b.year)] orders by year. *)
Lemma by_year_sign (a b : Z) :
  safe_integer a -> safe_integer b ->
  (comparator_result (sub (Fin a) (Fin b)) <=? 0) = (a - b <=? 0).
Proof.
  intros Ha Hb. unfold comparator_result, sub.
  destruct (sign_of_tests _ _ (Fin_sub_sign a b Ha Hb)) as (_ & -> & ->).
  destruct (Z.compare_spec a b) as [E|E|E]; simpl;
    symmetry; [apply Z.leb_le|apply Z.leb_le|apply Z.leb_gt]; lia.
Qed.

(** The annual chart, entry by entry. *)
Lemma prepareAnnualData_eq (records : list record) :
  Forall (fun r => safe_integer (year r)) records ->
  prepareAnnualData records
  = map (annual_of records) (DataTable.allYears records).
Proof.
  intros Hsafe. unfold prepareAnnualData. cbv zeta.
  rewrite annual_fold, Object_values_keys.
  set (S := Set_of [] (map year records)).
  set (L := sort (fun a b => a - b) (filter is_array_index S)
            ++ filter (fun y => negb (is_array_index y)) S).
  rewrite (sort_map by_year_text (annual_of records)).
  f_equal.
  assert (PL : Permutation L S).
  { unfold L. rewrite <- (sort_perm (fun a b => a - b)).
    apply Permutation_split. }
  assert (NS : NoDup S) by apply Set_of_NoDup.
  assert (NL : NoDup L)
    by (eapply Permutation_NoDup; [symmetry; exact PL | exact NS]).
  assert (HL : forall x, In x L -> safe_integer x).
  { intros x Hx. apply (Permutation_in _ PL) in Hx.
    apply Set_of_In in Hx. destruct Hx as [Hx _].
    apply in_map_iff in Hx. destruct Hx as (r & <- & Hr).
    rewrite Forall_forall in Hsafe. now apply Hsafe. }
  rewrite (sort_ext _ (fun a b => a - b)).
  - apply (sorted_perm_eq Z.lt); try (intros; lia).
    + apply sorted_le_lt; [apply numeric_sort_sorted|].
      eapply Permutation_NoDup; [apply sort_perm | exact NL].
    + apply allYears_sorted.
    + unfold DataTable.allYears. fold S.
      rewrite <- !(sort_perm (fun a b => a - b)). exact PL.
  - intros x y Hx Hy. unfold by_year_text, annual_of. cbn [Annual.year].
    rewrite !Number_ToString. apply by_year_sign; now apply HL.
Qed.

(** X18.  On records whose years are safe integers (below 2^53 in
    absolute value) the annual chart has one entry for every year that
    has a record, in ascending order of the years; the entry carries
    the year as text and the sums of the household, car and bojler
    consumption of that year's records, added up from [0] in storage
    order, a value that is [NaN] or zero counting as [0].  The order in
    which [Object.values] lists the years does not show.  No records
    give no entries. *)
Theorem annual_chart :
  forall (records : list record),
    Forall (fun r => safe_integer (year r)) records ->
    prepareAnnualData records
    = map (annual_of records) (DataTable.allYears records)
    /\ StronglySorted Z.lt (DataTable.allYears records)
    /\ (forall y, In y (DataTable.allYears records)
                  <-> exists r, In r records /\ year r = y)
    /\ (forall y,
           Annual.year (annual_of records y) = ToString y
           /\ Annual.household (annual_of records y)
              = fold_left (fun s r => add s (or_zero (householdConsumption r)))
                          (of_year y records) (Fin 0)
           /\ Annual.car (annual_of records y)
              = fold_left (fun s r => add s (or_zero (carConsumption r)))
                          (of_year y records) (Fin 0)
           /\ Annual.bojler (annual_of records y)
              = fold_left (fun s r => add s (or_zero (bojlerConsumption r)))
                          (of_year y records) (Fin 0))
    /\ (records = [] -> prepareAnnualData records = []).
Proof.
  intros records Hsafe.
  split; [now apply prepareAnnualData_eq|].
  split; [apply allYears_sorted|].
  split.
  { intros y. rewrite allYears_In, in_map_iff.
    split; intros (r & H1 & H2); exists r; tauto. }
  split; [intros y; repeat split|].
  intros ->. reflexivity.
Qed.

(** Records of 2023 and 2024: two entries, 2023 first. *)
Lemma annual_chart_witness :
  Forall (fun r => safe_integer (year r)) two_years
  /\ map Annual.year (prepareAnnualData two_years) = ["2023"; "2024"]
  /\ map Annual.household (prepareAnnualData two_years) = [Fin 0; Fin 50].
Proof.
  assert (H : Forall (fun r => safe_integer (year r)) two_years).
  { repeat constructor; unfold safe_integer; simpl; lia. }
  split; [exact H|].
  rewrite (proj1 (annual_chart two_years H)). split; reflexivity.
Defined.

(** X19.  The annual chart against the table, for safe years.  Every
    entry of the chart shows for its year exactly the household, car
    and bojler sums that the table shows when that year is selected,
    in two cases: when the records are stored in chronological order
    (the rows of the table for a year are then that year's records in
    storage order), and, whatever the storage order, when the three
    consumptions are whole numbers, none below zero, that add up to
    less than 2^53. *)
Theorem annual_chart_matches_table :
  forall (records : list record),
    Forall (fun r => safe_integer (year r)) records ->
    (StronglySorted period_le records ->
     (forall y, DataTable.filtered records (Some y) = of_year y records)
     /\ views_agree records)
    /\ (forall gh gc gb : record -> Z,
           whole_by gh householdConsumption records ->
           whole_by gc carConsumption records ->
           whole_by gb bojlerConsumption records ->
           views_agree records).
Proof.
  intros records Hsafe. split.
  - intros Hs.
    assert (Hrows : forall y, DataTable.filtered records (Some y)
                              = of_year y records).
    { intros y. unfold DataTable.filtered, sortAsc, of_year.
      apply (sort_of_sorted by_period period_le le_by_period).
      now apply filter_sorted. }
    split; [exact Hrows|].
    intros a Ha. rewrite prepareAnnualData_eq in Ha by assumption.
    apply in_map_iff in Ha. destruct Ha as (y & <- & Hy).
    exists y. split; [exact Hy|]. split; [reflexivity|].
    rewrite Hrows. repeat split.
  - intros gh gc gb Hh Hc Hb a Ha.
    rewrite prepareAnnualData_eq in Ha by assumption.
    apply in_map_iff in Ha. destruct Ha as (y & <- & Hy).
    exists y. split; [exact Hy|]. split; [reflexivity|].
    assert (Hsum : forall g f, whole_by g f records ->
              sum_or_zero f (of_year y records)
              = sum_or_zero f (DataTable.filtered records (Some y))).
    { intros g f Hw. unfold DataTable.filtered, sortAsc.
      fold (of_year y records).
      pose proof (whole_by_filter g f (fun r => year r =? y) records Hw) as W1.
      fold (of_year y records) in W1.
      pose proof (whole_by_perm g f _ _ (sort_perm by_period (of_year y records))
                    W1) as W2.
      rewrite (sum_whole _ _ _ W1), (sum_whole _ _ _ W2). f_equal.
      apply Zsum_perm, Permutation_map, sort_perm. }
    unfold annual_of, DataTable.totH, DataTable.totC, DataTable.totB.
    cbn [Annual.household Annual.car Annual.bojler].
    split; [exact (Hsum gh _ Hh)|]. split; [exact (Hsum gc _ Hc)|].
    exact (Hsum gb _ Hb).
Qed.

Lemma annual_chart_matches_table_witness :
  Forall (fun r => safe_integer (year r)) two_years
  /\ StronglySorted period_le two_years
  /\ DataTable.filtered two_years (Some 2024) = [jan; feb]
  /\ Annual.household (annual_of two_years 2024)
     = DataTable.totH (DataTable.filtered two_years (Some 2024)).
Proof.
  assert (H1 : Forall (fun r => safe_integer (year r)) two_years).
  { repeat constructor; unfold safe_integer; simpl; lia. }
  assert (H2 : StronglySorted period_le two_years).
  { repeat constructor; unfold period_le; simpl; lia. }
  split; [exact H1|]. split; [exact H2|].
  destruct (proj1 (annual_chart_matches_table two_years H1) H2)
    as [Hrows Hsum].
  split; [rewrite Hrows; reflexivity|].
  destruct (Hsum (annual_of two_years 2024)) as (y & _ & Ey & Eh & _).
  - right. now left.
  - apply ToString_inj in Ey. subst y. exact Eh.
Defined.

(** With fractions and out of chronological order the two views can
    differ in the last digit: the chart adds [0.1 + 0.2 + 0.3], the
    table [0.3 + 0.2 + 0.1]. *)
Example annual_chart_differs :
  map Annual.household (prepareAnnualData backwards)
  <> [DataTable.totH (DataTable.filtered backwards (Some 2024))].
Proof.
  intros H. apply (f_equal (map Prim2SF)) in H. vm_compute in H.
  discriminate H.
Qed.

(* ================================================================== *)
(** * Readings entered in chronological order *)
(* ================================================================== *)

Lemma sorted_by_periods (l : list record) :
  StronglySorted earlier (periods l) -> StronglySorted period_le l.
Proof.
  unfold periods. induction l as [|r l IH]; simpl; intros H; [constructor|].
  apply StronglySorted_inv in H. destruct H as [H1 H2].
  constructor; [now apply IH|].
  rewrite Forall_forall in *. intros x Hx.
  specialize (H2 _ (in_map (fun r => (year r, month r)) _ _ Hx)).
  unfold earlier in H2. unfold period_le. simpl in H2. lia.
Qed.

(** When the stored records are in chronological order and all lie
    before the target period, the previous reading is that of the last
    stored record. *)
Lemma getPreviousReading_last (records : list record) (y m : Z)
    (stateField : string) :
  StronglySorted period_le records ->
  (forall r, In r records -> strictly_before y m r) ->
  getPreviousReading records y m stateField Null
  = match last_elem records with
    | Some r => prop r stateField
    | None => Null
    end.
Proof.
  intros HS Hb. rewrite getPreviousReading_candidates.
  replace (filter (fun r => not_excluded Null r && before y m r) records)
    with records.
  - now rewrite (sort_of_sorted by_period period_le le_by_period).
  - symmetry. apply forallb_filter_id. apply forallb_forall.
    intros r Hr. simpl. now apply before_iff, Hb.
Qed.

Lemma last_elem_map {A B : Type} (g : A -> B) (l : list A) :
  last_elem (map g l) = option_map g (last_elem l).
Proof.
  unfold last_elem. now rewrite length_map, nth_error_map.
Qed.

Lemma differences_snoc (prev : option num) (l : list num) (s : num) :
  differences prev (l ++ [s])
  = differences prev l
    ++ [match (match last_elem l with Some x => Some x | None => prev end) with
        | None => Fin 0
        | Some p => Math_max (Fin 0) (sub s p)
        end].
Proof.
  revert prev. induction l as [|a l IH]; intros prev; [reflexivity|].
  simpl app. cbn [differences]. rewrite IH. simpl app. f_equal. f_equal.
  destruct (last_elem_spec l) as [[-> _]|(l' & x & -> & Hx)]; [reflexivity|].
  rewrite Hx. change (a :: l' ++ [x]) with ((a :: l') ++ [x]).
  now rewrite last_elem_app.
Qed.

(** A run of submissions in chronological order into an empty store. *)
Lemma submit_all_chain :
  forall (subs : list (Fd.t * string)) (ss : list num),
    Forall2 (fun sub s => enters_reading (fst sub) s) subs ss ->
    StronglySorted earlier (map (fun sub => form_period (fst sub)) subs) ->
    periods (submit_all subs []) = map (fun sub => form_period (fst sub)) subs
    /\ map id (submit_all subs []) = map snd subs
    /\ map householdState (submit_all subs []) = ss
    /\ map householdConsumption (submit_all subs []) = differences None ss.
Proof.
  induction subs as [|[fd nid] subs IH] using rev_ind; intros ss HF HP.
  - inversion HF; subst. repeat split.
  - apply Forall2_app_inv_l in HF.
    destruct HF as (ss0 & ss1 & HF0 & HF1 & ->).
    inversion HF1 as [|? s ? ? Hs HF2]; subst. inversion HF2; subst.
    clear HF1 HF2. simpl in Hs.
    rewrite map_app in HP. simpl in HP.
    destruct (sorted_app_inv _ _ _ HP) as (HP0 & _ & HPlt).
    destruct (IH ss0 HF0 HP0) as (Iper & Iid & Ist & Icons). clear IH.
    unfold submit_all in *. rewrite fold_left_app. simpl.
    set (recs := fold_left
                   (fun recs s0 => fst (addRecord recs (fst s0) (snd s0)))
                   subs []) in *.
    assert (Hbefore : forall r, In r recs ->
                                strictly_before (Fd.year fd) (Fd.month fd) r).
    { intros r Hr.
      assert (Hin : In (year r, month r) (periods recs))
        by (apply (in_map (fun r => (year r, month r))); exact Hr).
      rewrite Iper in Hin.
      specialize (HPlt _ (form_period fd) Hin (or_introl eq_refl)).
      unfold earlier, form_period in HPlt. simpl in HPlt.
      unfold strictly_before. lia. }
    assert (Hfind : find_period (Fd.year fd) (Fd.month fd) recs = None).
    { destruct (find_period (Fd.year fd) (Fd.month fd) recs) as [e|] eqn:E;
        [|reflexivity].
      destruct (find_period_Some _ _ _ _ E) as (He & Hy & Hm).
      specialize (Hbefore e He). unfold strictly_before in Hbefore. lia. }
    assert (Hsorted : StronglySorted period_le recs)
      by (apply sorted_by_periods; rewrite Iper; exact HP0).
    rewrite (addRecord_insert_eq _ _ _ Hfind). simpl fst.
    destruct Hs as (Hnum & Hpos & Hne & Hnn & Hnu & Hov).
    assert (Hprev : householdConsumption (insert_literal recs fd nid)
                    = consumption (Fd.householdConsumptionOverride fd)
                        (Fd.householdState fd)
                        match last_elem recs with
                        | Some r => Num (householdState r)
                        | None => Null
                        end).
    { unfold insert_literal. simpl.
      rewrite (getPreviousReading_last recs _ _ "householdState" Hsorted
                 Hbefore).
      destruct (last_elem recs); reflexivity. }
    pose proof (last_elem_map householdState recs) as Hl.
    rewrite Ist in Hl.
    split; [|split; [|split]].
    + unfold periods in *. rewrite !map_app, Iper. reflexivity.
    + rewrite !map_app, Iid. reflexivity.
    + rewrite !map_app, Ist. simpl. rewrite Hnum.
      now rewrite (or_zero_truthy s (positive_truthy s Hpos)).
    + rewrite !map_app, Icons, differences_snoc. cbn [map]. f_equal. f_equal.
      rewrite Hprev, Hl.
      destruct (last_elem recs) as [q|]; simpl option_map; cbv iota.
      * unfold consumption.
        replace (negb (is_nullish (Fd.householdConsumptionOverride fd)))
          with false by (destruct Hov as [->| ->]; reflexivity).
        rewrite calcConsumption_present by (assumption || discriminate).
        simpl Number. now rewrite Hnum.
      * now apply consumption_no_prior.
Qed.

Lemma last_cons (z d : Z) (l : list Z) : last (z :: l) d = last l z.
Proof.
  revert z d. induction l as [|a l IH]; intros z d; [reflexivity|].
  change (last (z :: a :: l) d) with (last (a :: l) d).
  now rewrite (IH a d), (IH a z).
Qed.

Lemma differences_Fin (prev : option Z) (zs : list Z) :
  Forall (fun z => 0 < z < 2 ^ 53) zs ->
  match prev with Some p => 0 < p < 2 ^ 53 | None => True end ->
  differences (option_map Fin prev) (map Fin zs) = map Fin (steps prev zs).
Proof.
  intros H. revert prev. induction H as [|z l Hz H IH]; intros prev Hp;
    [reflexivity|].
  cbn [map differences steps].
  pose proof (IH (Some z) Hz) as E. cbn [option_map] in E. rewrite E.
  f_equal.
  destruct prev as [p|]; [|reflexivity]. cbn [option_map].
  unfold sub. rewrite Fin_sub by (unfold safe_integer; lia).
  apply Math_max_Fin. unfold safe_integer. lia.
Qed.

Lemma steps_nonneg (prev : option Z) (zs : list Z) :
  Forall (fun k => 0 <= k) (steps prev zs).
Proof.
  revert prev. induction zs as [|z l IH]; intros prev; simpl; constructor;
    [destruct prev; lia | apply IH].
Qed.

Lemma steps_sum (p : Z) (zs : list Z) :
  StronglySorted Z.le (p :: zs) -> Zsum (steps (Some p) zs) = last zs p - p.
Proof.
  revert p. induction zs as [|z l IH]; intros p H; simpl steps.
  - simpl. lia.
  - apply StronglySorted_inv in H. destruct H as [H1 H2].
    inversion H2 as [|? ? Hpz _]; subst.
    change (Zsum (Z.max 0 (z - p) :: steps (Some z) l))
      with (Z.max 0 (z - p) + Zsum (steps (Some z) l)).
    rewrite (IH z H1), last_cons.
    assert (p <= last l z).
    { clear - H2 Hpz. revert z Hpz H2. induction l as [|a l IH]; intros z Hpz H2.
      - exact Hpz.
      - rewrite last_cons. apply IH.
        + inversion H2 as [|? ? _ H3]; subst. inversion H3; subst. assumption.
        + inversion H2 as [|? ? _ H3]; subst. exact H3. }
    lia.
Qed.

Lemma whole_of_map (f : record -> num) (l : list record) (ks : list Z) :
  map f l = map Fin ks -> Forall (fun k => 0 <= k) ks ->
  Forall2 (fun r k => f r = Fin k /\ 0 <= k) l ks.
Proof.
  revert ks. induction l as [|r l IH]; intros [|k ks] H N; simpl in H;
    try discriminate; constructor.
  - split; [|now inversion N].
    apply (f_equal (hd_error (A:=num))) in H. simpl in H. congruence.
  - apply IH; [|now inversion N].
    apply (f_equal (@tl num)) in H. exact H.
Qed.

(** X20.  When readings above zero are entered into an empty store
    month after month in chronological order and without overrides,
    every submission appends a record, the stored household states are
    the readings as numbers, and the stored household consumptions are
    [0] for the first record and [Math.max(0, reading - previous
    reading)] for every later one.  When the readings are moreover
    whole numbers below 2^53 that never fall, the household total of
    the table is exactly the last reading minus the first. *)
Theorem chronological_readings :
  forall (subs : list (Fd.t * string)) (ss : list num),
    Forall2 (fun sub s => enters_reading (fst sub) s) subs ss ->
    StronglySorted earlier (map (fun sub => form_period (fst sub)) subs) ->
    let stored := submit_all subs [] in
    periods stored = map (fun sub => form_period (fst sub)) subs
    /\ map id stored = map snd subs
    /\ map householdState stored = ss
    /\ map householdConsumption stored = differences None ss
    /\ (forall zs : list Z,
           ss = map Fin zs ->
           Forall (fun z => 0 < z < 2 ^ 53) zs ->
           StronglySorted Z.le zs ->
           DataTable.totH stored = Fin (last zs 0 - hd 0 zs)).
Proof.
  intros subs ss HF HP stored. subst stored.
  destruct (submit_all_chain subs ss HF HP) as (H1 & H2 & H3 & H4).
  split; [exact H1|]. split; [exact H2|]. split; [exact H3|].
  split; [exact H4|].
  intros zs -> Hz Hs.
  pose proof (differences_Fin None zs Hz I) as D. cbn [option_map] in D.
  rewrite D in H4. clear D.
  assert (HF2 : Forall2 (fun r k => householdConsumption r = Fin k /\ 0 <= k)
                  (submit_all subs []) (steps None zs))
    by (apply whole_of_map; [exact H4 | apply steps_nonneg]).
  assert (Hsum : Zsum (steps None zs) = last zs 0 - hd 0 zs
                 /\ Zsum (steps None zs) < 2 ^ 53).
  { destruct zs as [|z l]; [simpl; split; [reflexivity|lia]|].
    change (steps None (z :: l)) with (0 :: steps (Some z) l).
    change (Zsum (0 :: steps (Some z) l)) with (0 + Zsum (steps (Some z) l)).
    rewrite (steps_sum z l Hs), last_cons. simpl hd. split; [lia|].
    assert (In (last l z) (z :: l)).
    { clear. revert z. induction l as [|a l IH]; intros z; [now left|].
      rewrite last_cons. right. apply IH. }
    rewrite Forall_forall in Hz.
    pose proof (Hz _ H). pose proof (Hz z (or_introl eq_refl)). lia. }
  destruct Hsum as [Es Bs].
  unfold DataTable.totH, sum_or_zero.
  rewrite (sum_whole_from householdConsumption _ _ 0 HF2) by lia.
  f_equal. lia.
Qed.

(** January 100.5, February 150, March 180.25: consumptions 0, 49.5
    and 30.25. *)
Lemma chronological_readings_witness :
  Forall2 (fun sub s => enters_reading (fst sub) s) three_months
          [100.5%float; 150%float; 180.25%float]
  /\ map householdConsumption (submit_all three_months [])
     = [Fin 0; 49.5%float; 30.25%float].
Proof.
  assert (H1 : Forall2 (fun sub s => enters_reading (fst sub) s) three_months
                       [100.5%float; 150%float; 180.25%float]).
  { repeat constructor; discriminate. }
  split; [exact H1|].
  destruct (chronological_readings three_months _ H1) as (_ & _ & _ & H & _).
  - repeat constructor; unfold earlier; simpl; lia.
  - rewrite H. reflexivity.
Defined.
